(** * File downloader: task state machine, task processor and worker pool

    A shallow embedding of the Go packages [entities], [usecases],
    [repository] (in-memory implementation) and [infrastructure] of the
    file-downloader service, with the properties of its design document
    stated and settled against the embedded code.

    Go values are modelled as follows.
    - [string] is a byte string: Rocq's [string] (a list of [ascii]).
    - [int] and [int64] are 64-bit: a [Z] with the wrap-around written out
      where the code does arithmetic.
    - [error] is the text of [err.Error()], [None] standing for [nil].
    - a pointer to a [Task] is a location in a heap of task objects; the in-memory
      repository maps identifiers to locations, so that the aliasing
      between the processor's task and the repository's task is explicit.
    - calls that leave the process (clock, file system, HTTP, the durable
      repository) are answered by an environment [Env], and the calls
      with their answers are recorded in a trace. *)

From Stdlib Require Import ZArith String Ascii List Lia DecimalString.
From stdpp Require Import gmap strings list.

Open Scope string_scope.
Open Scope Z_scope.

(** ** The parts of Go's [strings] and [fmt] packages the code uses *)

Module GoStrings.

(** [strings.HasPrefix]. *)
Fixpoint HasPrefix (s prefix : string) : bool :=
  match prefix, s with
  | EmptyString, _ => true
  | String _ _, EmptyString => false
  | String c p, String d s' => if Ascii.eqb c d then HasPrefix s' p else false
  end.

(** [s[n:]] for [n <= len(s)]. *)
Fixpoint drop_bytes (n : nat) (s : string) : string :=
  match n, s with
  | O, _ => s
  | S _, EmptyString => EmptyString
  | S k, String _ s' => drop_bytes k s'
  end.

(** [strings.Cut]: the text before and after the first (leftmost)
    occurrence of [sep] in [s]; [strings.Index] locates the same
    occurrence. *)
Fixpoint Cut (s sep : string) : option (string * string) :=
  if HasPrefix s sep then Some (EmptyString, drop_bytes (String.length sep) s)
  else match s with
       | EmptyString => None
       | String c s' =>
           match Cut s' sep with
           | Some (before, after) => Some (String c before, after)
           | None => None
           end
       end.

(** [strings.Contains(s, substr)], that is [strings.Index(s, substr) >= 0]. *)
Definition Contains (s substr : string) : bool :=
  match Cut s substr with Some _ => true | None => false end.

(** The loop of [strings.Split] for a non-empty separator: cut at the
    leftmost occurrence, continue after it.  Every round consumes at
    least one byte, so [String.length s] rounds always suffice. *)
Fixpoint Split_rounds (rounds : nat) (s sep : string) : list string :=
  match rounds with
  | O => [s]
  | S k =>
      match Cut s sep with
      | None => [s]
      | Some (before, after) => before :: Split_rounds k after sep
      end
  end.

(** [strings.Split(s, sep)] for a non-empty [sep] (both call sites pass a
    non-empty literal). *)
Definition Split (s sep : string) : list string :=
  Split_rounds (String.length s) s sep.

(** Membership of a byte in a cutset. *)
Fixpoint in_cutset (c : ascii) (cutset : string) : bool :=
  match cutset with
  | EmptyString => false
  | String d rest => if Ascii.eqb c d then true else in_cutset c rest
  end.

(** [strings.TrimLeft] for an ASCII cutset. *)
Fixpoint TrimLeft (s cutset : string) : string :=
  match s with
  | EmptyString => EmptyString
  | String c s' => if in_cutset c cutset then TrimLeft s' cutset else s
  end.

(** [strings.TrimRight] for an ASCII cutset. *)
Fixpoint TrimRight (s cutset : string) : string :=
  match s with
  | EmptyString => EmptyString
  | String c s' =>
      match TrimRight s' cutset with
      | EmptyString => if in_cutset c cutset then EmptyString else String c EmptyString
      | r => String c r
      end
  end.

(** [strings.Trim(s, cutset)] for an ASCII cutset. *)
Definition Trim (s cutset : string) : string :=
  TrimRight (TrimLeft s cutset) cutset.

(** The verb [%d] of [fmt.Sprintf] on an integer. *)
Definition fmt_d (z : Z) : string := NilZero.string_of_int (Z.to_int z).

(** The one-byte string holding a double quote (the cutset of the
    [strings.Trim] call). *)
Definition double_quote : string := String "034"%char EmptyString.

(** The test that a string is not the empty string. *)
Definition nonempty (s : string) : bool :=
  match s with EmptyString => false | String _ _ => true end.

End GoStrings.

(** ** Machine integers *)

Definition max_int : Z := 2 ^ 63 - 1.

(** The value of a 64-bit signed [int] holding the mathematical result [z]. *)
Definition wrap_int (z : Z) : Z := (z + 2 ^ 63) mod 2 ^ 64 - 2 ^ 63.

(** An optional error: [None] is Go's [nil]. *)
Abbreviation error := (option string).

(** ** Package [entities] *)

Module entities.

(** [type TaskStatus string] with its four constants; the code never
    builds a [TaskStatus] from anything else. *)
Inductive TaskStatus :=
| TaskStatusNew
| TaskStatusProcessing
| TaskStatusCompleted
| TaskStatusFailed.

(** The string behind a status constant. *)
Definition TaskStatus_string (s : TaskStatus) : string :=
  match s with
  | TaskStatusNew => "new"
  | TaskStatusProcessing => "processing"
  | TaskStatusCompleted => "completed"
  | TaskStatusFailed => "failed"
  end.

(** [type File struct]; [Status] is a plain string in the source. *)
Record File := mkFile {
  URL : string;
  Path : string;
  Size : Z;
  Status : string;
  Error : string
}.

(** The zero value of [File], as [make([]File, n)] fills a slice. *)
Definition zero_File : File := mkFile EmptyString EmptyString 0 EmptyString EmptyString.

(** [type Task struct]; [ID] is kept as the text of [ID.String()]. *)
Record Task := mkTask {
  ID : string;
  URLs : list string;
  TStatus : TaskStatus;
  CreatedAt : Z;
  UpdatedAt : Z;
  Files : list File;
  TError : string
}.

(** [NewTask]: [id] is the answer of [uuid.New()], [now] of [time.Now()]. *)
Definition NewTask (id : string) (now : Z) (urls : list string) : Task :=
  {| ID := id;
     URLs := urls;
     TStatus := TaskStatusNew;
     CreatedAt := now;
     UpdatedAt := now;
     Files := replicate (length urls) zero_File;
     TError := EmptyString |}.

(** [Task.UpdateStatus] on the task's value. *)
Definition UpdateStatus (now : Z) (status : TaskStatus) (t : Task) : Task :=
  {| ID := ID t; URLs := URLs t; TStatus := status;
     CreatedAt := CreatedAt t; UpdatedAt := now;
     Files := Files t; TError := TError t |}.

(** [Task.SetError] on the task's value. *)
Definition SetError (now : Z) (err : string) (t : Task) : Task :=
  {| ID := ID t; URLs := URLs t; TStatus := TaskStatusFailed;
     CreatedAt := CreatedAt t; UpdatedAt := now;
     Files := Files t; TError := err |}.

(** The loop of [IsCompleted]: no file with a status other than
    ["completed"]. *)
Fixpoint all_completed (files : list File) : bool :=
  match files with
  | [] => true
  | file :: rest =>
      if String.eqb (Status file) "completed" then all_completed rest else false
  end.

(** [Task.IsCompleted]. *)
Definition IsCompleted (t : Task) : bool :=
  if (length (Files t) =? 0)%nat then false else all_completed (Files t).

(** The loop of [IsFailed]. *)
Fixpoint any_failed (files : list File) : bool :=
  match files with
  | [] => false
  | file :: rest =>
      if String.eqb (Status file) "failed" then true else any_failed rest
  end.

(** [Task.IsFailed]. *)
Definition IsFailed (t : Task) : bool := any_failed (Files t).

(** The counting loop of [GetProgress]. *)
Fixpoint count_completed (files : list File) (completed : Z) : Z :=
  match files with
  | [] => completed
  | file :: rest =>
      count_completed rest
        (if String.eqb (Status file) "completed"
         then wrap_int (completed + 1) else completed)
  end.

(** [Task.GetProgress]; Go's [/] on [int] truncates. *)
Definition GetProgress (t : Task) : Z :=
  if (length (Files t) =? 0)%nat then 0
  else
    let completed := count_completed (Files t) 0 in
    Z.quot (wrap_int (completed * 100)) (Z.of_nat (length (Files t))).

(** Writing one field of [t.Files[i]]; the caller has checked the index. *)
Definition set_file (i : nat) (f : File -> File) (t : Task) : Task :=
  {| ID := ID t; URLs := URLs t; TStatus := TStatus t;
     CreatedAt := CreatedAt t; UpdatedAt := UpdatedAt t;
     Files := alter f i (Files t); TError := TError t |}.

Definition with_Status (s : string) (f : File) : File :=
  mkFile (URL f) (Path f) (Size f) s (Error f).
Definition with_Error (e : string) (f : File) : File :=
  mkFile (URL f) (Path f) (Size f) (Status f) e.
Definition with_Path (p : string) (f : File) : File :=
  mkFile (URL f) p (Size f) (Status f) (Error f).
Definition with_Size (n : Z) (f : File) : File :=
  mkFile (URL f) (Path f) n (Status f) (Error f).

End entities.

Import entities.

(** ** The world the use cases run in *)

(** The fields of [*http.Response] that [DownloadFile] reads; the body is
    consumed by [io.Copy], whose answer comes from the environment. *)
Record Response := mkResponse {
  StatusCode : Z;
  RespStatus : string;
  ContentDisposition : string
}.

(** A location of the heap of task objects (the value of a [*entities.Task]). *)
Abbreviation loc := nat.

(** What the trace records: the calls that cross the boundary of the
    processor, each with its answer. *)
Inductive Event :=
| EvMkdirAll (path : string) (res : error)
| EvDownloadFile (url taskID : string) (fileIndex : Z) (res : error)
| EvPersistCreate (t : Task) (res : error)
| EvPersistUpdate (t : Task) (res : error).

(** The answers of everything outside the modelled packages.  The [nat]
    argument is the logical time of the call (the length of the trace so
    far), so that the same question may be answered differently later. *)
Record Env := mkEnv {
  time_Now : nat -> Z;
  uuid_New : nat -> string;
  filepath_Join : list string -> string;
  os_MkdirAll : nat -> string -> error;
  http_NewRequest : string -> error;
  client_Do : nat -> string -> string + Response;
  os_Create : nat -> string -> error;
  io_Copy : nat -> Response -> string + Z;
  persistent_Create : nat -> Task -> error;
  persistent_Update : nat -> Task -> error
}.

(** The state: the task objects, the [tasks] map of
    [InMemoryTaskRepository] (identifier to pointer), and the trace. *)
Record World := mkWorld {
  heap : list Task;
  taskRepo : gmap string loc;
  trace : list Event
}.

Definition empty_World : World := mkWorld [] ∅ [].

(** A computation either returns or panics (a Go run-time panic, which
    nothing in these packages recovers). *)
Inductive outcome (A : Type) :=
| Ret (a : A)
| Panic (msg : string).
Arguments Ret {A} a.
Arguments Panic {A} msg.

Definition M (A : Type) : Type := World -> outcome A * World.

Definition ret {A} (a : A) : M A := fun w => (Ret a, w).

Definition bind {A B} (m : M A) (k : A -> M B) : M B :=
  fun w =>
    match m w with
    | (Ret a, w') => k a w'
    | (Panic msg, w') => (Panic msg, w')
    end.

Declare Scope go_scope.
Delimit Scope go_scope with go.
Notation "x <- m ;; k" := (bind m (fun x => k))
  (at level 20, m at level 99, k at level 200, only parsing) : go_scope.
Notation "m ;;; k" := (bind m (fun _ => k))
  (at level 100, k at level 200, right associativity, only parsing) : go_scope.
Open Scope go_scope.

Definition panic {A} (msg : string) : M A := fun w => (Panic msg, w).

(** Appending an event to the trace. *)
Definition emit (ev : Event) : M unit :=
  fun w => (Ret tt, mkWorld (heap w) (taskRepo w) (trace w ++ [ev])).

(** Dereferencing a task pointer. *)
Definition load (p : loc) : M Task :=
  fun w =>
    match heap w !! p with
    | Some t => (Ret t, w)
    | None => (Panic "invalid memory address or nil pointer dereference", w)
    end.

(** Updating the task object behind a pointer in place. *)
Definition modify (p : loc) (f : Task -> Task) : M unit :=
  fun w =>
    match heap w !! p with
    | Some t => (Ret tt, mkWorld (<[p := f t]> (heap w)) (taskRepo w) (trace w))
    | None => (Panic "invalid memory address or nil pointer dereference", w)
    end.

(** Allocating a task object ([&Task{...}]). *)
Definition alloc (t : Task) : M loc :=
  fun w => (Ret (length (heap w)), mkWorld (heap w ++ [t]) (taskRepo w) (trace w)).

(** Reading the [tasks] map of the repository. *)
Definition repo_lookup (id : string) : M (option loc) :=
  fun w => (Ret (taskRepo w !! id), w).

(** [r.tasks[id] = task]. *)
Definition repo_insert (id : string) (task : loc) : M unit :=
  fun w => (Ret tt, mkWorld (heap w) (<[id := task]> (taskRepo w)) (trace w)).

(** [delete(r.tasks, id)]. *)
Definition repo_delete (id : string) : M unit :=
  fun w => (Ret tt, mkWorld (heap w) (delete id (taskRepo w)) (trace w)).

(** Asking the outside world at the current logical time. *)
Definition ask {A} (answer : nat -> A) : M A :=
  fun w => (Ret (answer (length (trace w))), w).

(** [t.Files[i]]: an index out of range panics. *)
Definition file_at (t : Task) (i : Z) : M File :=
  if (i <? 0) then panic "index out of range"
  else match Files t !! Z.to_nat i with
       | Some f => ret f
       | None => panic "index out of range"
       end.

(** ** Package [repository]: [InMemoryTaskRepository] *)

Module repository.

(** The error of a lookup that finds nothing. *)
Definition not_found (id : string) : string :=
  "задача с id " +:+ id +:+ " не найдена".

(** [Create]: [r.tasks[task.ID.String()] = task]. *)
Definition Create (task : loc) : M error :=
  t <- load task ;;
  repo_insert (ID t) task ;;;
  ret None.

(** [GetByID]: the pointer stored under [id], or an error. *)
Definition GetByID (id : string) : M (string + loc) :=
  found <- repo_lookup id ;;
  match found with
  | None => ret (inl (not_found id))
  | Some task => ret (inr task)
  end.

(** [Update]: fails on an unknown identifier, else stores the pointer. *)
Definition Update (task : loc) : M error :=
  t <- load task ;;
  found <- repo_lookup (ID t) ;;
  match found with
  | None => ret (Some (not_found (ID t)))
  | Some _ => repo_insert (ID t) task ;;; ret None
  end.

(** [Delete]. *)
Definition Delete (id : string) : M error :=
  found <- repo_lookup id ;;
  match found with
  | None => ret (Some (not_found id))
  | Some _ => repo_delete id ;;; ret None
  end.

End repository.

(** ** Package [usecases] *)

Section usecases.

Variable E : Env.

(** The field [downloadDir] that [NewDownloadUsecase] sets. *)
Definition downloadDir : string := "./downloads".

(** [time.Now()] at the current logical time. *)
Definition now : M Z := ask (time_Now E).

(** The calls [NewTask(urls)], [task.UpdateStatus(status)] and
    [task.SetError(err)] on task objects of the heap. *)
Definition call_NewTask (urls : list string) : M loc :=
  id <- ask (uuid_New E) ;;
  n <- now ;;
  alloc (NewTask id n urls).

Definition call_UpdateStatus (task : loc) (status : TaskStatus) : M unit :=
  n <- now ;;
  modify task (UpdateStatus n status).

Definition call_SetError (task : loc) (err : string) : M unit :=
  n <- now ;;
  modify task (SetError n err).

(** [u.persistentRepo.Update(ctx, task)]: the durable repository is
    outside the modelled packages; it is handed the task and answers. *)
Definition persistentRepo_Update (task : loc) : M error :=
  t <- load task ;;
  res <- ask (fun n => persistent_Update E n t) ;;
  emit (EvPersistUpdate t res) ;;;
  ret res.

(** [u.persistentRepo.Create(ctx, task)]. *)
Definition persistentRepo_Create (task : loc) : M error :=
  t <- load task ;;
  res <- ask (fun n => persistent_Create E n t) ;;
  emit (EvPersistCreate t res) ;;;
  ret res.

(** [os.MkdirAll(path, 0755)]. *)
Definition MkdirAll (path : string) : M error :=
  res <- ask (fun n => os_MkdirAll E n path) ;;
  emit (EvMkdirAll path res) ;;;
  ret res.

(** [updateTask]: both repositories, the in-memory one first. *)
Definition updateTask (task : loc) : M error :=
  err <- repository.Update task ;;
  match err with
  | Some e => ret (Some e)
  | None => persistentRepo_Update task
  end.

(** [getFileName]; [unix] is the answer of [time.Now().Unix()]. *)
Definition getFileName (unix : Z) (url contentDisposition : string) : string :=
  let from_url :=
    let parts := GoStrings.Split url "/" in
    let fallback := "file_" +:+ GoStrings.fmt_d unix in
    if (0 <? length parts)%nat then
      let filename := nth (length parts - 1) parts EmptyString in
      if GoStrings.nonempty filename && negb (GoStrings.Contains filename "?")
      then filename
      else fallback
    else fallback in
  if GoStrings.nonempty contentDisposition then
    let parts := GoStrings.Split contentDisposition "filename=" in
    if (1 <? length parts)%nat then
      let filename := GoStrings.Trim (nth 1 parts EmptyString) GoStrings.double_quote in
      if GoStrings.nonempty filename then filename else from_url
    else from_url
  else from_url.

(** Marking [task.Files[i]] failed with an error text. *)
Definition fail_file (task : loc) (i : nat) (msg : string) : M unit :=
  modify task (set_file i (with_Status "failed")) ;;;
  modify task (set_file i (with_Error msg)).

(** The body of [DownloadFile]. *)
Definition DownloadFile_body (url taskID : string) (fileIndex : Z) : M error :=
  r <- repository.GetByID taskID ;;
  match r with
  | inl err => ret (Some ("не удалось получить задачу: " +:+ err))
  | inr task =>
      t <- load task ;;
      if (Z.of_nat (length (Files t)) <=? fileIndex)
      then ret (Some ("неверный индекс файла: " +:+ GoStrings.fmt_d fileIndex))
      else
        (* file := &task.Files[fileIndex] *)
        file_at t fileIndex ;;;
        let i := Z.to_nat fileIndex in
        modify task (set_file i (with_Status "downloading")) ;;;
        match http_NewRequest E url with
        | Some err =>
            fail_file task i ("не удалось создать запрос: " +:+ err) ;;;
            ret (Some err)
        | None =>
            r <- ask (fun n => client_Do E n url) ;;
            match r with
            | inl err =>
                fail_file task i ("не удалось скачать: " +:+ err) ;;;
                ret (Some err)
            | inr resp =>
                if negb (StatusCode resp =? 200) then
                  let msg := "HTTP " +:+ GoStrings.fmt_d (StatusCode resp)
                               +:+ ": " +:+ RespStatus resp in
                  fail_file task i msg ;;;
                  ret (Some msg)
                else
                  unix <- now ;;
                  let fileName := getFileName unix url (ContentDisposition resp) in
                  let filePath := filepath_Join E [downloadDir; taskID; fileName] in
                  modify task (set_file i (with_Path filePath)) ;;;
                  r <- ask (fun n => os_Create E n filePath) ;;
                  match r with
                  | Some err =>
                      fail_file task i ("не удалось создать файл: " +:+ err) ;;;
                      ret (Some err)
                  | None =>
                      r <- ask (fun n => io_Copy E n resp) ;;
                      match r with
                      | inl err =>
                          fail_file task i ("не удалось записать файл: " +:+ err) ;;;
                          ret (Some err)
                      | inr written =>
                          modify task (set_file i (with_Size written)) ;;;
                          modify task (set_file i (with_Status "completed")) ;;;
                          ret None
                      end
                  end
            end
        end
  end.

(** [DownloadFile], with the call and what it returned put on the trace. *)
Definition DownloadFile (url taskID : string) (fileIndex : Z) : M error :=
  res <- DownloadFile_body url taskID fileIndex ;;
  emit (EvDownloadFile url taskID fileIndex res) ;;;
  ret res.

(** The loop [for i := range task.Files] of [ProcessTask], over the
    indices still to visit; [Some] is the early return. *)
Fixpoint ProcessTask_range (task : loc) (indices : list nat) : M error :=
  match indices with
  | [] => ret None
  | i :: rest =>
      t <- load task ;;
      file <- file_at t (Z.of_nat i) ;;
      err <- DownloadFile (URL file) (ID t) (Z.of_nat i) ;;
      match err with
      | Some e => fail_file task i e
      | None => ret tt
      end ;;;
      err <- updateTask task ;;
      match err with
      | Some e => ret (Some ("не удалось обновить задачу: " +:+ e))
      | None => ProcessTask_range task rest
      end
  end.

(** The second half of [ProcessTask], from the loop over the files to
    the final status, run once the download directory exists. *)
Definition ProcessTask_files (task : loc) : M error :=
  t <- load task ;;
  err <- ProcessTask_range task (seq 0 (length (Files t))) ;;
  match err with
  | Some e => ret (Some e)
  | None =>
      t <- load task ;;
      (if IsCompleted t then call_UpdateStatus task TaskStatusCompleted
       else if IsFailed t then call_UpdateStatus task TaskStatusFailed
       else ret tt) ;;;
      updateTask task
  end.

(** [ProcessTask]. *)
Definition ProcessTask (task : loc) : M error :=
  call_UpdateStatus task TaskStatusProcessing ;;;
  err <- updateTask task ;;
  match err with
  | Some e => ret (Some ("не удалось обновить статус задачи: " +:+ e))
  | None =>
      t <- load task ;;
      let taskDir := filepath_Join E [downloadDir; ID t] in
      err <- MkdirAll taskDir ;;
      match err with
      | Some e =>
          call_SetError task
            ("не удалось создать директорию для скачивания: " +:+ e) ;;;
          updateTask task ;;;
          ret (Some ("не удалось создать директорию для скачивания: " +:+ e))
      | None => ProcessTask_files task
      end
  end.

(** The validation loop of [CreateTask]. *)
Fixpoint has_empty_url (urls : list string) : bool :=
  match urls with
  | [] => false
  | url :: rest => if GoStrings.nonempty url then has_empty_url rest else true
  end.

(** The loop [for i, url := range urls] of [CreateTask]. *)
Fixpoint CreateTask_init (task : loc) (i : nat) (urls : list string) : M unit :=
  match urls with
  | [] => ret tt
  | url :: rest =>
      t <- load task ;;
      file_at t (Z.of_nat i) ;;;
      modify task
        (set_file i (fun _ => mkFile url EmptyString 0 "pending" EmptyString)) ;;;
      CreateTask_init task (S i) rest
  end.

(** [CreateTask]: the new task's pointer, or an error. *)
Definition CreateTask (urls : list string) : M (string + loc) :=
  if (length urls =? 0)%nat then ret (inl "не предоставлены URL")
  else if has_empty_url urls then ret (inl "предоставлен пустой URL")
  else
    task <- call_NewTask urls ;;
    CreateTask_init task 0 urls ;;;
    err <- repository.Create task ;;
    match err with
    | Some e => ret (inl ("не удалось создать задачу: " +:+ e))
    | None =>
        err <- persistentRepo_Create task ;;
        match err with
        | Some e => ret (inl ("не удалось сохранить задачу: " +:+ e))
        | None => ret (inr task)
        end
    end.

End usecases.

(** ** Package [infrastructure]: the worker pool *)

Module infrastructure.

(** [type TaskJob struct]. *)
Record TaskJob := mkTaskJob { TaskID : string }.

(** [type Worker struct]: the buffered channel [jobQueue] (capacity 1)
    is the list of jobs it holds. *)
Record Worker := mkWorker {
  id : Z;
  jobQueue : list TaskJob;
  busy : bool
}.

(** [type WorkerPool struct]: [taskQueue] is the buffered channel of
    capacity 100, [cancelled] tells whether [wp.cancel()] has been
    called, that is whether [wp.ctx.Done()] is closed. *)
Record WorkerPool := mkWorkerPool {
  workerCount : Z;
  taskQueue : list TaskJob;
  workers : list Worker;
  cancelled : bool;
  running : bool
}.

(** The capacity of [taskQueue] ([make(chan *TaskJob, 100)]). *)
Definition taskQueue_cap : nat := 100.

(** [NewWorkerPool]. *)
Definition NewWorkerPool (workerCount : Z) : WorkerPool :=
  {| workerCount := workerCount;
     taskQueue := [];
     workers := [];
     cancelled := false;
     running := false |}.

(** [Start], as far as the pool's own fields go: the worker records are
    created; the goroutines it spawns are not part of the value.  The
    worker count is not negative (the one caller passes 3). *)
Definition Start (wp : WorkerPool) : WorkerPool :=
  if running wp then wp
  else
    {| workerCount := workerCount wp;
       taskQueue := taskQueue wp;
       workers := map (fun i => mkWorker (Z.of_nat i) [] false)
                      (seq 0 (Z.to_nat (workerCount wp)));
       cancelled := cancelled wp;
       running := true |}.

(** [Stop], as far as the pool's own fields go: the context is
    cancelled and, the workers having quit, [running] is reset. *)
Definition Stop (wp : WorkerPool) : WorkerPool :=
  if negb (running wp) then wp
  else
    {| workerCount := workerCount wp;
       taskQueue := taskQueue wp;
       workers := workers wp;
       cancelled := true;
       running := false |}.

(** The cases of the [select] in [AddTask] that can proceed. *)
Inductive AddTask_case := case_send | case_done.

Definition ready_cases (wp : WorkerPool) : list AddTask_case :=
  (if (length (taskQueue wp) <? taskQueue_cap)%nat then [case_send] else [])
    ++ (if cancelled wp then [case_done] else []).

(** [AddTask]: when several cases of the [select] can proceed Go picks
    one at random, here the one numbered [choice] among them; with none
    ready the [default] case runs. *)
Definition AddTask (choice : nat) (taskID : string) (wp : WorkerPool)
  : WorkerPool * error :=
  if negb (running wp) then (wp, Some "пул воркеров не запущен")
  else
    let ready := ready_cases wp in
    match ready !! (choice `mod` length ready)%nat with
    | Some case_send =>
        ({| workerCount := workerCount wp;
            taskQueue := taskQueue wp ++ [mkTaskJob taskID];
            workers := workers wp;
            cancelled := cancelled wp;
            running := running wp |}, None)
    | Some case_done => (wp, Some "пул воркеров завершает работу")
    | None => (wp, Some "очередь задач переполнена")
    end.

(** [findAvailableWorker]: the first worker that is not busy is
    claimed; the result is its position. *)
Fixpoint findAvailableWorker (ws : list Worker) : option nat * list Worker :=
  match ws with
  | [] => (None, [])
  | worker :: rest =>
      if negb (busy worker)
      then (Some O, mkWorker (id worker) (jobQueue worker) true :: rest)
      else match findAvailableWorker rest with
           | (Some k, rest') => (Some (S k), worker :: rest')
           | (None, rest') => (None, worker :: rest')
           end
  end.

End infrastructure.

(** ** Notions of the design document *)

(** The number of files whose status is ["completed"], as the design
    document counts them. *)
Definition completedFileCount (t : Task) : nat :=
  length (filter (fun f => Status f = "completed") (Files t)).

(** The text after the first occurrence of [marker] in [s] and the text
    before it, each read off in one pass from the left. *)
Fixpoint after_marker (marker s : string) : option string :=
  if GoStrings.HasPrefix s marker
  then Some (GoStrings.drop_bytes (String.length marker) s)
  else match s with
       | EmptyString => None
       | String _ s' => after_marker marker s'
       end.

Fixpoint before_marker (marker s : string) : string :=
  if GoStrings.HasPrefix s marker then EmptyString
  else match s with
       | EmptyString => EmptyString
       | String c s' => String c (before_marker marker s')
       end.

(** What the code reads from a header: the text that follows the first
    [filename=], up to the next [filename=] if there is one, without the
    double quotes at its two ends. *)
Definition marker_text (contentDisposition : string) : option string :=
  match after_marker "filename=" contentDisposition with
  | None => None
  | Some rest =>
      let name := GoStrings.Trim (before_marker "filename=" rest) GoStrings.double_quote in
      if GoStrings.nonempty name then Some name else None
  end.

(** *** The filename parameter of a [Content-Disposition] header

    The value of such a header is a disposition type followed by
    parameters, as in [attachment; filename="a.txt"; size=3]: semicolons
    separate the parameters, a parameter is a name, an equals sign and a
    value, and a value is a token or a text between double quotes. *)

(** The pieces of a header value between the semicolons that stand
    outside double quotes, read off in one pass from the left. *)
Fixpoint parameters_from (quoted : bool) (cur s : string) : list string :=
  match s with
  | EmptyString => [cur]
  | String c s' =>
      if Ascii.eqb c "034"
      then parameters_from (negb quoted) (cur +:+ String c EmptyString) s'
      else if Ascii.eqb c ";" && negb quoted
           then cur :: parameters_from false EmptyString s'
           else parameters_from quoted (cur +:+ String c EmptyString) s'
  end.

Definition parameters (value : string) : list string :=
  parameters_from false EmptyString value.

(** A piece without the blanks in front of it. *)
Fixpoint skip_blanks (s : string) : string :=
  match s with
  | EmptyString => EmptyString
  | String c s' => if Ascii.eqb c " " then skip_blanks s' else s
  end.

(** What is left of [s] after [prefix], if [s] begins with it. *)
Fixpoint after_prefix (prefix s : string) : option string :=
  match prefix with
  | EmptyString => Some s
  | String c prefix' =>
      match s with
      | EmptyString => None
      | String d s' => if Ascii.eqb c d then after_prefix prefix' s' else None
      end
  end.

(** The text up to the first double quote. *)
Fixpoint up_to_quote (s : string) : string :=
  match s with
  | EmptyString => EmptyString
  | String c s' =>
      if Ascii.eqb c "034" then EmptyString else String c (up_to_quote s')
  end.

(** The value of a parameter: the text between the double quotes of a
    quoted value, and a token as it stands. *)
Definition parameter_value (v : string) : string :=
  match v with
  | EmptyString => EmptyString
  | String c rest => if Ascii.eqb c "034" then up_to_quote rest else v
  end.

(** The value of the first parameter named [filename]. *)
Fixpoint filename_parameter (params : list string) : option string :=
  match params with
  | [] => None
  | param :: rest =>
      match after_prefix "filename=" (skip_blanks param) with
      | Some v => Some (parameter_value v)
      | None => filename_parameter rest
      end
  end.

(** The filename a [Content-Disposition] header carries: the value of
    its filename parameter, if it has one and the value is not empty. *)
Definition header_filename (contentDisposition : string) : option string :=
  match filename_parameter (parameters contentDisposition) with
  | Some name => if GoStrings.nonempty name then Some name else None
  | None => None
  end.

(** The last path segment of a URL: what follows its last slash (all of
    it when it has none), read off in one pass from the left. *)
Fixpoint last_segment_from (cur s : string) : string :=
  match s with
  | EmptyString => cur
  | String c s' =>
      if Ascii.eqb c "/" then last_segment_from EmptyString s'
      else last_segment_from (cur +:+ String c EmptyString) s'
  end.

Definition url_last_segment (url : string) : string :=
  last_segment_from EmptyString url.

(** A segment is query-free when it holds no question mark. *)
Fixpoint has_byte (c : ascii) (s : string) : bool :=
  match s with
  | EmptyString => false
  | String d s' => if Ascii.eqb d c then true else has_byte c s'
  end.

Definition query_free (segment : string) : bool := negb (has_byte "?" segment).

(** The name taken from the URL: its last path segment if that is
    non-empty and query-free, else a name made from the current time. *)
Definition url_filename (unix : Z) (url : string) : string :=
  let segment := url_last_segment url in
  if GoStrings.nonempty segment && query_free segment then segment
  else "file_" +:+ GoStrings.fmt_d unix.

(** The filename rule in the design document's words: the header's
    filename if one is present, else the URL's last path segment if it is
    non-empty and query-free, else a name made from the current time. *)
Definition filename_rule (unix : Z) (url contentDisposition : string) : string :=
  match header_filename contentDisposition with
  | Some name => name
  | None => url_filename unix url
  end.

(** The events a run has added to the trace. *)
Definition new_events (w w' : World) : list Event :=
  drop (length (trace w)) (trace w').

(** The [DownloadFile] calls among some events, in order: the URL, the
    task identifier and the file index of each. *)
Fixpoint download_calls (evs : list Event) : list (string * string * Z) :=
  match evs with
  | [] => []
  | EvDownloadFile url taskID fileIndex _ :: rest =>
      (url, taskID, fileIndex) :: download_calls rest
  | _ :: rest => download_calls rest
  end.

(** What those calls returned, in the same order. *)
Fixpoint download_results (evs : list Event) : list error :=
  match evs with
  | [] => []
  | EvDownloadFile _ _ _ res :: rest => res :: download_results rest
  | _ :: rest => download_results rest
  end.

(** The calls [ProcessTask] is to make for a file list: one per file, in
    index order, each with its file's URL. *)
Definition expected_calls (taskID : string) (files : list File)
  : list (string * string * Z) :=
  imap (fun i f => (URL f, taskID, Z.of_nat i)) files.

(** How a file record reflects what its download returned: completed on
    [nil], failed with the error's text otherwise. *)
Definition file_outcome (res : error) (f : File) : Prop :=
  match res with
  | None => Status f = "completed"
  | Some e => Status f = "failed" /\ Error f = e
  end.

(** Whether a download returned [nil]. *)
Definition succeeded (res : error) : bool :=
  match res with None => true | Some _ => false end.

(** The invariant of the data model: one file record per URL. *)
Definition files_match_urls (t : Task) : Prop :=
  length (Files t) = length (URLs t).

(** The core operations on tasks. *)
Inductive core_op :=
| OpNewTask (urls : list string)
| OpCreateTask (urls : list string)
| OpProcessTask (task : loc)
| OpDownloadFile (url taskID : string) (fileIndex : Z)
| OpUpdateStatus (task : loc) (status : TaskStatus)
| OpSetError (task : loc) (err : string).

(** The world an operation leaves (also when it panics or fails). *)
Definition run_op (E : Env) (op : core_op) (w : World) : World :=
  match op with
  | OpNewTask urls => snd (call_NewTask E urls w)
  | OpCreateTask urls => snd (CreateTask E urls w)
  | OpProcessTask task => snd (ProcessTask E task w)
  | OpDownloadFile url taskID fileIndex => snd (DownloadFile E url taskID fileIndex w)
  | OpUpdateStatus task status => snd (call_UpdateStatus E task status w)
  | OpSetError task err => snd (call_SetError E task err w)
  end.

(** The worlds the operations build, starting without any task. *)
Inductive reachable (E : Env) : World -> Prop :=
| reachable_empty : reachable E empty_World
| reachable_step (op : core_op) (w : World) :
    reachable E w -> reachable E (run_op E op w).

(** A world whose task object at [p] holds [t]. *)
Definition at_task (p : loc) (h0 : list Task) (t : Task)
    (r : gmap string loc) (tr : list Event) : World :=
  mkWorld (<[p := t]> h0) r tr.

(** The error [DownloadFile] builds from a response it rejects
    ([fmt.Errorf] with the status code and the status text). *)
Definition http_error (resp : Response) : string :=
  "HTTP " +:+ GoStrings.fmt_d (StatusCode resp) +:+ ": " +:+ RespStatus resp.

(** The status processing leaves a task in, from what the downloads of
    its files returned: completed if there is a file and all succeeded,
    failed if any failed; without files the task stays in processing. *)
Definition final_status (results : list error) : TaskStatus :=
  match results with
  | [] => TaskStatusProcessing
  | _ :: _ =>
      if forallb succeeded results then TaskStatusCompleted else TaskStatusFailed
  end.

(** ** Relations every step of a run keeps *)

(** An update of a task object that leaves its identifier, its URLs and
    the number of its file records alone. *)
Definition keeps_shape (f : Task -> Task) : Prop :=
  forall t, ID (f t) = ID t /\ URLs (f t) = URLs t
            /\ length (Files (f t)) = length (Files t).

(** A computation whose runs, returning or panicking, all stay within a
    relation between the world before and the world after. *)
Definition respects (R : World -> World -> Prop) {A} (m : M A) : Prop :=
  forall w, R w (snd (m w)).

(** No task object loses or gains a file record or a URL, and if every
    task object had one file record per URL, every task object still has. *)
Definition keeps_files (w w' : World) : Prop :=
  (forall q t, heap w !! q = Some t ->
     exists t', heap w' !! q = Some t' /\ URLs t' = URLs t
                /\ length (Files t') = length (Files t))
  /\ ((forall q t, heap w !! q = Some t -> files_match_urls t) ->
      (forall q t, heap w' !! q = Some t -> files_match_urls t)).

(** The trace only grows, by events that satisfy [P]. *)
Definition extends_trace (P : Event -> Prop) (w w' : World) : Prop :=
  exists evs, trace w' = (trace w ++ evs)%list /\ Forall P evs.

(** Events other than the creation of a directory. *)
Definition not_mkdir (ev : Event) : Prop :=
  match ev with
  | EvMkdirAll _ _ => False
  | _ => True
  end.

(** ** Notions of the worker pool *)

(** The pool after a job for [taskID] has been pushed onto its queue. *)
Definition enqueued (taskID : string) (wp : infrastructure.WorkerPool)
  : infrastructure.WorkerPool :=
  infrastructure.mkWorkerPool
    (infrastructure.workerCount wp)
    (infrastructure.taskQueue wp ++ [infrastructure.mkTaskJob taskID])
    (infrastructure.workers wp)
    (infrastructure.cancelled wp)
    (infrastructure.running wp).

(** The shared queue holds as many jobs as its buffer takes. *)
Definition saturated (wp : infrastructure.WorkerPool) : Prop :=
  (infrastructure.taskQueue_cap <= length (infrastructure.taskQueue wp))%nat.

(** A pool that has been started, stopped and started again. *)
Definition restarted_pool : infrastructure.WorkerPool :=
  infrastructure.Start
    (infrastructure.Stop (infrastructure.Start (infrastructure.NewWorkerPool 3))).

(** The restarted pool after a hundred submissions whose [select] took
    the send case. *)
Definition restarted_full_pool : infrastructure.WorkerPool :=
  Nat.iter 100 (fun wp => fst (infrastructure.AddTask 0 "task-1" wp)) restarted_pool.

(** ** Example worlds *)

(** An environment in which the URL [https://x/unreachable] cannot be
    fetched and every other URL is answered by [resp]; creating the
    download directory answers [mkdir]; the durable repository accepts
    everything. *)
Definition example_Env (mkdir : error) (resp : Response) : Env :=
  {| time_Now := fun n => Z.of_nat n;
     uuid_New := fun _ => "task-1";
     filepath_Join := String.concat "/";
     os_MkdirAll := fun _ _ => mkdir;
     http_NewRequest := fun _ => None;
     client_Do := fun _ url =>
       if String.eqb url "https://x/unreachable" then inl "no such host"
       else inr resp;
     os_Create := fun _ _ => None;
     io_Copy := fun _ _ => inr 42;
     persistent_Create := fun _ _ => None;
     persistent_Update := fun _ _ => None |}.

Definition response_200 : Response := mkResponse 200 "200 OK" EmptyString.
Definition response_204 : Response := mkResponse 204 "204 No Content" EmptyString.

(** The world after creating one task with an unreachable and a
    reachable URL; the task is at location 0 and is called [task-1]. *)
Definition two_file_World : World :=
  snd (CreateTask (example_Env None response_200)
         ["https://x/unreachable"; "https://x/b.pdf"] empty_World).

(** The task object of that world. *)
Definition two_file_task : Task :=
  mkTask "task-1" ["https://x/unreachable"; "https://x/b.pdf"] TaskStatusNew 0 0
    [mkFile "https://x/unreachable" EmptyString 0 "pending" EmptyString;
     mkFile "https://x/b.pdf" EmptyString 0 "pending" EmptyString]
    EmptyString.

(** A world with one registered task that has no files. *)
Definition no_file_World : World :=
  mkWorld [NewTask "task-0" 0 []] {["task-0" := 0%nat]} [].

(** ** Further notions of the task state machine *)

(** A task is pending while its status is new or processing: the test of
    [GetPendingTasks]. *)
Definition is_pending (t : Task) : bool :=
  match TStatus t with
  | TaskStatusNew | TaskStatusProcessing => true
  | _ => false
  end.

(** ** The rest of the repository and of the task use case *)

(** The loop of [GetPendingTasks] over the entries of the [tasks] map, in
    the order the iteration visits them (Go leaves the order of a map
    iteration unspecified, so the order is an argument). *)
Fixpoint GetPendingTasks_loop (entries : list (string * loc)) : M (list loc) :=
  match entries with
  | [] => ret []
  | (_, task) :: rest =>
      t <- load task ;;
      pending <- GetPendingTasks_loop rest ;;
      ret (if is_pending t then task :: pending else pending)
  end.

(** [TaskUsecase.GetTask]. *)
Definition GetTask (id : string) : M (string + loc) :=
  r <- repository.GetByID id ;;
  match r with
  | inl err => ret (inl ("не удалось получить задачу: " +:+ err))
  | inr task => ret (inr task)
  end.

(** The file record [CreateTask] writes for a URL. *)
Definition pending_file (url : string) : File :=
  mkFile url EmptyString 0 "pending" EmptyString.

(** The task object a successful validation of [CreateTask] leaves on the
    heap. *)
Definition created_task (id : string) (now : Z) (urls : list string) : Task :=
  mkTask id urls TaskStatusNew now now (map pending_file urls) EmptyString.

(** A task object with its file list replaced. *)
Definition with_Files (files : list File) (t : Task) : Task :=
  mkTask (ID t) (URLs t) (TStatus t) (CreatedAt t) (UpdatedAt t) files (TError t).

(** An environment whose durable repository refuses everything with the
    error [e], and in which nothing else fails. *)
Definition refusing_Env (e : string) : Env :=
  {| time_Now := fun n => Z.of_nat n;
     uuid_New := fun _ => "task-1";
     filepath_Join := String.concat "/";
     os_MkdirAll := fun _ _ => None;
     http_NewRequest := fun _ => None;
     client_Do := fun _ _ => inr response_200;
     os_Create := fun _ _ => None;
     io_Copy := fun _ _ => inr 42;
     persistent_Create := fun _ _ => Some e;
     persistent_Update := fun _ _ => Some e |}.

(** ** Frames of a download *)

(** Two states of a task object that differ at most in the file record at
    index [i]. *)
Definition same_but_file (i : Z) (t t' : Task) : Prop :=
  ID t' = ID t /\ URLs t' = URLs t /\ TStatus t' = TStatus t
  /\ CreatedAt t' = CreatedAt t /\ UpdatedAt t' = UpdatedAt t
  /\ TError t' = TError t
  /\ length (Files t') = length (Files t)
  /\ forall j, Z.of_nat j <> i -> Files t' !! j = Files t !! j.

(** ** The worker's job and the task processor of [main] *)

(** The loop of [processJob] over the pending tasks: the first task
    whose identifier is the job's is processed, and the loop ends. *)
Fixpoint processJob_loop (E : Env) (taskID : string) (tasks : list loc) : M unit :=
  match tasks with
  | [] => ret tt
  | task :: rest =>
      t <- load task ;;
      if String.eqb (ID t) taskID then ProcessTask E task ;;; ret tt
      else processJob_loop E taskID rest
  end.

(** [Worker.processJob]; [entries] is the order in which
    [GetPendingTasks] visits the [tasks] map.  [GetPendingTasks] never
    returns an error, and what [ProcessTask] returns is only logged. *)
Definition processJob (E : Env) (entries : list (string * loc))
    (job : infrastructure.TaskJob) : M unit :=
  tasks <- GetPendingTasks_loop entries ;;
  processJob_loop E (infrastructure.TaskID job) tasks.

(** The loop of the task processor of [main] over the pending tasks:
    every task in status new is handed to [AddTask], whose error is only
    logged.  [choices] numbers the ready case each [select] of [AddTask]
    takes, one per call. *)
Fixpoint main_submit (tasks : list loc) (choices : list nat)
    (wp : infrastructure.WorkerPool) : M infrastructure.WorkerPool :=
  match tasks with
  | [] => ret wp
  | task :: rest =>
      t <- load task ;;
      match TStatus t with
      | TaskStatusNew =>
          main_submit rest (tl choices)
            (fst (infrastructure.AddTask (hd O choices) (ID t) wp))
      | _ => main_submit rest choices wp
      end
  end.

(** One round of the task processor of [main], run with no other
    goroutine in between. *)
Definition main_scan (entries : list (string * loc)) (choices : list nat)
    (wp : infrastructure.WorkerPool) : M infrastructure.WorkerPool :=
  tasks <- GetPendingTasks_loop entries ;;
  main_submit tasks choices wp.

(** The jobs for the tasks in status new among [tasks], in order. *)
Definition new_jobs (w : World) (tasks : list loc) : list infrastructure.TaskJob :=
  omap (fun task =>
          match heap w !! task with
          | Some t =>
              match TStatus t with
              | TaskStatusNew => Some (infrastructure.mkTaskJob (ID t))
              | _ => None
              end
          | None => None
          end) tasks.

(** Every key of the repository is the identifier of the task object it
    points to. *)
Definition keyed_by_ID (w : World) : Prop :=
  forall id task t,
    taskRepo w !! id = Some task -> heap w !! task = Some t -> ID t = id.

(** Every pointer of the repository points to a task object. *)
Definition no_dangling (w : World) : Prop :=
  forall id task, taskRepo w !! id = Some task -> is_Some (heap w !! task).

(** A world holding the two-file task alone, registered under its
    identifier. *)
Definition one_task_World : World :=
  mkWorld [two_file_task] {["task-1" := 0%nat]} [].

(** The repository is as before and every task object is still there,
    under the identifier it had. *)
Definition keeps_identity (w w' : World) : Prop :=
  taskRepo w' = taskRepo w
  /\ forall q t, heap w !! q = Some t ->
       exists t', heap w' !! q = Some t' /\ ID t' = ID t.

(** ** Package [http]: the task handler *)

Module TaskHandler.

(** What a handler writes: [http.Error(w, msg, code)], or a status code
    and the JSON encoding of a task. *)
Inductive Reply :=
| reply_Error (msg : string) (code : Z)
| reply_Task (code : Z) (task : loc).

(** The status code of a reply. *)
Definition code_of (r : Reply) : Z :=
  match r with
  | reply_Error _ code => code
  | reply_Task code _ => code
  end.

(** [extractTaskID]. *)
Definition extractTaskID (path : string) : string :=
  let parts := GoStrings.Split (GoStrings.Trim path "/") "/" in
  if (2 <=? length parts)%nat && String.eqb (nth 0 parts EmptyString) "tasks"
  then nth 1 parts EmptyString
  else EmptyString.

(** The handler [CreateTask]; [decoded] is what decoding the body left
    in [req.URLs], or [None] when the decoder returned an error. *)
Definition CreateTask (E : Env) (method : string) (decoded : option (list string))
  : M Reply :=
  if negb (String.eqb method "POST") then ret (reply_Error "Метод не разрешен" 405)
  else
    match decoded with
    | None => ret (reply_Error "Неверный JSON" 400)
    | Some urls =>
        if (length urls =? 0)%nat then ret (reply_Error "URL обязательны" 400)
        else
          r <- CreateTask E urls ;;
          match r with
          | inl err => ret (reply_Error ("Не удалось создать задачу: " +:+ err) 500)
          | inr task => ret (reply_Task 201 task)
          end
    end.

(** The handler [GetTask]. *)
Definition GetTask (method path : string) : M Reply :=
  if negb (String.eqb method "GET") then ret (reply_Error "Метод не разрешен" 405)
  else
    let id := extractTaskID path in
    if negb (GoStrings.nonempty id) then ret (reply_Error "ID задачи обязателен" 400)
    else
      r <- GetTask id ;;
      match r with
      | inl err =>
          if GoStrings.Contains err "not found"
          then ret (reply_Error "Задача не найдена" 404)
          else ret (reply_Error ("Не удалось получить задачу: " +:+ err) 500)
      | inr task => ret (reply_Task 200 task)
      end.

End TaskHandler.

(** No non-empty tail of [sub] is a prefix of [b]: a match of [sub]
    cannot begin before [b] and end inside it. *)
Fixpoint never_straddles (b sub : string) : bool :=
  match sub with
  | EmptyString => true
  | String _ sub' => negb (GoStrings.HasPrefix b sub) && never_straddles b sub'
  end.

(** ** Start-up: [syncRepositories] of [main] *)

(** The loop of [syncRepositories]: every task read from the file is
    stored in the in-memory repository ([Create] returns no error, so
    the warning branch never runs). *)
Fixpoint syncRepositories_loop (tasks : list loc) : M unit :=
  match tasks with
  | [] => ret tt
  | task :: rest => repository.Create task ;;; syncRepositories_loop rest
  end.

(** [syncRepositories]; [all] is what [fileRepo.GetAll] returned: an
    error, or the tasks of the file repository in the order it lists
    them. *)
Definition syncRepositories (all : string + list loc) : M error :=
  match all with
  | inl err => ret (Some err)
  | inr tasks => syncRepositories_loop tasks ;;; ret None
  end.

(** The task object at [task] carries the identifier [id]. *)
Definition names (w : World) (id : string) (task : loc) : Prop :=
  ID <$> heap w !! task = Some id.

(** ** The pool's lock *)

(** The pool together with what [AddTask] can see of its lock [wp.mu].
    [Start] and [AddTask] hold the lock only for steps that do not wait.
    [Stop] takes the write lock, cancels the context and then waits, the
    lock still held, until every worker has taken its quit signal
    ([worker.stop()] sends on an unbuffered channel, which a worker reads
    only between two jobs) and has returned ([wp.wg.Wait()]); only then
    does it reset [running] and release the lock.  [stopping] tells that
    a [Stop] is in that wait. *)
Record LockedPool := mkLockedPool {
  pool : infrastructure.WorkerPool;
  stopping : bool
}.

Definition unlocked (wp : infrastructure.WorkerPool) : LockedPool :=
  mkLockedPool wp false.

(** [Stop] from [wp.mu.Lock()] to its wait for the workers; [None] while
    the caller waits for the lock. *)
Definition Stop_enter (g : LockedPool) : option LockedPool :=
  if stopping g then None
  else if negb (infrastructure.running (pool g)) then Some g
  else Some (mkLockedPool
               (infrastructure.mkWorkerPool
                  (infrastructure.workerCount (pool g))
                  (infrastructure.taskQueue (pool g))
                  (infrastructure.workers (pool g))
                  true
                  (infrastructure.running (pool g)))
               true).

(** [Stop] from the return of [wp.wg.Wait()] to the release of the lock. *)
Definition Stop_leave (g : LockedPool) : LockedPool :=
  mkLockedPool
    (infrastructure.mkWorkerPool
       (infrastructure.workerCount (pool g))
       (infrastructure.taskQueue (pool g))
       (infrastructure.workers (pool g))
       (infrastructure.cancelled (pool g))
       false)
    false.

(** A call of [Start]; [None] while the caller waits for the lock. *)
Definition Start_call (g : LockedPool) : option LockedPool :=
  if stopping g then None else Some (unlocked (infrastructure.Start (pool g))).

(** A call of [AddTask]: [wp.mu.RLock()], then the body; [None] while
    the caller waits for the lock. *)
Definition AddTask_call (choice : nat) (taskID : string) (g : LockedPool)
  : option (LockedPool * error) :=
  if stopping g then None
  else Some (unlocked (fst (infrastructure.AddTask choice taskID (pool g))),
             snd (infrastructure.AddTask choice taskID (pool g))).

(** The pool with another queue and other worker records: what the
    dispatcher and the workers change. *)
Definition dispatched (queue : list infrastructure.TaskJob)
    (ws : list infrastructure.Worker) (g : LockedPool) : LockedPool :=
  mkLockedPool
    (infrastructure.mkWorkerPool
       (infrastructure.workerCount (pool g)) queue ws
       (infrastructure.cancelled (pool g))
       (infrastructure.running (pool g)))
    (stopping g).

(** The states of the design's lifecycle: a pool is created, started,
    used and stopped, and a stopped pool is not started again. *)
Inductive lifecycle : LockedPool -> Prop :=
| lifecycle_New (n : Z) :
    lifecycle (unlocked (infrastructure.NewWorkerPool n))
| lifecycle_Start (g g' : LockedPool) :
    lifecycle g -> infrastructure.cancelled (pool g) = false ->
    Start_call g = Some g' -> lifecycle g'
| lifecycle_AddTask (g g' : LockedPool) (choice : nat) (taskID : string) (err : error) :
    lifecycle g -> AddTask_call choice taskID g = Some (g', err) -> lifecycle g'
| lifecycle_Stop_enter (g g' : LockedPool) :
    lifecycle g -> Stop_enter g = Some g' -> lifecycle g'
| lifecycle_Stop_leave (g : LockedPool) :
    lifecycle g -> stopping g = true -> lifecycle (Stop_leave g)
| lifecycle_dispatched (g : LockedPool) (queue : list infrastructure.TaskJob)
    (ws : list infrastructure.Worker) :
    lifecycle g -> (length queue <= infrastructure.taskQueue_cap)%nat ->
    lifecycle (dispatched queue ws g).

(** A pool of three workers that has been started, and the same pool
    while a [Stop] waits for its workers. *)
Definition started_pool : LockedPool :=
  unlocked (infrastructure.Start (infrastructure.NewWorkerPool 3)).

Definition stopping_pool : LockedPool :=
  mkLockedPool
    (infrastructure.mkWorkerPool 3 []
       (infrastructure.workers (infrastructure.Start (infrastructure.NewWorkerPool 3)))
       true true)
    true.

(** ** Further example environments and worlds *)

(** An environment in which neither the download directory can be
    created nor the durable repository written, both failing with [e]. *)
Definition sealed_Env (e : string) : Env :=
  {| time_Now := fun n => Z.of_nat n;
     uuid_New := fun _ => "task-1";
     filepath_Join := String.concat "/";
     os_MkdirAll := fun _ _ => Some e;
     http_NewRequest := fun _ => None;
     client_Do := fun _ _ => inr response_200;
     os_Create := fun _ _ => None;
     io_Copy := fun _ _ => inr 42;
     persistent_Create := fun _ _ => Some e;
     persistent_Update := fun _ _ => Some e |}.

(** A world holding the two-file task as an object the repository does
    not know. *)
Definition unregistered_World : World :=
  mkWorld [two_file_task] ∅ [].

(** * Properties *)

(** ** The task state machine *)

Section state_machine.

Import entities.

Lemma all_completed_Forall (files : list File) :
  all_completed files = true <-> Forall (fun f => Status f = "completed") files.
Proof.
  induction files as [|f files IH]; simpl.
  - split; [constructor | reflexivity].
  - destruct (String.eqb_spec (Status f) "completed") as [Heq | Hne].
    + rewrite IH. split.
      * intros H. constructor; assumption.
      * intros H. inversion H; assumption.
    + split; [discriminate |].
      intros H. inversion H; subst. contradiction.
Qed.

Lemma any_failed_Exists (files : list File) :
  any_failed files = true <-> Exists (fun f => Status f = "failed") files.
Proof.
  induction files as [|f files IH]; simpl.
  - split; [discriminate | intros H; inversion H].
  - destruct (String.eqb_spec (Status f) "failed") as [Heq | Hne].
    + split; [intros _; left; assumption | reflexivity].
    + rewrite IH. split.
      * intros H. right. assumption.
      * intros H. inversion H; subst; [contradiction | assumption].
Qed.

Lemma count_completed_bounds (files : list File) (acc : Z) :
  0 <= acc -> acc + Z.of_nat (length files) <= max_int ->
  count_completed files acc
  = acc + Z.of_nat (length (filter (fun f => Status f = "completed") files)).
Proof.
  revert acc. induction files as [|f files IH]; intros acc Hacc Hmax.
  - simpl. lia.
  - cbn [count_completed]. rewrite filter_cons.
    cbn [length] in Hmax.
    destruct (String.eqb_spec (Status f) "completed") as [Heq | Hne].
    + rewrite decide_True by assumption.
      assert (Hw : wrap_int (acc + 1) = acc + 1).
      { unfold wrap_int, max_int in *.
        rewrite Z.mod_small by lia. lia. }
      rewrite Hw, IH by lia. cbn [length]. lia.
    + rewrite decide_False by assumption.
      rewrite IH by lia. reflexivity.
Qed.

Lemma filter_length_le_files (files : list File) :
  (length (filter (fun f => Status f = "completed") files) <= length files)%nat.
Proof. apply length_filter. Qed.

End state_machine.

(** C5. [IsCompleted] is true exactly when the file list is non-empty and
    every file's status is ["completed"]; in particular it is false for a
    task without files. *)
Theorem IsCompleted_iff_nonempty_all_completed (t : entities.Task) :
  (entities.IsCompleted t = true
   <-> entities.Files t <> []
       /\ Forall (fun f => entities.Status f = "completed") (entities.Files t))
  /\ (entities.Files t = [] -> entities.IsCompleted t = false).
Proof.
  unfold entities.IsCompleted. split.
  - destruct (entities.Files t) as [|f files] eqn:Hfiles.
    + simpl. split; [discriminate | intros [H _]; contradiction].
    + cbn [length Nat.eqb]. rewrite all_completed_Forall.
      split; [intros H; split; [discriminate | assumption] | intros [_ H]; assumption].
  - intros ->. reflexivity.
Qed.

(** C4. [GetProgress] is the floor of [completedFileCount * 100 /
    totalFileCount], and 0 for a task without files.  The file count is
    that of a slice whose hundredfold fits Go's [int]. *)
Theorem GetProgress_floor_percentage (t : entities.Task)
  (Hfits : Z.of_nat (length (entities.Files t)) * 100 <= max_int) :
  entities.GetProgress t
  = match entities.Files t with
    | [] => 0
    | _ :: _ =>
        (Z.of_nat (completedFileCount t) * 100) `div` Z.of_nat (length (entities.Files t))
    end.
Proof.
  unfold entities.GetProgress, completedFileCount.
  destruct (entities.Files t) as [|f files] eqn:Hfiles; [reflexivity |].
  cbn [length Nat.eqb].
  pose proof (filter_length_le_files (f :: files)) as Hle.
  rewrite count_completed_bounds; [| lia | unfold max_int in *; cbn [length] in *; lia].
  rewrite Z.add_0_l.
  set (c := Z.of_nat (length (filter _ (f :: files)))) in *.
  assert (Hc : 0 <= c <= Z.of_nat (length (f :: files))) by (unfold c; lia).
  assert (Hw : wrap_int (c * 100) = c * 100).
  { unfold wrap_int, max_int in *. rewrite Z.mod_small by lia. lia. }
  rewrite Hw. cbn [length] in *.
  apply Z.quot_div_nonneg; lia.
Qed.

(** A task with two files, one of them completed: progress 50. *)
Lemma GetProgress_floor_percentage_witness :
  let t := entities.mkTask "t1" ["https://x/a.jpg"; "https://x/b.pdf"]
             entities.TaskStatusProcessing 0 0
             [entities.mkFile "https://x/a.jpg" "a.jpg" 10 "completed" EmptyString;
              entities.mkFile "https://x/b.pdf" EmptyString 0 "pending" EmptyString]
             EmptyString in
  Z.of_nat (length (entities.Files t)) * 100 <= max_int
  /\ entities.GetProgress t = 50.
Proof.
  intros t. split.
  - vm_compute. discriminate.
  - rewrite (GetProgress_floor_percentage t); [reflexivity | vm_compute; discriminate].
Defined.

(** ** Destination file names *)

Section file_names.

Lemma Cut_markers (s sep : string) :
  GoStrings.Cut s sep
  = match after_marker sep s with
    | Some rest => Some (before_marker sep s, rest)
    | None => None
    end.
Proof.
  induction s as [|c s IH]; cbn [GoStrings.Cut after_marker before_marker].
  - destruct (GoStrings.HasPrefix EmptyString sep); reflexivity.
  - destruct (GoStrings.HasPrefix (String c s) sep); [reflexivity |].
    rewrite IH. destruct (after_marker sep s); reflexivity.
Qed.

Lemma before_marker_absent (s sep : string) :
  after_marker sep s = None -> before_marker sep s = s.
Proof.
  induction s as [|c s IH]; cbn [after_marker before_marker].
  - destruct (GoStrings.HasPrefix EmptyString sep); [discriminate | reflexivity].
  - destruct (GoStrings.HasPrefix (String c s) sep); [discriminate |].
    intros H. rewrite IH by assumption. reflexivity.
Qed.

Lemma HasPrefix_length (s sep : string) :
  GoStrings.HasPrefix s sep = true -> (String.length sep <= String.length s)%nat.
Proof.
  revert s. induction sep as [|c sep IH]; intros s H.
  - simpl. lia.
  - destruct s as [|d s]; [discriminate |].
    simpl in H. destruct (Ascii.eqb c d); [| discriminate].
    apply IH in H. simpl. lia.
Qed.

Lemma drop_bytes_length (n : nat) (s : string) :
  String.length (GoStrings.drop_bytes n s) = (String.length s - n)%nat.
Proof.
  revert s. induction n as [|n IH]; intros s.
  - simpl. lia.
  - destruct s as [|c s]; [reflexivity |]. simpl. apply IH.
Qed.

(** What a cut leaves after the separator is shorter than the string by at
    least the separator. *)
Lemma after_marker_length (s sep rest : string) :
  after_marker sep s = Some rest ->
  (String.length rest + String.length sep <= String.length s)%nat.
Proof.
  induction s as [|c s IH]; cbn [after_marker].
  - destruct (GoStrings.HasPrefix EmptyString sep) eqn:Hp; [| discriminate].
    intros [= <-]. apply HasPrefix_length in Hp.
    rewrite drop_bytes_length. lia.
  - destruct (GoStrings.HasPrefix (String c s) sep) eqn:Hp.
    + intros [= <-]. apply HasPrefix_length in Hp.
      rewrite drop_bytes_length. lia.
    + intros H. apply IH in H. simpl. lia.
Qed.

(** The second part of a split by a non-empty separator, when there is one. *)
Lemma Split_second (s sep : string) :
  (0 < String.length sep)%nat ->
  match after_marker sep s with
  | Some rest =>
      (1 <? length (GoStrings.Split s sep))%nat = true
      /\ nth 1 (GoStrings.Split s sep) EmptyString = before_marker sep rest
  | None => (1 <? length (GoStrings.Split s sep))%nat = false
  end.
Proof.
  intros Hsep. unfold GoStrings.Split.
  destruct (after_marker sep s) as [rest|] eqn:Hafter.
  - pose proof (after_marker_length _ _ _ Hafter) as Hlen.
    destruct (String.length s) as [|k] eqn:Hk; [lia |].
    cbn [GoStrings.Split_rounds]. rewrite Cut_markers, Hafter.
    assert (Hhead : exists tl, GoStrings.Split_rounds k rest sep
                               = before_marker sep rest :: tl).
    { destruct k as [|k].
      - destruct rest; [| simpl in Hlen; lia].
        exists []. cbn [GoStrings.Split_rounds before_marker].
        destruct (GoStrings.HasPrefix EmptyString sep); reflexivity.
      - cbn [GoStrings.Split_rounds]. rewrite Cut_markers.
        destruct (after_marker sep rest) eqn:Hr.
        + eexists. reflexivity.
        + exists []. rewrite before_marker_absent by assumption. reflexivity. }
    destruct Hhead as [tl ->]. split; reflexivity.
  - destruct (String.length s) as [|k]; [reflexivity |].
    cbn [GoStrings.Split_rounds]. rewrite Cut_markers, Hafter. reflexivity.
Qed.

Lemma string_app_nil_r (s : string) : s +:+ EmptyString = s.
Proof.
  induction s as [|c s IH]; [reflexivity |].
  change (String c (s +:+ EmptyString) = String c s). f_equal. exact IH.
Qed.

Lemma string_app_assoc (s1 s2 s3 : string) :
  (s1 +:+ s2) +:+ s3 = s1 +:+ (s2 +:+ s3).
Proof.
  induction s1 as [|c s1 IH]; [reflexivity |].
  change (String c ((s1 +:+ s2) +:+ s3) = String c (s1 +:+ (s2 +:+ s3))).
  f_equal. exact IH.
Qed.

Lemma last_segment_from_Cut (s cur : string) :
  last_segment_from cur s
  = match after_marker "/" s with
    | Some rest => last_segment_from EmptyString rest
    | None => cur +:+ s
    end.
Proof.
  revert cur. induction s as [|c s IH]; intros cur.
  - cbn. symmetry. apply string_app_nil_r.
  - cbn [last_segment_from after_marker GoStrings.HasPrefix].
    destruct (Ascii.eqb_spec c "/") as [-> | Hne].
    + cbn [Ascii.eqb Bool.eqb]. destruct s; reflexivity.
    + assert (Hsym : Ascii.eqb "/" c = false) by (apply Ascii.eqb_neq; congruence).
      rewrite Hsym, IH. destruct (after_marker "/" s); [reflexivity |].
      rewrite string_app_assoc. reflexivity.
Qed.

(** The last part of a split at slashes is the last path segment. *)
Lemma Split_rounds_last (n : nat) (s : string) :
  (String.length s <= n)%nat ->
  List.last (GoStrings.Split_rounds n s "/") EmptyString = url_last_segment s.
Proof.
  revert s. induction n as [|n IH]; intros s Hn.
  - destruct s; [reflexivity | simpl in Hn; lia].
  - cbn [GoStrings.Split_rounds]. rewrite Cut_markers.
    unfold url_last_segment. rewrite last_segment_from_Cut.
    destruct (after_marker "/" s) as [rest|] eqn:Hafter.
    + pose proof (after_marker_length _ _ _ Hafter) as Hlen. simpl in Hlen.
      specialize (IH rest ltac:(lia)).
      destruct (GoStrings.Split_rounds n rest "/") eqn:Hsplit.
      * destruct n; simpl in Hsplit; [discriminate |].
        destruct (GoStrings.Cut rest "/") as [[? ?]|]; discriminate.
      * exact IH.
    + reflexivity.
Qed.

Lemma nth_pred_length_last {A} (l : list A) (d : A) :
  nth (length l - 1) l d = List.last l d.
Proof.
  induction l as [|a l IH]; [reflexivity |].
  destruct l as [|b l]; [reflexivity |].
  change (List.last (a :: b :: l) d) with (List.last (b :: l) d).
  rewrite <- IH. cbn [length].
  replace (S (S (length l)) - 1)%nat with (S (S (length l) - 1)) by lia.
  reflexivity.
Qed.

Lemma Split_rounds_nonempty (n : nat) (s sep : string) :
  (0 <? length (GoStrings.Split_rounds n s sep))%nat = true.
Proof.
  destruct n; [reflexivity |]. cbn [GoStrings.Split_rounds].
  destruct (GoStrings.Cut s sep) as [[? ?]|]; reflexivity.
Qed.

Lemma Contains_question_mark (s : string) :
  GoStrings.Contains s "?" = has_byte "?" s.
Proof.
  unfold GoStrings.Contains. rewrite Cut_markers.
  transitivity (match after_marker "?" s with Some _ => true | None => false end).
  { destruct (after_marker "?" s); reflexivity. }
  induction s as [|c s IH]; [reflexivity |].
  cbn [after_marker GoStrings.HasPrefix has_byte].
  destruct (Ascii.eqb_spec c "?") as [-> | Hne].
  - cbn [Ascii.eqb Bool.eqb]. destruct s; reflexivity.
  - assert (Hsym : Ascii.eqb "?" c = false) by (apply Ascii.eqb_neq; congruence).
    rewrite Hsym. exact IH.
Qed.

(** The string functions on the examples of Go's documentation. *)
Example Split_examples :
  GoStrings.Split "a,b,c" "," = ["a"; "b"; "c"]
  /\ GoStrings.Split "a man a plan a canal panama" "a "
     = [EmptyString; "man "; "plan "; "canal panama"]
  /\ GoStrings.Split EmptyString "Bernardo O'Higgins" = [EmptyString]
  /\ GoStrings.Split "a/b//c/" "/" = ["a"; "b"; EmptyString; "c"; EmptyString].
Proof. repeat split. Qed.

Example Trim_Contains_examples :
  GoStrings.Trim "xxHello, Gophersxx" "x" = "Hello, Gophers"
  /\ GoStrings.Trim "xxx" "x" = EmptyString
  /\ GoStrings.Contains "seafood" "foo" = true
  /\ GoStrings.Contains "seafood" "bar" = false
  /\ GoStrings.fmt_d (-42) = "-42".
Proof. repeat split. Qed.

(** [getFileName] on the three kinds of input. *)
Example getFileName_examples :
  getFileName 1700000000 "https://x/a.jpg"
    ("attachment; filename=" +:+ GoStrings.double_quote +:+ "report.pdf"
       +:+ GoStrings.double_quote) = "report.pdf"
  /\ getFileName 1700000000 "https://x/a.jpg" "inline" = "a.jpg"
  /\ getFileName 1700000000 "https://x/a.jpg" EmptyString = "a.jpg"
  /\ getFileName 1700000000 "https://x/a.jpg?size=2" EmptyString = "file_1700000000"
  /\ getFileName 1700000000 "https://x/dir/" EmptyString = "file_1700000000".
Proof. repeat split. Qed.

End file_names.

(** [getFileName] in terms of the two scans: the text it reads from the
    header if that is not empty, else the name taken from the URL. *)
Lemma getFileName_by_marker (unix : Z) (url contentDisposition : string) :
  getFileName unix url contentDisposition
  = match marker_text contentDisposition with
    | Some name => name
    | None => url_filename unix url
    end.
Proof.
  unfold getFileName, marker_text, url_filename.
  assert (Hurl :
    (let parts := GoStrings.Split url "/" in
     let fallback := "file_" +:+ GoStrings.fmt_d unix in
     if (0 <? length parts)%nat
     then
       let filename := nth (length parts - 1) parts EmptyString in
       if GoStrings.nonempty filename && negb (GoStrings.Contains filename "?")
       then filename else fallback
     else fallback)
    = (let segment := url_last_segment url in
       if GoStrings.nonempty segment && query_free segment then segment
       else "file_" +:+ GoStrings.fmt_d unix)).
  { cbv zeta. unfold GoStrings.Split at 1.
    rewrite Split_rounds_nonempty.
    rewrite nth_pred_length_last. unfold GoStrings.Split.
    rewrite Split_rounds_last by lia.
    rewrite Contains_question_mark. reflexivity. }
  cbv zeta in Hurl |- *. rewrite Hurl. clear Hurl.
  pose proof (Split_second contentDisposition "filename=" ltac:(simpl; lia)) as Hsplit.
  destruct (after_marker "filename=" contentDisposition) as [rest|] eqn:Hafter.
  - destruct Hsplit as [Hlen Hnth]. rewrite Hlen, Hnth.
    destruct contentDisposition as [|c cd]; [discriminate |].
    cbn [GoStrings.nonempty].
    destruct (GoStrings.nonempty _); reflexivity.
  - rewrite Hsplit. destruct (GoStrings.nonempty contentDisposition); reflexivity.
Qed.

(** ** Running the processor step by step *)

Lemma bind_Ret {A B} (m : M A) (k : A -> M B) (w w' : World) (a : A) :
  m w = (Ret a, w') -> bind m k w = k a w'.
Proof. intros H. unfold bind. rewrite H. reflexivity. Qed.

Lemma bind_Panic {A B} (m : M A) (k : A -> M B) (w w' : World) (msg : string) :
  m w = (Panic msg, w') -> bind m k w = (Panic msg, w').
Proof. intros H. unfold bind. rewrite H. reflexivity. Qed.

Lemma at_task_initial (w : World) (p : loc) (t : Task) :
  heap w !! p = Some t -> w = at_task p (heap w) t (taskRepo w) (trace w).
Proof.
  intros H. unfold at_task. rewrite list_insert_id by assumption.
  destruct w; reflexivity.
Qed.

Section runs.

Variable E : Env.
Variables (p : loc) (h0 : list Task).
Hypothesis Hp : (p < length h0)%nat.

Implicit Types (t : Task) (r : gmap string loc) (tr : list Event).

Lemma heap_at_task t r tr : heap (at_task p h0 t r tr) !! p = Some t.
Proof. unfold at_task. cbn [heap]. apply list_lookup_insert_eq. exact Hp. Qed.

Lemma load_at t r tr :
  load p (at_task p h0 t r tr) = (Ret t, at_task p h0 t r tr).
Proof. unfold load. rewrite heap_at_task. reflexivity. Qed.

Lemma modify_at f t r tr :
  modify p f (at_task p h0 t r tr) = (Ret tt, at_task p h0 (f t) r tr).
Proof.
  unfold modify. rewrite heap_at_task. unfold at_task. cbn [heap taskRepo trace].
  rewrite list_insert_insert_eq. reflexivity.
Qed.

Lemma emit_at ev t r tr :
  emit ev (at_task p h0 t r tr) = (Ret tt, at_task p h0 t r (tr ++ [ev])).
Proof. reflexivity. Qed.

Lemma ask_at {A} (answer : nat -> A) t r tr :
  ask answer (at_task p h0 t r tr) = (Ret (answer (length tr)), at_task p h0 t r tr).
Proof. reflexivity. Qed.

Lemma now_at t r tr :
  now E (at_task p h0 t r tr) = (Ret (time_Now E (length tr)), at_task p h0 t r tr).
Proof. reflexivity. Qed.

Lemma repo_lookup_at id t r tr :
  repo_lookup id (at_task p h0 t r tr) = (Ret (r !! id), at_task p h0 t r tr).
Proof. reflexivity. Qed.

Lemma repo_insert_at id q t r tr :
  repo_insert id q (at_task p h0 t r tr) = (Ret tt, at_task p h0 t (<[id := q]> r) tr).
Proof. reflexivity. Qed.

Lemma call_UpdateStatus_at status t r tr :
  call_UpdateStatus E p status (at_task p h0 t r tr)
  = (Ret tt, at_task p h0 (UpdateStatus (time_Now E (length tr)) status t) r tr).
Proof.
  unfold call_UpdateStatus. rewrite (bind_Ret _ _ _ _ _ (now_at _ _ _)).
  apply modify_at.
Qed.

Lemma call_SetError_at err t r tr :
  call_SetError E p err (at_task p h0 t r tr)
  = (Ret tt, at_task p h0 (SetError (time_Now E (length tr)) err t) r tr).
Proof.
  unfold call_SetError. rewrite (bind_Ret _ _ _ _ _ (now_at _ _ _)).
  apply modify_at.
Qed.

(** [updateTask] on a task the in-memory repository knows: the pointer is
    stored, the durable repository is asked, and its answer is returned. *)
Lemma updateTask_at t r tr :
  is_Some (r !! ID t) ->
  updateTask E p (at_task p h0 t r tr)
  = (Ret (persistent_Update E (length tr) t),
     at_task p h0 t (<[ID t := p]> r)
       (tr ++ [EvPersistUpdate t (persistent_Update E (length tr) t)])).
Proof.
  intros [q Hq]. unfold updateTask, repository.Update.
  assert (Hupd : repository.Update p (at_task p h0 t r tr)
                 = (Ret None, at_task p h0 t (<[ID t := p]> r) tr)).
  { unfold repository.Update.
    rewrite (bind_Ret _ _ _ _ _ (load_at _ _ _)).
    rewrite (bind_Ret _ _ _ _ _ (repo_lookup_at _ _ _ _)).
    rewrite Hq.
    rewrite (bind_Ret _ _ _ _ _ (repo_insert_at _ _ _ _ _)). reflexivity. }
  fold (repository.Update p). rewrite (bind_Ret _ _ _ _ _ Hupd).
  unfold persistentRepo_Update.
  rewrite (bind_Ret _ _ _ _ _ (load_at _ _ _)).
  rewrite (bind_Ret _ _ _ _ _ (ask_at _ _ _ _)).
  rewrite (bind_Ret _ _ _ _ _ (emit_at _ _ _ _)). reflexivity.
Qed.

(** [updateTask] on a task the in-memory repository does not know. *)
Lemma updateTask_unknown_at t r tr :
  r !! ID t = None ->
  updateTask E p (at_task p h0 t r tr)
  = (Ret (Some (repository.not_found (ID t))), at_task p h0 t r tr).
Proof.
  intros Hq. unfold updateTask, repository.Update.
  rewrite (bind_Ret _ _ _ (at_task p h0 t r tr) (Some (repository.not_found (ID t)))).
  - reflexivity.
  - rewrite (bind_Ret _ _ _ _ _ (load_at _ _ _)).
    rewrite (bind_Ret _ _ _ _ _ (repo_lookup_at _ _ _ _)).
    rewrite Hq. reflexivity.
Qed.

Lemma fail_file_at i msg t r tr :
  fail_file p i msg (at_task p h0 t r tr)
  = (Ret tt,
     at_task p h0 (set_file i (with_Error msg) (set_file i (with_Status "failed") t)) r tr).
Proof.
  unfold fail_file. rewrite (bind_Ret _ _ _ _ _ (modify_at _ _ _ _)).
  apply modify_at.
Qed.

Lemma GetByID_at id q t r tr :
  r !! id = Some q ->
  repository.GetByID id (at_task p h0 t r tr) = (Ret (inr q), at_task p h0 t r tr).
Proof.
  intros Hq. unfold repository.GetByID.
  rewrite (bind_Ret _ _ _ _ _ (repo_lookup_at _ _ _ _)), Hq. reflexivity.
Qed.

Lemma GetByID_unknown_at id t r tr :
  r !! id = None ->
  repository.GetByID id (at_task p h0 t r tr)
  = (Ret (inl (repository.not_found id)), at_task p h0 t r tr).
Proof.
  intros Hq. unfold repository.GetByID.
  rewrite (bind_Ret _ _ _ _ _ (repo_lookup_at _ _ _ _)), Hq. reflexivity.
Qed.

Lemma file_at_Some t i f :
  0 <= i -> Files t !! Z.to_nat i = Some f -> file_at t i = ret f.
Proof.
  intros Hi Hf. unfold file_at.
  destruct (Z.ltb_spec i 0) as [Hneg | _]; [lia |]. rewrite Hf. reflexivity.
Qed.

Lemma set_file_set_file i (f g : File -> File) t :
  set_file i g (set_file i f t) = set_file i (g ∘ f) t.
Proof. unfold set_file. cbn. f_equal. apply list_alter_alter_eq. Qed.

Lemma index_in_range t i f :
  0 <= i -> Files t !! Z.to_nat i = Some f ->
  (Z.of_nat (length (Files t)) <=? i) = false.
Proof.
  intros Hi Hf. apply lookup_lt_Some in Hf. apply Z.leb_gt. lia.
Qed.

Ltac run_step :=
  cbv beta;
  first [ rewrite (bind_Ret _ _ _ _ _ (load_at _ _ _))
        | rewrite (bind_Ret _ _ _ _ _ (modify_at _ _ _ _))
        | rewrite (bind_Ret _ _ _ _ _ (emit_at _ _ _ _))
        | rewrite (bind_Ret _ _ _ _ _ (now_at _ _ _))
        | rewrite (bind_Ret _ _ _ _ _ (ask_at _ _ _ _))
        | rewrite (bind_Ret _ _ _ _ _ (fail_file_at _ _ _ _ _))
        | rewrite (bind_Ret _ _ _ _ _ (call_UpdateStatus_at _ _ _ _))
        | rewrite (bind_Ret _ _ _ _ _ (call_SetError_at _ _ _ _)) ];
  cbv beta.

Ltac close_download :=
  unfold ret; rewrite ?set_file_set_file;
  eexists _, _; split; [reflexivity | split; intros; reflexivity].

(** One call of [DownloadFile]'s body for a file in range of a known task:
    it returns, only that file's record changes, its URL stays, and its
    status tells whether the call returned [nil]. *)
Lemma DownloadFile_body_at url taskID i t r tr f :
  r !! taskID = Some p -> 0 <= i -> Files t !! Z.to_nat i = Some f ->
  exists res G,
    DownloadFile_body E url taskID i (at_task p h0 t r tr)
    = (Ret res, at_task p h0 (set_file (Z.to_nat i) G t) r tr)
    /\ (forall f0, URL (G f0) = URL f0)
    /\ (forall f0, Status (G f0) = if succeeded res then "completed" else "failed").
Proof.
  intros Hrepo Hi Hf. unfold DownloadFile_body.
  rewrite (bind_Ret _ _ _ _ _ (GetByID_at _ _ _ _ _ Hrepo)).
  run_step. rewrite (index_in_range _ _ _ Hi Hf).
  rewrite (file_at_Some _ _ _ Hi Hf).
  rewrite (bind_Ret _ _ _ _ _ (eq_refl : ret f _ = (Ret f, _))).
  run_step.
  destruct (http_NewRequest E url) as [err|].
  { run_step. close_download. }
  run_step.
  destruct (client_Do E (length tr) url) as [err|resp].
  { run_step. close_download. }
  destruct (negb (StatusCode resp =? 200)).
  { run_step. close_download. }
  do 3 run_step.
  match goal with
  | |- context [os_Create E (length tr) ?path] =>
      destruct (os_Create E (length tr) path) as [err|]
  end.
  { run_step. close_download. }
  run_step.
  destruct (io_Copy E (length tr) resp) as [err|written].
  { run_step. close_download. }
  do 2 run_step. close_download.
Qed.

(** [DownloadFile] for a file in range: as its body, with the call on
    the trace. *)
Lemma DownloadFile_at url taskID i t r tr f :
  r !! taskID = Some p -> 0 <= i -> Files t !! Z.to_nat i = Some f ->
  exists res G,
    DownloadFile E url taskID i (at_task p h0 t r tr)
    = (Ret res, at_task p h0 (set_file (Z.to_nat i) G t) r
                  (tr ++ [EvDownloadFile url taskID i res]))
    /\ (forall f0, URL (G f0) = URL f0)
    /\ (forall f0, Status (G f0) = if succeeded res then "completed" else "failed").
Proof.
  intros Hrepo Hi Hf.
  destruct (DownloadFile_body_at url taskID i t r tr f Hrepo Hi Hf)
    as (res & G & Hrun & HG).
  exists res, G. split; [| exact HG].
  unfold DownloadFile. rewrite (bind_Ret _ _ _ _ _ Hrun).
  run_step. reflexivity.
Qed.

(** The loop of [ProcessTask] from file [i] on, when the durable
    repository accepts every update: every remaining file is downloaded
    once, in index order, and its record tells what its download
    returned. *)
Lemma ProcessTask_range_at k :
  (forall n t', persistent_Update E n t' = None) ->
  forall i t r tr,
    r !! ID t = Some p -> (i + k)%nat = length (Files t) ->
    exists t' evs,
      ProcessTask_range E p (seq i k) (at_task p h0 t r tr)
      = (Ret None, at_task p h0 t' r (tr ++ evs))
      /\ ID t' = ID t /\ URLs t' = URLs t /\ TStatus t' = TStatus t
      /\ TError t' = TError t
      /\ length (Files t') = length (Files t)
      /\ take i (Files t') = take i (Files t)
      /\ download_calls evs
         = imap (fun j f => (URL f, ID t, Z.of_nat (i + j))) (drop i (Files t))
      /\ Forall2 file_outcome (download_results evs) (drop i (Files t')).
Proof.
  intros Hpersist. induction k as [|k IH]; intros i t r tr Hrepo Hlen.
  - exists t, []. cbn [seq ProcessTask_range]. rewrite app_nil_r.
    rewrite !drop_ge by lia. repeat split; constructor.
  - cbn [seq ProcessTask_range].
    destruct (lookup_lt_is_Some_2 (Files t) i ltac:(lia)) as [f Hf].
    run_step.
    assert (Hfz : Files t !! Z.to_nat (Z.of_nat i) = Some f) by (rewrite Nat2Z.id; exact Hf).
    rewrite (file_at_Some _ _ _ (Nat2Z.is_nonneg i) Hfz).
    rewrite (bind_Ret _ _ _ _ _ (eq_refl : ret f _ = (Ret f, _))).
    destruct (DownloadFile_at (URL f) (ID t) (Z.of_nat i) t r tr f Hrepo
                (Nat2Z.is_nonneg i) Hfz) as (res & G & Hrun & HGurl & HGstatus).
    rewrite Nat2Z.id in Hrun.
    rewrite (bind_Ret _ _ _ _ _ Hrun).
    (* the record of file [i] after the failure branch *)
    set (G' := match res with
               | Some e => with_Error e ∘ with_Status "failed" ∘ G
               | None => G
               end).
    set (t1 := set_file i G' t).
    set (tr1 := (tr ++ [EvDownloadFile (URL f) (ID t) (Z.of_nat i) res])%list).
    assert (Hmark :
      (match res with
       | Some e => fail_file p i e
       | None => ret tt
       end) (at_task p h0 (set_file i G t) r tr1) = (Ret tt, at_task p h0 t1 r tr1)).
    { unfold t1, G'. destruct res as [e|].
      - rewrite fail_file_at, !set_file_set_file. reflexivity.
      - reflexivity. }
    rewrite (bind_Ret _ _ _ _ _ Hmark).
    assert (Hknown : is_Some (r !! ID t1)) by (exists p; exact Hrepo).
    rewrite (bind_Ret _ _ _ _ _ (updateTask_at _ _ _ Hknown)).
    rewrite Hpersist.
    change (ID t1) with (ID t). rewrite (insert_id r (ID t) p Hrepo).
    assert (Hlen1 : (S i + k)%nat = length (Files t1)).
    { unfold t1, set_file. cbn [Files]. rewrite length_alter. lia. }
    destruct (IH (S i) t1 r (tr1 ++ [EvPersistUpdate t1 None])%list Hrepo Hlen1)
      as (t' & evs & Hloop & Hid & Hurls & Hst & Herr & Hlen' & Htake & Hcalls & Hout).
    exists t', ([EvDownloadFile (URL f) (ID t) (Z.of_nat i) res;
                 EvPersistUpdate t1 None] ++ evs)%list.
    assert (Hfiles1 : Files t1 = alter G' i (Files t)) by reflexivity.
    assert (Hi' : Files t' !! i = Some (G' f)).
    { rewrite <- (lookup_take_lt (Files t') (S i) i) by lia.
      rewrite Htake, lookup_take_lt by lia.
      rewrite Hfiles1, list_lookup_alter_eq, Hf. reflexivity. }
    split.
    { rewrite Hloop. unfold tr1. rewrite <- !app_assoc. reflexivity. }
    split; [exact Hid |]. split; [exact Hurls |]. split; [exact Hst |].
    split; [exact Herr |].
    split; [rewrite Hlen', Hfiles1, length_alter; reflexivity |].
    split.
    { assert (Hmin : (i `min` S i)%nat = i) by lia.
      rewrite <- Hmin at 1. rewrite <- take_take, Htake, take_take, Hmin.
      rewrite Hfiles1. apply take_alter_ge. lia. }
    split.
    { cbn [app download_calls]. rewrite Hcalls.
      rewrite (drop_S _ _ _ Hf). rewrite imap_cons.
      rewrite Hfiles1, drop_alter_lt by lia.
      rewrite Nat.add_0_r. f_equal.
      apply imap_ext. intros j x _. cbn. do 2 f_equal. lia. }
    { cbn [app download_results]. rewrite (drop_S _ _ _ Hi').
      constructor; [| exact Hout].
      unfold G'. destruct res as [e|]; cbn.
      - split; reflexivity.
      - rewrite HGstatus. reflexivity. }
Qed.

Lemma MkdirAll_at path t r tr :
  MkdirAll E path (at_task p h0 t r tr)
  = (Ret (os_MkdirAll E (length tr) path),
     at_task p h0 t r (tr ++ [EvMkdirAll path (os_MkdirAll E (length tr) path)])).
Proof. unfold MkdirAll. do 2 run_step. reflexivity. Qed.

Lemma download_calls_app (evs1 evs2 : list Event) :
  download_calls (evs1 ++ evs2) = (download_calls evs1 ++ download_calls evs2)%list.
Proof.
  induction evs1 as [|ev evs1 IH]; [reflexivity |].
  destruct ev; cbn [app download_calls]; rewrite IH; reflexivity.
Qed.

Lemma download_results_app (evs1 evs2 : list Event) :
  download_results (evs1 ++ evs2)
  = (download_results evs1 ++ download_results evs2)%list.
Proof.
  induction evs1 as [|ev evs1 IH]; [reflexivity |].
  destruct ev; cbn [app download_results]; rewrite IH; reflexivity.
Qed.

(** The checks of [IsCompleted] and [IsFailed] on file records that
    reflect what their downloads returned. *)
Lemma outcomes_checks (results : list error) (files : list File) :
  Forall2 file_outcome results files ->
  all_completed files = forallb succeeded results
  /\ any_failed files = negb (forallb succeeded results).
Proof.
  induction 1 as [|res f results files Hout _ [IHc IHf]]; [split; reflexivity |].
  cbn [all_completed any_failed forallb].
  destruct res as [e|]; cbn in Hout.
  - destruct Hout as [-> _]. split; reflexivity.
  - rewrite Hout. cbn. split; assumption.
Qed.

Lemma final_status_of_outcomes (results : list error) (t : Task) :
  Forall2 file_outcome results (Files t) ->
  (if IsCompleted t then TaskStatusCompleted
   else if IsFailed t then TaskStatusFailed else TaskStatusProcessing)
  = final_status results.
Proof.
  intros Hout. destruct (outcomes_checks _ _ Hout) as [Hc Hf].
  unfold IsCompleted, IsFailed, final_status. rewrite Hc, Hf.
  destruct Hout as [|res f results files]; [reflexivity |].
  cbn [length Nat.eqb]. destruct (forallb succeeded (res :: results)); reflexivity.
Qed.

(** [ProcessTask] for a task the in-memory repository knows, when the
    durable repository accepts every update and the download directory
    can be created. *)
Lemma ProcessTask_at t r tr :
  (forall n t', persistent_Update E n t' = None) ->
  (forall n path, os_MkdirAll E n path = None) ->
  is_Some (r !! ID t) ->
  exists t' evs,
    ProcessTask E p (at_task p h0 t r tr)
    = (Ret None, at_task p h0 t' (<[ID t := p]> r) (tr ++ evs))
    /\ ID t' = ID t /\ URLs t' = URLs t /\ TError t' = TError t
    /\ length (Files t') = length (Files t)
    /\ download_calls evs = expected_calls (ID t) (Files t)
    /\ Forall2 file_outcome (download_results evs) (Files t')
    /\ TStatus t' = final_status (download_results evs)
    /\ last evs = Some (EvPersistUpdate t' None)
    /\ head evs
       = Some (EvPersistUpdate
                 (UpdateStatus (time_Now E (length tr)) TaskStatusProcessing t) None).
Proof.
  intros Hpersist Hmkdir Hknown. unfold ProcessTask.
  run_step.
  set (t1 := UpdateStatus (time_Now E (length tr)) TaskStatusProcessing t).
  assert (Hknown1 : is_Some (r !! ID t1)) by exact Hknown.
  rewrite (bind_Ret _ _ _ _ _ (updateTask_at _ _ _ Hknown1)), Hpersist.
  change (ID t1) with (ID t).
  run_step.
  rewrite (bind_Ret _ _ _ _ _ (MkdirAll_at _ _ _ _)), Hmkdir.
  unfold ProcessTask_files. run_step.
  set (r1 := <[ID t := p]> r).
  assert (Hrepo1 : r1 !! ID t1 = Some p) by apply lookup_insert_eq.
  match goal with
  | |- context [bind (ProcessTask_range E p _) _ (at_task _ _ _ _ ?tr1)] =>
      destruct (ProcessTask_range_at (length (Files t1)) Hpersist 0%nat t1 r1 tr1
                  Hrepo1 eq_refl)
        as (t2 & evs & Hloop & Hid & Hurls & Hst & Herr & Hlen & _ & Hcalls & Hout)
  end.
  rewrite (bind_Ret _ _ _ _ _ Hloop). run_step.
  rewrite drop_0 in Hcalls, Hout.
  pose proof (final_status_of_outcomes _ _ Hout) as Hfinal.
  assert (Hknown2 : forall t3, ID t3 = ID t -> is_Some (r1 !! ID t3)).
  { intros t3 ->. exists p. exact Hrepo1. }
  assert (Hr1 : forall t3, ID t3 = ID t -> <[ID t3 := p]> r1 = r1).
  { intros t3 ->. apply insert_id. exact Hrepo1. }
  assert (Hfinish : forall t3 : Task,
    ID t3 = ID t -> URLs t3 = URLs t -> TError t3 = TError t ->
    Files t3 = Files t2 -> TStatus t3 = final_status (download_results evs) ->
    exists t' evs',
      updateTask E p (at_task p h0 t3 r1
         (((tr ++ [EvPersistUpdate t1 None])
           ++ [EvMkdirAll (filepath_Join E [downloadDir; ID t]) None]) ++ evs)%list)
      = (Ret None, at_task p h0 t' r1 (tr ++ evs'))
      /\ ID t' = ID t /\ URLs t' = URLs t /\ TError t' = TError t
      /\ length (Files t') = length (Files t)
      /\ download_calls evs' = expected_calls (ID t) (Files t)
      /\ Forall2 file_outcome (download_results evs') (Files t')
      /\ TStatus t' = final_status (download_results evs')
      /\ last evs' = Some (EvPersistUpdate t' None)
      /\ head evs' = Some (EvPersistUpdate t1 None)).
  { intros t3 Hid3 Hurls3 Herr3 Hfiles3 Hst3.
    exists t3, ([EvPersistUpdate t1 None;
                 EvMkdirAll (filepath_Join E [downloadDir; ID t]) None]
                ++ evs ++ [EvPersistUpdate t3 None])%list.
    rewrite (updateTask_at _ _ _ (Hknown2 t3 Hid3)), Hpersist, (Hr1 t3 Hid3).
    assert (Hres : download_results
              ([EvPersistUpdate t1 None;
                EvMkdirAll (filepath_Join E [downloadDir; ID t]) None]
               ++ evs ++ [EvPersistUpdate t3 None]) = download_results evs).
    { cbn [app download_results]. rewrite download_results_app.
      cbn [download_results]. apply app_nil_r. }
    split; [rewrite <- !app_assoc; reflexivity |].
    split; [exact Hid3 |]. split; [exact Hurls3 |]. split; [exact Herr3 |].
    split; [rewrite Hfiles3, Hlen; reflexivity |].
    split.
    { cbn [app download_calls]. rewrite download_calls_app, Hcalls.
      cbn [download_calls]. rewrite app_nil_r.
      unfold expected_calls. reflexivity. }
    split; [rewrite Hres, Hfiles3; exact Hout |].
    split; [rewrite Hres; exact Hst3 |].
    split; [| reflexivity].
    rewrite app_assoc. apply last_snoc. }
  destruct (IsCompleted t2) eqn:Hcompleted.
  - run_step. apply Hfinish; solve [reflexivity | assumption].
  - destruct (IsFailed t2) eqn:Hfailed.
    + run_step. apply Hfinish; solve [reflexivity | assumption].
    + rewrite (bind_Ret _ _ _ _ _ (eq_refl : ret tt _ = (Ret tt, _))).
      apply Hfinish; try solve [reflexivity | assumption].
      rewrite Hst. exact Hfinal.
Qed.

(** [DownloadFile] with a negative index: the index expression panics. *)
Lemma DownloadFile_negative_at url taskID i t r tr :
  r !! taskID = Some p -> i < 0 ->
  DownloadFile E url taskID i (at_task p h0 t r tr)
  = (Panic "index out of range", at_task p h0 t r tr).
Proof.
  intros Hrepo Hi. unfold DownloadFile.
  apply bind_Panic. unfold DownloadFile_body.
  rewrite (bind_Ret _ _ _ _ _ (GetByID_at _ _ _ _ _ Hrepo)).
  run_step.
  destruct (Z.leb_spec (Z.of_nat (length (Files t))) i) as [Hle | _]; [lia |].
  apply bind_Panic. unfold file_at.
  destruct (Z.ltb_spec i 0) as [_ | Hge]; [reflexivity | lia].
Qed.

(** [DownloadFile] with an index at or beyond the end of the file list:
    the out-of-range error, no task object touched. *)
Lemma DownloadFile_beyond_at url taskID i t r tr :
  r !! taskID = Some p -> Z.of_nat (length (Files t)) <= i ->
  DownloadFile E url taskID i (at_task p h0 t r tr)
  = (Ret (Some ("неверный индекс файла: " +:+ GoStrings.fmt_d i)),
     at_task p h0 t r
       (tr ++ [EvDownloadFile url taskID i
                 (Some ("неверный индекс файла: " +:+ GoStrings.fmt_d i))])).
Proof.
  intros Hrepo Hi. unfold DownloadFile.
  rewrite (bind_Ret _ _ (at_task p h0 t r tr) (at_task p h0 t r tr)
             (Some ("неверный индекс файла: " +:+ GoStrings.fmt_d i))).
  - run_step. reflexivity.
  - unfold DownloadFile_body.
    rewrite (bind_Ret _ _ _ _ _ (GetByID_at _ _ _ _ _ Hrepo)).
    run_step.
    destruct (Z.leb_spec (Z.of_nat (length (Files t))) i) as [_ | Hlt]; [reflexivity | lia].
Qed.

(** The body of [DownloadFile] once the request has been answered by a
    response: what it returns and the file's record, by the status code. *)
Lemma DownloadFile_body_response_at url taskID i t r tr f resp :
  r !! taskID = Some p -> 0 <= i -> Files t !! Z.to_nat i = Some f ->
  http_NewRequest E url = None ->
  client_Do E (length tr) url = inr resp ->
  exists res f',
    DownloadFile_body E url taskID i (at_task p h0 t r tr)
    = (Ret res, at_task p h0 (set_file (Z.to_nat i) (fun _ => f') t) r tr)
    /\ if StatusCode resp =? 200 then
         Path f' = filepath_Join E
                     [downloadDir; taskID;
                      getFileName (time_Now E (length tr)) url (ContentDisposition resp)]
         /\ (res = None /\ Status f' = "completed"
             \/ exists e, res = Some e /\ Status f' = "failed"
                  /\ (Error f' = "не удалось создать файл: " +:+ e
                      \/ Error f' = "не удалось записать файл: " +:+ e))
       else res = Some (http_error resp)
            /\ Status f' = "failed" /\ Error f' = http_error resp.
Proof.
  intros Hrepo Hi Hf Hreq Hdo.
  assert (Hconst : forall G, set_file (Z.to_nat i) G t
                             = set_file (Z.to_nat i) (fun _ => G f) t).
  { intros G. unfold set_file. f_equal.
    apply list_alter_ext; [| reflexivity]. intros f0 Hf0. congruence. }
  unfold DownloadFile_body.
  rewrite (bind_Ret _ _ _ _ _ (GetByID_at _ _ _ _ _ Hrepo)).
  rewrite (bind_Ret (load p) _ _ _ _ (load_at _ _ _)).
  rewrite (index_in_range _ _ _ Hi Hf), (file_at_Some _ _ _ Hi Hf).
  rewrite (bind_Ret (ret f) _ _ _ _ eq_refl).
  rewrite (bind_Ret (modify _ _) _ _ _ _ (modify_at _ _ _ _)).
  rewrite Hreq.
  rewrite (bind_Ret (ask _) _ _ _ _ (ask_at _ _ _ _)). cbv beta. rewrite Hdo.
  destruct (StatusCode resp =? 200) eqn:Hcode; cbn [negb].
  - rewrite (bind_Ret (now E) _ _ _ _ (now_at _ _ _)).
    rewrite (bind_Ret (modify _ _) _ _ _ _ (modify_at _ _ _ _)).
    rewrite (bind_Ret (ask _) _ _ _ _ (ask_at _ _ _ _)). cbv beta.
    match goal with
    | |- context [os_Create E (length tr) ?path] =>
        destruct (os_Create E (length tr) path) as [err|]
    end.
    + rewrite (bind_Ret (fail_file _ _ _) _ _ _ _ (fail_file_at _ _ _ _ _)).
      unfold ret. rewrite !set_file_set_file, Hconst.
      eexists _, _. split; [reflexivity |]. cbn.
      split; [reflexivity |]. right. eexists. repeat split. left. reflexivity.
    + rewrite (bind_Ret (ask _) _ _ _ _ (ask_at _ _ _ _)). cbv beta.
      destruct (io_Copy E (length tr) resp) as [err|written].
      * rewrite (bind_Ret (fail_file _ _ _) _ _ _ _ (fail_file_at _ _ _ _ _)).
        unfold ret. rewrite !set_file_set_file, Hconst.
          eexists _, _. split; [reflexivity |]. cbn.
        split; [reflexivity |]. right. eexists. repeat split. right. reflexivity.
      * rewrite (bind_Ret (modify _ _) _ _ _ _ (modify_at _ _ _ _)).
        rewrite (bind_Ret (modify _ _) _ _ _ _ (modify_at _ _ _ _)).
        unfold ret. rewrite !set_file_set_file, Hconst.
          eexists _, _. split; [reflexivity |]. cbn.
        split; [reflexivity |]. left. split; reflexivity.
  - rewrite (bind_Ret (fail_file _ _ _) _ _ _ _ (fail_file_at _ _ _ _ _)).
    unfold ret. rewrite !set_file_set_file, Hconst.
    eexists _, _. split; [reflexivity |]. cbn. repeat split.
Qed.

(** [DownloadFile] once the request has been answered by a response. *)
Lemma DownloadFile_response_at url taskID i t r tr f resp :
  r !! taskID = Some p -> 0 <= i -> Files t !! Z.to_nat i = Some f ->
  http_NewRequest E url = None ->
  client_Do E (length tr) url = inr resp ->
  exists res f',
    DownloadFile E url taskID i (at_task p h0 t r tr)
    = (Ret res, at_task p h0 (set_file (Z.to_nat i) (fun _ => f') t) r
                  (tr ++ [EvDownloadFile url taskID i res]))
    /\ if StatusCode resp =? 200 then
         Path f' = filepath_Join E
                     [downloadDir; taskID;
                      getFileName (time_Now E (length tr)) url (ContentDisposition resp)]
         /\ (res = None /\ Status f' = "completed"
             \/ exists e, res = Some e /\ Status f' = "failed"
                  /\ (Error f' = "не удалось создать файл: " +:+ e
                      \/ Error f' = "не удалось записать файл: " +:+ e))
       else res = Some (http_error resp)
            /\ Status f' = "failed" /\ Error f' = http_error resp.
Proof.
  intros Hrepo Hi Hf Hreq Hdo.
  destruct (DownloadFile_body_response_at url taskID i t r tr f resp
              Hrepo Hi Hf Hreq Hdo) as (res & f' & Hrun & Hres).
  exists res, f'. split; [| exact Hres].
  unfold DownloadFile. rewrite (bind_Ret _ _ _ _ _ Hrun).
  run_step. reflexivity.
Qed.

(** The ways [ProcessTask] goes before it reaches the files. *)
Lemma ProcessTask_unknown_at t r tr :
  r !! ID t = None ->
  ProcessTask E p (at_task p h0 t r tr)
  = (Ret (Some ("не удалось обновить статус задачи: "
                +:+ repository.not_found (ID t))),
     at_task p h0 (UpdateStatus (time_Now E (length tr)) TaskStatusProcessing t) r tr).
Proof.
  intros Hunknown. unfold ProcessTask. run_step.
  set (t1 := UpdateStatus (time_Now E (length tr)) TaskStatusProcessing t).
  assert (Hunknown1 : r !! ID t1 = None) by exact Hunknown.
  rewrite (bind_Ret _ _ _ _ _ (updateTask_unknown_at _ _ _ Hunknown1)).
  reflexivity.
Qed.

Lemma ProcessTask_update_rejected_at t r tr e0 :
  let t1 := UpdateStatus (time_Now E (length tr)) TaskStatusProcessing t in
  is_Some (r !! ID t) ->
  persistent_Update E (length tr) t1 = Some e0 ->
  ProcessTask E p (at_task p h0 t r tr)
  = (Ret (Some ("не удалось обновить статус задачи: " +:+ e0)),
     at_task p h0 t1 (<[ID t := p]> r) (tr ++ [EvPersistUpdate t1 (Some e0)])).
Proof.
  intros t1 Hknown Hrejected. unfold ProcessTask. run_step. fold t1.
  assert (Hknown1 : is_Some (r !! ID t1)) by exact Hknown.
  rewrite (bind_Ret _ _ _ _ _ (updateTask_at _ _ _ Hknown1)), Hrejected.
  reflexivity.
Qed.

Lemma ProcessTask_mkdir_failed_at t r tr e :
  let t1 := UpdateStatus (time_Now E (length tr)) TaskStatusProcessing t in
  let tr1 := (tr ++ [EvPersistUpdate t1 None])%list in
  let dir := filepath_Join E [downloadDir; ID t] in
  let msg := "не удалось создать директорию для скачивания: " +:+ e in
  let tr2 := (tr1 ++ [EvMkdirAll dir (Some e)])%list in
  let t2 := SetError (time_Now E (length tr2)) msg t1 in
  is_Some (r !! ID t) ->
  persistent_Update E (length tr) t1 = None ->
  os_MkdirAll E (length tr1) dir = Some e ->
  ProcessTask E p (at_task p h0 t r tr)
  = (Ret (Some msg),
     at_task p h0 t2 (<[ID t := p]> r)
       (tr2 ++ [EvPersistUpdate t2 (persistent_Update E (length tr2) t2)])).
Proof.
  intros t1 tr1 dir msg tr2 t2 Hknown Haccepted Hmkdir.
  unfold ProcessTask. run_step. fold t1.
  assert (Hknown1 : is_Some (r !! ID t1)) by exact Hknown.
  rewrite (bind_Ret _ _ _ _ _ (updateTask_at _ _ _ Hknown1)), Haccepted.
  change (ID t1) with (ID t). fold tr1.
  run_step.
  rewrite (bind_Ret _ _ _ _ _ (MkdirAll_at _ _ _ _)).
  change (filepath_Join E [downloadDir; ID t1]) with dir. rewrite Hmkdir.
  fold tr2. run_step. fold msg. fold t2.
  assert (Hknown2 : is_Some (<[ID t := p]> r !! ID t2)).
  { exists p. apply lookup_insert_eq. }
  rewrite (bind_Ret _ _ _ _ _ (updateTask_at _ _ _ Hknown2)).
  change (ID t2) with (ID t). rewrite insert_insert_eq. reflexivity.
Qed.

Lemma ProcessTask_mkdir_ok_at t r tr :
  let t1 := UpdateStatus (time_Now E (length tr)) TaskStatusProcessing t in
  let tr1 := (tr ++ [EvPersistUpdate t1 None])%list in
  let dir := filepath_Join E [downloadDir; ID t] in
  is_Some (r !! ID t) ->
  persistent_Update E (length tr) t1 = None ->
  os_MkdirAll E (length tr1) dir = None ->
  ProcessTask E p (at_task p h0 t r tr)
  = ProcessTask_files E p
      (at_task p h0 t1 (<[ID t := p]> r) (tr1 ++ [EvMkdirAll dir None])).
Proof.
  intros t1 tr1 dir Hknown Haccepted Hmkdir.
  unfold ProcessTask. run_step. fold t1.
  assert (Hknown1 : is_Some (r !! ID t1)) by exact Hknown.
  rewrite (bind_Ret _ _ _ _ _ (updateTask_at _ _ _ Hknown1)), Haccepted.
  change (ID t1) with (ID t). fold tr1.
  run_step.
  rewrite (bind_Ret _ _ _ _ _ (MkdirAll_at _ _ _ _)).
  change (filepath_Join E [downloadDir; ID t1]) with dir. rewrite Hmkdir.
  reflexivity.
Qed.

End runs.

Lemma ProcessTask_nil_pointer (E : Env) (w : World) (task : loc) :
  heap w !! task = None ->
  ProcessTask E task w
  = (Panic "invalid memory address or nil pointer dereference", w).
Proof.
  intros Hnil. unfold ProcessTask. apply bind_Panic.
  unfold call_UpdateStatus.
  rewrite (bind_Ret (now E) _ w w (time_Now E (length (trace w))) eq_refl).
  unfold modify. rewrite Hnil. reflexivity.
Qed.


(** ** The task processor *)

(** [ProcessTask] on any world: a task the in-memory repository knows,
    with the durable repository accepting every update and the download
    directory being created. *)
Lemma ProcessTask_run (E : Env) (w : World) (task : loc) (t : Task) :
  heap w !! task = Some t ->
  is_Some (taskRepo w !! ID t) ->
  (forall n t', persistent_Update E n t' = None) ->
  (forall n path, os_MkdirAll E n path = None) ->
  exists w' t',
    ProcessTask E task w = (Ret None, w')
    /\ heap w' !! task = Some t'
    /\ length (Files t') = length (Files t)
    /\ download_calls (new_events w w') = expected_calls (ID t) (Files t)
    /\ Forall2 file_outcome (download_results (new_events w w')) (Files t')
    /\ TStatus t' = final_status (download_results (new_events w w'))
    /\ taskRepo w' !! ID t = Some task
    /\ last (trace w') = Some (EvPersistUpdate t' None)
    /\ head (new_events w w')
       = Some (EvPersistUpdate
                 (UpdateStatus (time_Now E (length (trace w))) TaskStatusProcessing t)
                 None).
Proof.
  intros Hheap Hknown Hpersist Hmkdir.
  pose proof (lookup_lt_Some _ _ _ Hheap) as Hlt.
  destruct (ProcessTask_at E task (heap w) Hlt t (taskRepo w) (trace w)
              Hpersist Hmkdir Hknown)
    as (t' & evs & Hrun & _ & _ & _ & Hlen & Hcalls & Hout & Hst & Hlast & Hhead).
  rewrite <- (at_task_initial w task t Hheap) in Hrun.
  eexists _, t'. split; [exact Hrun |].
  unfold new_events. cbn [trace at_task]. rewrite drop_app_length.
  split; [apply heap_at_task; exact Hlt |].
  split; [exact Hlen |]. split; [exact Hcalls |]. split; [exact Hout |].
  split; [exact Hst |].
  split; [cbn [taskRepo]; apply lookup_insert_eq |].
  split; [| exact Hhead].
  destruct evs as [|ev evs]; [discriminate |].
  rewrite last_app. rewrite Hlast. reflexivity.
Qed.

(** C3, as the code has it.  For every task that the in-memory
    repository knows, when the durable repository accepts every update
    and the download directory can be created, [ProcessTask] returns
    [nil] after calling [DownloadFile] once for every file, in index
    order with the file's URL, whatever the earlier calls returned; every
    file's record ends completed if its call returned [nil] and failed
    with the error's text otherwise; the task ends completed if it has a
    file and all calls returned [nil], failed if any call returned an
    error, and stays in processing without files; the last update handed
    to the repositories is that final task. *)
Theorem ProcessTask_attempts_every_file (E : Env) (w : World) (task : loc) (t : Task) :
  heap w !! task = Some t ->
  is_Some (taskRepo w !! ID t) ->
  (forall n t', persistent_Update E n t' = None) ->
  (forall n path, os_MkdirAll E n path = None) ->
  exists w' t',
    ProcessTask E task w = (Ret None, w')
    /\ heap w' !! task = Some t'
    /\ download_calls (new_events w w') = expected_calls (ID t) (Files t)
    /\ Forall2 file_outcome (download_results (new_events w w')) (Files t')
    /\ TStatus t' = final_status (download_results (new_events w w'))
    /\ taskRepo w' !! ID t = Some task
    /\ last (trace w') = Some (EvPersistUpdate t' None).
Proof.
  intros Hheap Hknown Hpersist Hmkdir.
  destruct (ProcessTask_run E w task t Hheap Hknown Hpersist Hmkdir)
    as (w' & t' & Hrun & Hheap' & _ & Hcalls & Hout & Hst & Hrepo & Hlast & _).
  exists w', t'. repeat split; assumption.
Qed.

(** The task with an unreachable and a reachable URL: both files are
    attempted, the first ends failed, the second completed, and the task
    ends failed. *)
Lemma ProcessTask_attempts_every_file_witness :
  exists w' t',
    ProcessTask (example_Env None response_200) 0%nat two_file_World = (Ret None, w')
    /\ heap w' !! 0%nat = Some t'
    /\ download_calls (new_events two_file_World w')
       = [("https://x/unreachable", "task-1", 0); ("https://x/b.pdf", "task-1", 1)]
    /\ Forall2 file_outcome (download_results (new_events two_file_World w')) (Files t')
    /\ TStatus t' = final_status (download_results (new_events two_file_World w'))
    /\ taskRepo w' !! "task-1" = Some 0%nat
    /\ last (trace w') = Some (EvPersistUpdate t' None).
Proof.
  refine (ProcessTask_attempts_every_file (example_Env None response_200)
            two_file_World 0%nat two_file_task _ _ _ _).
  - vm_compute. reflexivity.
  - vm_compute. eexists. reflexivity.
  - intros n t'. reflexivity.
  - intros n path. reflexivity.
Defined.

(** C3 as stated fails in two ways: when the download directory cannot
    be created no file is attempted although every update is accepted,
    and a task without files ends in processing, not completed. *)
Lemma ProcessTask_attempts_every_file_counterexample :
  (let E := example_Env (Some "permission denied") response_200 in
   let r := ProcessTask E 0%nat two_file_World in
   download_calls (new_events two_file_World (snd r)) = []
   /\ (Files <$> heap two_file_World !! 0%nat) <> Some []
   /\ (TStatus <$> heap (snd r) !! 0%nat) = Some TaskStatusFailed)
  /\ (let E := example_Env None response_200 in
      let r := ProcessTask E 0%nat no_file_World in
      fst r = Ret None
      /\ (TStatus <$> heap (snd r) !! 0%nat) = Some TaskStatusProcessing).
Proof.
  vm_compute. repeat split; discriminate.
Qed.

(** C10, as the code has it.  For every task without files that the
    in-memory repository knows, when the durable repository accepts every
    update and the download directory can be created, [ProcessTask] first
    hands on the task in status processing, calls [DownloadFile] not at
    all, and leaves the task in processing: neither [IsCompleted] nor
    [IsFailed] holds of it. *)
Theorem ProcessTask_without_files_stays_processing
    (E : Env) (w : World) (task : loc) (t : Task) :
  heap w !! task = Some t ->
  Files t = [] ->
  is_Some (taskRepo w !! ID t) ->
  (forall n t', persistent_Update E n t' = None) ->
  (forall n path, os_MkdirAll E n path = None) ->
  exists w' t',
    ProcessTask E task w = (Ret None, w')
    /\ heap w' !! task = Some t'
    /\ head (new_events w w')
       = Some (EvPersistUpdate
                 (UpdateStatus (time_Now E (length (trace w))) TaskStatusProcessing t)
                 None)
    /\ download_calls (new_events w w') = []
    /\ TStatus t' = TaskStatusProcessing
    /\ IsCompleted t' = false /\ IsFailed t' = false
    /\ last (trace w') = Some (EvPersistUpdate t' None).
Proof.
  intros Hheap Hfiles Hknown Hpersist Hmkdir.
  destruct (ProcessTask_run E w task t Hheap Hknown Hpersist Hmkdir)
    as (w' & t' & Hrun & Hheap' & Hlen & Hcalls & Hout & Hst & _ & Hlast & Hhead).
  rewrite Hfiles in Hlen, Hcalls. cbn in Hlen, Hcalls.
  destruct (Files t') as [|f files] eqn:Hfiles'; [| discriminate].
  apply Forall2_nil_inv_r in Hout. rewrite Hout in Hst.
  exists w', t'. repeat split; try assumption.
  - unfold IsCompleted. rewrite Hfiles'. reflexivity.
  - unfold IsFailed. rewrite Hfiles'. reflexivity.
Qed.

(** The registered task without files, in an environment where nothing
    fails. *)
Lemma ProcessTask_without_files_stays_processing_witness :
  exists w' t',
    ProcessTask (example_Env None response_200) 0%nat no_file_World = (Ret None, w')
    /\ heap w' !! 0%nat = Some t'
    /\ head (new_events no_file_World w')
       = Some (EvPersistUpdate
                 (UpdateStatus 0 TaskStatusProcessing (NewTask "task-0" 0 [])) None)
    /\ download_calls (new_events no_file_World w') = []
    /\ TStatus t' = TaskStatusProcessing
    /\ IsCompleted t' = false /\ IsFailed t' = false
    /\ last (trace w') = Some (EvPersistUpdate t' None).
Proof.
  refine (ProcessTask_without_files_stays_processing
            (example_Env None response_200) no_file_World 0%nat
            (NewTask "task-0" 0 []) _ _ _ _ _).
  - reflexivity.
  - reflexivity.
  - vm_compute. eexists. reflexivity.
  - intros n t'. reflexivity.
  - intros n path. reflexivity.
Defined.

(** C10 as stated fails when the download directory cannot be created:
    the durable repository accepts every update, and the task without
    files ends failed. *)
Lemma ProcessTask_without_files_counterexample :
  let E := example_Env (Some "permission denied") response_200 in
  let r := ProcessTask E 0%nat no_file_World in
  (forall n t, persistent_Update E n t = None)
  /\ (Files <$> heap no_file_World !! 0%nat) = Some []
  /\ (TStatus <$> heap (snd r) !! 0%nat) = Some TaskStatusFailed.
Proof.
  split; [intros n t; reflexivity |].
  vm_compute. split; reflexivity.
Qed.

(** ** Fetching one file *)

Lemma http_error_not_create_error (resp : Response) (e : string) :
  "не удалось создать файл: " +:+ e <> http_error resp.
Proof. unfold http_error. discriminate. Qed.

Lemma http_error_not_copy_error (resp : Response) (e : string) :
  "не удалось записать файл: " +:+ e <> http_error resp.
Proof. unfold http_error. discriminate. Qed.

(** C1, as the code has it.  For every response [DownloadFile] receives
    for a file in range, the file is marked failed with the text made of
    the status code and status text, and that error is returned, if and
    only if the status code is not 200; for a response with code 200 the
    download proceeds: the file's path is set to the destination, and
    the file ends completed exactly when [nil] is returned. *)
Theorem DownloadFile_fails_iff_status_not_200
    (E : Env) (w : World) (url taskID : string) (i : Z)
    (task : loc) (t : Task) (f : File) (resp : Response) :
  taskRepo w !! taskID = Some task ->
  heap w !! task = Some t ->
  0 <= i ->
  Files t !! Z.to_nat i = Some f ->
  http_NewRequest E url = None ->
  client_Do E (length (trace w)) url = inr resp ->
  exists res w' t' f',
    DownloadFile E url taskID i w = (Ret res, w')
    /\ heap w' !! task = Some t'
    /\ Files t' !! Z.to_nat i = Some f'
    /\ ((res = Some (http_error resp)
         /\ Status f' = "failed" /\ Error f' = http_error resp)
        <-> StatusCode resp <> 200)
    /\ (StatusCode resp = 200 ->
        Path f' = filepath_Join E
                    [downloadDir; taskID;
                     getFileName (time_Now E (length (trace w))) url
                       (ContentDisposition resp)]
        /\ (res = None <-> Status f' = "completed")).
Proof.
  intros Hrepo Hheap Hi Hf Hreq Hdo.
  pose proof (lookup_lt_Some _ _ _ Hheap) as Hlt.
  destruct (DownloadFile_response_at E task (heap w) Hlt url taskID i t
              (taskRepo w) (trace w) f resp Hrepo Hi Hf Hreq Hdo)
    as (res & f' & Hrun & Hres).
  rewrite <- (at_task_initial w task t Hheap) in Hrun.
  eexists res, _, _, f'. split; [exact Hrun |].
  split; [apply heap_at_task; exact Hlt |].
  split.
  { unfold set_file. cbn [Files]. rewrite list_lookup_alter_eq, Hf. reflexivity. }
  destruct (Z.eqb_spec (StatusCode resp) 200) as [Hcode | Hcode].
  - destruct Hres as [Hpath Hres]. split.
    + split; [| intros H; contradiction].
      intros (Hr & Hs & He).
      destruct Hres as [[Hnone _] | (e & _ & _ & [Herr | Herr])].
      * congruence.
      * rewrite Herr in He. exfalso. exact (http_error_not_create_error _ _ He).
      * rewrite Herr in He. exfalso. exact (http_error_not_copy_error _ _ He).
    + intros _. split; [exact Hpath |].
      destruct Hres as [[Hnone Hs] | (e & Hsome & Hs & _)].
      * split; intros _; assumption.
      * rewrite Hsome, Hs. split; discriminate.
  - split.
    + split; [intros _; exact Hcode | intros _; exact Hres].
    + intros H. contradiction.
Qed.

(** The reachable file of the two-file task, answered with 200 and a body
    that is written out. *)
Lemma DownloadFile_fails_iff_status_not_200_witness :
  exists res w' t' f',
    DownloadFile (example_Env None response_200) "https://x/b.pdf" "task-1" 1
      two_file_World = (Ret res, w')
    /\ heap w' !! 0%nat = Some t'
    /\ Files t' !! 1%nat = Some f'
    /\ ((res = Some (http_error response_200)
         /\ Status f' = "failed" /\ Error f' = http_error response_200)
        <-> StatusCode response_200 <> 200)
    /\ (StatusCode response_200 = 200 ->
        Path f' = "./downloads/task-1/b.pdf"
        /\ (res = None <-> Status f' = "completed")).
Proof.
  refine (DownloadFile_fails_iff_status_not_200 (example_Env None response_200)
            two_file_World "https://x/b.pdf" "task-1" 1 0%nat two_file_task
            (mkFile "https://x/b.pdf" EmptyString 0 "pending" EmptyString)
            response_200 _ _ _ _ _ _).
  - reflexivity.
  - reflexivity.
  - lia.
  - reflexivity.
  - reflexivity.
  - reflexivity.
Defined.

(** C1 as stated fails on a response with a 2xx code other than 200: the
    response 204 is in the 2xx class, and the file is marked failed with
    the status text and the error is returned. *)
Lemma DownloadFile_2xx_counterexample :
  let r := DownloadFile (example_Env None response_204) "https://x/b.pdf" "task-1" 1
             two_file_World in
  200 <= StatusCode response_204 < 300
  /\ fst r = Ret (Some "HTTP 204: 204 No Content")
  /\ ((fun t => Files t !! 1%nat) <$> heap (snd r) !! 0%nat)
     = Some (Some (mkFile "https://x/b.pdf" EmptyString 0 "failed"
                     "HTTP 204: 204 No Content")).
Proof.
  vm_compute. repeat split; discriminate.
Qed.

(** C2 at its failing input.  [DownloadFile] with a negative index on an
    existing task panics, where an out-of-range error is called for: the
    guard compares the index with the length only from above. *)
Theorem DownloadFile_negative_index_panics
    (E : Env) (w : World) (url taskID : string) (i : Z) (task : loc) (t : Task) :
  taskRepo w !! taskID = Some task ->
  heap w !! task = Some t ->
  i < 0 ->
  DownloadFile E url taskID i w = (Panic "index out of range", w).
Proof.
  intros Hrepo Hheap Hi.
  pose proof (lookup_lt_Some _ _ _ Hheap) as Hlt.
  pose proof (DownloadFile_negative_at E task (heap w) Hlt url taskID i t
                (taskRepo w) (trace w) Hrepo Hi) as Hrun.
  rewrite <- (at_task_initial w task t Hheap) in Hrun. exact Hrun.
Qed.

(** Index -1 on the two-file task. *)
Lemma DownloadFile_negative_index_panics_witness :
  DownloadFile (example_Env None response_200) "https://x/b.pdf" "task-1" (-1)
    two_file_World
  = (Panic "index out of range", two_file_World).
Proof.
  refine (DownloadFile_negative_index_panics (example_Env None response_200)
            two_file_World "https://x/b.pdf" "task-1" (-1) 0%nat two_file_task _ _ _).
  - reflexivity.
  - reflexivity.
  - lia.
Defined.

(** The part of C2 the guard covers: an index at or beyond the end of
    the file list gets the out-of-range error, and no task object is
    touched. *)
Lemma DownloadFile_index_beyond_end
    (E : Env) (w : World) (url taskID : string) (i : Z) (task : loc) (t : Task) :
  taskRepo w !! taskID = Some task ->
  heap w !! task = Some t ->
  Z.of_nat (length (Files t)) <= i ->
  exists w',
    DownloadFile E url taskID i w
    = (Ret (Some ("неверный индекс файла: " +:+ GoStrings.fmt_d i)), w')
    /\ heap w' = heap w /\ taskRepo w' = taskRepo w.
Proof.
  intros Hrepo Hheap Hi.
  pose proof (lookup_lt_Some _ _ _ Hheap) as Hlt.
  pose proof (DownloadFile_beyond_at E task (heap w) Hlt url taskID i t
                (taskRepo w) (trace w) Hrepo Hi) as Hrun.
  rewrite <- (at_task_initial w task t Hheap) in Hrun.
  eexists. split; [exact Hrun |].
  unfold at_task. cbn [heap taskRepo].
  split; [apply list_insert_id; exact Hheap | reflexivity].
Qed.

(** ** What every run keeps *)

Section frame.

Variable E : Env.
Variable R : World -> World -> Prop.
Variable ok_event : Event -> Prop.

Hypothesis R_refl : forall w, R w w.
Hypothesis R_trans : forall w1 w2 w3, R w1 w2 -> R w2 w3 -> R w1 w3.
Hypothesis R_modify : forall w q t f,
  heap w !! q = Some t -> keeps_shape f ->
  R w (mkWorld (<[q := f t]> (heap w)) (taskRepo w) (trace w)).
Hypothesis R_alloc : forall w t,
  files_match_urls t -> R w (mkWorld (heap w ++ [t]) (taskRepo w) (trace w)).
Hypothesis R_repo : forall w r, R w (mkWorld (heap w) r (trace w)).
Hypothesis R_emit : forall w ev,
  ok_event ev -> R w (mkWorld (heap w) (taskRepo w) (trace w ++ [ev])).

Hypothesis ok_mkdir : forall path res, ok_event (EvMkdirAll path res).
Hypothesis ok_download : forall url taskID i res,
  ok_event (EvDownloadFile url taskID i res).
Hypothesis ok_create : forall t res, ok_event (EvPersistCreate t res).
Hypothesis ok_update : forall t res, ok_event (EvPersistUpdate t res).

Lemma respects_ret {A} (a : A) : respects R (ret a).
Proof. intros w. apply R_refl. Qed.

Lemma respects_panic {A} (msg : string) : respects R (panic (A := A) msg).
Proof. intros w. apply R_refl. Qed.

Lemma respects_bind {A B} (m : M A) (k : A -> M B) :
  respects R m -> (forall a, respects R (k a)) -> respects R (bind m k).
Proof.
  intros Hm Hk w. unfold bind. specialize (Hm w).
  destruct (m w) as [[a | msg] w1]; cbn [snd] in *.
  - apply (R_trans _ w1); [exact Hm | apply Hk].
  - exact Hm.
Qed.

Lemma respects_load q : respects R (load q).
Proof. intros w. unfold load. destruct (heap w !! q); apply R_refl. Qed.

Lemma respects_ask {A} (answer : nat -> A) : respects R (ask answer).
Proof. intros w. apply R_refl. Qed.

Lemma respects_repo_lookup id : respects R (repo_lookup id).
Proof. intros w. apply R_refl. Qed.

Lemma respects_repo_insert id q : respects R (repo_insert id q).
Proof. intros w. apply R_repo. Qed.

Lemma respects_repo_delete id : respects R (repo_delete id).
Proof. intros w. apply R_repo. Qed.

Lemma respects_modify q f : keeps_shape f -> respects R (modify q f).
Proof.
  intros Hf w. unfold modify. destruct (heap w !! q) as [t|] eqn:Hq.
  - apply R_modify; assumption.
  - apply R_refl.
Qed.

Lemma respects_alloc t : files_match_urls t -> respects R (alloc t).
Proof. intros Ht w. apply R_alloc. exact Ht. Qed.

Lemma respects_emit ev : ok_event ev -> respects R (emit ev).
Proof. intros Hev w. apply R_emit. exact Hev. Qed.

Lemma respects_file_at t i : respects R (file_at t i).
Proof.
  unfold file_at. destruct (i <? 0); [apply respects_panic |].
  destruct (Files t !! Z.to_nat i); [apply respects_ret | apply respects_panic].
Qed.

Lemma keeps_shape_set_file i g : keeps_shape (set_file i g).
Proof.
  intros t. unfold set_file. cbn. rewrite length_alter. repeat split.
Qed.

Lemma keeps_shape_UpdateStatus n status : keeps_shape (UpdateStatus n status).
Proof. intros t. repeat split. Qed.

Lemma keeps_shape_SetError n err : keeps_shape (SetError n err).
Proof. intros t. repeat split. Qed.

Ltac frame_step :=
  lazymatch goal with
  | |- respects _ (bind _ _) => apply respects_bind; [| intros ?]
  | |- respects _ (ret _) => apply respects_ret
  | |- respects _ (panic _) => apply respects_panic
  | |- respects _ (load _) => apply respects_load
  | |- respects _ (ask _) => apply respects_ask
  | |- respects _ (now _) => apply respects_ask
  | |- respects _ (repo_lookup _) => apply respects_repo_lookup
  | |- respects _ (repo_insert _ _) => apply respects_repo_insert
  | |- respects _ (repo_delete _) => apply respects_repo_delete
  | |- respects _ (file_at _ _) => apply respects_file_at
  | |- respects _ (modify _ (set_file _ _)) =>
      apply respects_modify, keeps_shape_set_file
  | |- respects _ (modify _ (UpdateStatus _ _)) =>
      apply respects_modify, keeps_shape_UpdateStatus
  | |- respects _ (modify _ (SetError _ _)) =>
      apply respects_modify, keeps_shape_SetError
  | |- respects _ (emit _) => apply respects_emit
  | |- respects _ (match ?x with _ => _ end) => destruct x
  end.

Ltac frame := repeat frame_step.

Lemma respects_call_UpdateStatus q status :
  respects R (call_UpdateStatus E q status).
Proof. unfold call_UpdateStatus. frame. Qed.

Lemma respects_call_SetError q err : respects R (call_SetError E q err).
Proof. unfold call_SetError. frame. Qed.

Lemma respects_Update q : respects R (repository.Update q).
Proof. unfold repository.Update. frame. Qed.

Lemma respects_updateTask q : respects R (updateTask E q).
Proof.
  unfold updateTask. apply respects_bind; [apply respects_Update | intros err].
  destruct err; [apply respects_ret |].
  unfold persistentRepo_Update. frame. apply ok_update.
Qed.

Lemma respects_fail_file q i msg : respects R (fail_file q i msg).
Proof. unfold fail_file. frame. Qed.

Lemma respects_DownloadFile url taskID i : respects R (DownloadFile E url taskID i).
Proof.
  unfold DownloadFile. apply respects_bind.
  - unfold DownloadFile_body, repository.GetByID, fail_file. frame.
  - intros res. frame. apply ok_download.
Qed.

Lemma respects_ProcessTask_range q indices :
  respects R (ProcessTask_range E q indices).
Proof.
  induction indices as [|i rest IH]; cbn [ProcessTask_range].
  - apply respects_ret.
  - apply respects_bind; [apply respects_load | intros t].
    apply respects_bind; [apply respects_file_at | intros file].
    apply respects_bind; [apply respects_DownloadFile | intros err].
    apply respects_bind.
    { destruct err; [apply respects_fail_file | apply respects_ret]. }
    intros _. apply respects_bind; [apply respects_updateTask | intros err'].
    destruct err'; [apply respects_ret | exact IH].
Qed.

(** What [ProcessTask] runs once the download directory exists. *)
Lemma respects_ProcessTask_files q : respects R (ProcessTask_files E q).
Proof.
  unfold ProcessTask_files.
  apply respects_bind; [apply respects_load | intros t].
  apply respects_bind; [apply respects_ProcessTask_range | intros err].
  destruct err; [apply respects_ret |].
  apply respects_bind; [apply respects_load | intros t'].
  apply respects_bind; [| intros _; apply respects_updateTask].
  destruct (IsCompleted t'); [apply respects_call_UpdateStatus |].
  destruct (IsFailed t'); [apply respects_call_UpdateStatus | apply respects_ret].
Qed.

Lemma respects_ProcessTask q : respects R (ProcessTask E q).
Proof.
  unfold ProcessTask.
  apply respects_bind; [apply respects_call_UpdateStatus | intros _].
  apply respects_bind; [apply respects_updateTask | intros err].
  destruct err; [apply respects_ret |].
  apply respects_bind; [apply respects_load | intros t].
  apply respects_bind.
  { unfold MkdirAll. frame. apply ok_mkdir. }
  intros err. destruct err.
  - apply respects_bind; [apply respects_call_SetError | intros _].
    apply respects_bind; [apply respects_updateTask | intros _].
    apply respects_ret.
  - apply respects_ProcessTask_files.
Qed.

Lemma files_match_urls_NewTask id n urls : files_match_urls (NewTask id n urls).
Proof. unfold files_match_urls, NewTask. cbn. apply length_replicate. Qed.

Lemma respects_call_NewTask urls : respects R (call_NewTask E urls).
Proof.
  unfold call_NewTask. frame. apply respects_alloc, files_match_urls_NewTask.
Qed.

Lemma respects_CreateTask_init q urls :
  forall i, respects R (CreateTask_init q i urls).
Proof.
  induction urls as [|url rest IH]; intros i; cbn [CreateTask_init].
  - apply respects_ret.
  - frame. apply IH.
Qed.

Lemma respects_CreateTask urls : respects R (CreateTask E urls).
Proof.
  unfold CreateTask.
  destruct (length urls =? 0)%nat; [apply respects_ret |].
  destruct (has_empty_url urls); [apply respects_ret |].
  apply respects_bind; [apply respects_call_NewTask | intros q].
  apply respects_bind; [apply respects_CreateTask_init | intros _].
  apply respects_bind; [unfold repository.Create; frame | intros err].
  destruct err; [apply respects_ret |].
  apply respects_bind; [| intros err; destruct err; apply respects_ret].
  unfold persistentRepo_Create. frame. apply ok_create.
Qed.

End frame.

(** ** One file record per URL *)

Lemma keeps_files_refl (w : World) : keeps_files w w.
Proof. split; [intros q t Hq; exists t; auto | auto]. Qed.

Lemma keeps_files_trans (w1 w2 w3 : World) :
  keeps_files w1 w2 -> keeps_files w2 w3 -> keeps_files w1 w3.
Proof.
  intros [H12 I12] [H23 I23]. split; [| intros Hinv; apply I23, I12, Hinv].
  intros q t Hq.
  destruct (H12 q t Hq) as (t2 & Hq2 & Hurls2 & Hlen2).
  destruct (H23 q t2 Hq2) as (t3 & Hq3 & Hurls3 & Hlen3).
  exists t3. repeat split; [assumption | congruence | congruence].
Qed.

Lemma keeps_files_modify (w : World) (q : loc) (t : Task) (f : Task -> Task) :
  heap w !! q = Some t -> keeps_shape f ->
  keeps_files w (mkWorld (<[q := f t]> (heap w)) (taskRepo w) (trace w)).
Proof.
  intros Hq Hf. destruct (Hf t) as (_ & Hurls & Hlen).
  pose proof (lookup_lt_Some _ _ _ Hq) as Hlt.
  split; cbn [heap].
  - intros q' t0 Hq'. destruct (decide (q = q')) as [<- | Hne].
    + exists (f t). rewrite list_lookup_insert_eq by exact Hlt.
      replace t0 with t by congruence. auto.
    + exists t0. rewrite list_lookup_insert_ne by exact Hne. auto.
  - intros Hinv q' t0 Hq'.
    apply list_lookup_insert_Some in Hq' as [(_ & <- & _) | (_ & Hq')].
    + unfold files_match_urls. rewrite Hlen, Hurls. apply (Hinv q t Hq).
    + apply (Hinv q' t0 Hq').
Qed.

Lemma keeps_files_alloc (w : World) (t : Task) :
  files_match_urls t ->
  keeps_files w (mkWorld (heap w ++ [t]) (taskRepo w) (trace w)).
Proof.
  intros Ht. split; cbn [heap].
  - intros q t0 Hq. exists t0. rewrite lookup_app_l_Some with (x := t0); auto.
  - intros Hinv q t0 Hq. apply lookup_app_Some in Hq as [Hq | (_ & Hq)].
    + apply (Hinv q t0 Hq).
    + apply list_lookup_singleton_Some in Hq as [_ <-]. exact Ht.
Qed.

Lemma keeps_files_repo (w : World) (r : gmap string loc) :
  keeps_files w (mkWorld (heap w) r (trace w)).
Proof. split; [intros q t Hq; exists t; auto | auto]. Qed.

Lemma keeps_files_emit (w : World) (ev : Event) :
  True -> keeps_files w (mkWorld (heap w) (taskRepo w) (trace w ++ [ev])).
Proof. intros _. split; [intros q t Hq; exists t; auto | auto]. Qed.

(** Every core operation keeps the file records and the URLs of every
    task object, whatever it returns. *)
Lemma run_op_keeps_files (E : Env) (op : core_op) (w : World) :
  keeps_files w (run_op E op w).
Proof.
  pose proof keeps_files_refl. pose proof keeps_files_trans.
  pose proof keeps_files_modify. pose proof keeps_files_alloc.
  pose proof keeps_files_repo. pose proof keeps_files_emit.
  destruct op; cbn [run_op].
  - apply (respects_call_NewTask E keeps_files); assumption.
  - apply (respects_CreateTask E keeps_files (fun _ => True)); auto.
  - apply (respects_ProcessTask E keeps_files (fun _ => True)); auto.
  - apply (respects_DownloadFile E keeps_files (fun _ => True)); auto.
  - apply (respects_call_UpdateStatus E keeps_files); assumption.
  - apply (respects_call_SetError E keeps_files); assumption.
Qed.

Lemma bind_Ret_inv {A B} (m : M A) (k : A -> M B) (w w' : World) (b : B) :
  bind m k w = (Ret b, w') ->
  exists a w1, m w = (Ret a, w1) /\ k a w1 = (Ret b, w').
Proof.
  unfold bind. destruct (m w) as [[a | msg] w1]; [| discriminate].
  intros H. exists a, w1. split; [reflexivity | exact H].
Qed.

(** [NewTask] puts a task object with one file record per URL at a new
    location. *)
Lemma call_NewTask_run (E : Env) (urls : list string) (w : World) :
  call_NewTask E urls w
  = (Ret (length (heap w)),
     mkWorld (heap w ++ [NewTask (uuid_New E (length (trace w)))
                           (time_Now E (length (trace w))) urls])
       (taskRepo w) (trace w)).
Proof. reflexivity. Qed.

(** What [CreateTask] runs on the task [NewTask] made. *)
Lemma CreateTask_keeps_files (E : Env) (urls : list string) (q : loc) :
  respects keeps_files
    (CreateTask_init q 0 urls ;;;
     err <- repository.Create q ;;
     match err with
     | Some e => ret (inl ("не удалось создать задачу: " +:+ e))
     | None =>
         err <- persistentRepo_Create E q ;;
         match err with
         | Some e => ret (inl ("не удалось сохранить задачу: " +:+ e))
         | None => ret (inr q)
         end
     end).
Proof.
  pose proof keeps_files_refl as Hrefl. pose proof keeps_files_trans as Htrans.
  apply respects_bind; [assumption | |].
  { apply (respects_CreateTask_init keeps_files); auto using keeps_files_modify. }
  intros _. apply respects_bind; [assumption | |].
  { unfold repository.Create.
    apply respects_bind; [assumption | apply respects_load; assumption |].
    intros t. apply respects_bind; [assumption | |].
    - intros w. apply keeps_files_repo.
    - intros _. apply respects_ret. assumption. }
  intros err. destruct err; [apply respects_ret; assumption |].
  apply respects_bind; [assumption | |].
  { unfold persistentRepo_Create.
    apply respects_bind; [assumption | apply respects_load; assumption |].
    intros t. apply respects_bind; [assumption | apply respects_ask; assumption |].
    intros res. apply respects_bind; [assumption | |].
    - intros w. apply keeps_files_emit. exact I.
    - intros _. apply respects_ret. assumption. }
  intros err. destruct err; apply respects_ret; assumption.
Qed.

(** A successful [CreateTask] returns a task object with the given URLs
    and one file record for each. *)
Lemma CreateTask_creates (E : Env) (urls : list string) (w w' : World) (task : loc) :
  CreateTask E urls w = (Ret (inr task), w') ->
  exists t, heap w' !! task = Some t /\ URLs t = urls
            /\ length (Files t) = length urls.
Proof.
  unfold CreateTask.
  destruct (length urls =? 0)%nat; [discriminate |].
  destruct (has_empty_url urls); [discriminate |].
  rewrite (bind_Ret _ _ _ _ _ (call_NewTask_run E urls w)).
  set (q := length (heap w)).
  set (t0 := NewTask (uuid_New E (length (trace w))) (time_Now E (length (trace w))) urls).
  set (w1 := mkWorld (heap w ++ [t0]) (taskRepo w) (trace w)).
  intros Hrun.
  pose proof (CreateTask_keeps_files E urls q w1) as [Hkeep _].
  rewrite Hrun in Hkeep. cbn [snd] in Hkeep.
  assert (Hq : task = q).
  { apply bind_Ret_inv in Hrun as (? & w2 & _ & Hrun).
    apply bind_Ret_inv in Hrun as (err & w3 & _ & Hrun).
    destruct err; [discriminate |].
    apply bind_Ret_inv in Hrun as (err & w4 & _ & Hrun).
    destruct err; [discriminate |]. unfold ret in Hrun. congruence. }
  subst task.
  destruct (Hkeep q t0) as (t & Ht & Hurls & Hlen).
  { unfold w1. cbn [heap]. apply list_lookup_middle. reflexivity. }
  exists t. split; [exact Ht |]. split; [exact Hurls |].
  rewrite Hlen. unfold t0, NewTask. cbn. apply length_replicate.
Qed.

(** C6.  In every world the core operations can build, every task has
    as many file records as URLs; [NewTask] and a successful
    [CreateTask] hand out such a task for the URLs given; and no core
    operation ([NewTask], [CreateTask], [ProcessTask], [DownloadFile],
    [UpdateStatus], [SetError]), returning, failing or panicking, changes
    the number of file records or the URLs of any task. *)
Theorem files_match_urls_always (E : Env) (w : World) :
  reachable E w ->
  (forall q t, heap w !! q = Some t -> files_match_urls t)
  /\ (forall urls,
        exists t, heap (run_op E (OpNewTask urls) w) !! length (heap w) = Some t
                  /\ URLs t = urls /\ files_match_urls t)
  /\ (forall urls task w',
        CreateTask E urls w = (Ret (inr task), w') ->
        exists t, heap w' !! task = Some t /\ URLs t = urls /\ files_match_urls t)
  /\ (forall op q t,
        heap w !! q = Some t ->
        exists t', heap (run_op E op w) !! q = Some t'
                   /\ URLs t' = URLs t
                   /\ length (Files t') = length (Files t)).
Proof.
  intros Hreach.
  split; [| split; [| split]].
  - induction Hreach as [| op w Hreach IH].
    + intros q t Hq. cbn in Hq. rewrite lookup_nil in Hq. discriminate.
    + destruct (run_op_keeps_files E op w) as [_ Hinv]. apply Hinv, IH.
  - intros urls. cbn [run_op]. rewrite call_NewTask_run. cbn [snd heap].
    eexists. split; [apply list_lookup_middle; reflexivity |].
    split; [reflexivity | apply files_match_urls_NewTask].
  - intros urls task w' Hrun.
    destruct (CreateTask_creates E urls w w' task Hrun) as (t & Ht & Hurls & Hlen).
    exists t. split; [exact Ht |]. split; [exact Hurls |].
    unfold files_match_urls. rewrite Hlen, Hurls. reflexivity.
  - intros op q t Hq.
    destruct (run_op_keeps_files E op w) as [Hkeep _]. exact (Hkeep q t Hq).
Qed.

(** The world after creating the two-file task and processing it. *)
Lemma files_match_urls_always_witness :
  let E := example_Env None response_200 in
  let w := run_op E (OpProcessTask 0%nat)
             (run_op E (OpCreateTask ["https://x/unreachable"; "https://x/b.pdf"])
                empty_World) in
  (forall q t, heap w !! q = Some t -> files_match_urls t)
  /\ (forall urls,
        exists t, heap (run_op E (OpNewTask urls) w) !! length (heap w) = Some t
                  /\ URLs t = urls /\ files_match_urls t)
  /\ (forall urls task w',
        CreateTask E urls w = (Ret (inr task), w') ->
        exists t, heap w' !! task = Some t /\ URLs t = urls /\ files_match_urls t)
  /\ (forall op q t,
        heap w !! q = Some t ->
        exists t', heap (run_op E op w) !! q = Some t'
                   /\ URLs t' = URLs t
                   /\ length (Files t') = length (Files t)).
Proof.
  intros E w. apply (files_match_urls_always E w).
  unfold w. apply reachable_step, reachable_step, reachable_empty.
Defined.

(** ** The download directory *)

Lemma extends_trace_refl (P : Event -> Prop) (w : World) : extends_trace P w w.
Proof. exists []. split; [symmetry; apply app_nil_r | constructor]. Qed.

Lemma extends_trace_trans (P : Event -> Prop) (w1 w2 w3 : World) :
  extends_trace P w1 w2 -> extends_trace P w2 w3 -> extends_trace P w1 w3.
Proof.
  intros (evs1 & H1 & HP1) (evs2 & H2 & HP2). exists (evs1 ++ evs2)%list.
  split; [rewrite H2, H1, app_assoc; reflexivity | apply Forall_app; auto].
Qed.

Lemma extends_trace_same (P : Event -> Prop) (w : World)
    (h : list Task) (r : gmap string loc) :
  extends_trace P w (mkWorld h r (trace w)).
Proof. exists []. split; [symmetry; apply app_nil_r | constructor]. Qed.

Lemma extends_trace_emit (P : Event -> Prop) (w : World) (ev : Event) :
  P ev -> extends_trace P w (mkWorld (heap w) (taskRepo w) (trace w ++ [ev])).
Proof. intros Hev. exists [ev]. split; [reflexivity | repeat constructor; exact Hev]. Qed.

(** After the download directory has been created, [ProcessTask] creates
    no other. *)
Lemma ProcessTask_files_no_mkdir (E : Env) (task : loc) (w : World) :
  extends_trace not_mkdir w (snd (ProcessTask_files E task w)).
Proof.
  apply (respects_ProcessTask_files E (extends_trace not_mkdir) not_mkdir).
  - apply extends_trace_refl.
  - apply extends_trace_trans.
  - intros. apply extends_trace_same.
  - intros. apply extends_trace_same.
  - apply extends_trace_emit.
  - intros. exact I.
  - intros. exact I.
Qed.

(** Whenever a run of [ProcessTask] has the creation of a directory
    fail, the directory is the task's own, the run returns that error at
    once, the task is left failed with the error recorded as its error
    message, every file record is as it was, and [DownloadFile] has not
    been called. *)
Lemma ProcessTask_failed_mkdir_on_trace
    (E : Env) (w w' : World) (task : loc) (res : outcome error)
    (path e : string) :
  ProcessTask E task w = (res, w') ->
  EvMkdirAll path (Some e) ∈ new_events w w' ->
  exists t t',
    heap w !! task = Some t
    /\ heap w' !! task = Some t'
    /\ path = filepath_Join E [downloadDir; ID t]
    /\ res = Ret (Some ("не удалось создать директорию для скачивания: " +:+ e))
    /\ TStatus t' = TaskStatusFailed
    /\ TError t' = "не удалось создать директорию для скачивания: " +:+ e
    /\ Files t' = Files t
    /\ download_calls (new_events w w') = [].
Proof.
  intros Hrun Hev. unfold new_events in *.
  destruct (heap w !! task) as [t|] eqn:Hheap.
  2: { rewrite (ProcessTask_nil_pointer E w task Hheap) in Hrun.
       injection Hrun as <- <-. rewrite drop_all in Hev.
       apply elem_of_nil in Hev. contradiction. }
  pose proof (lookup_lt_Some _ _ _ Hheap) as Hlt.
  rewrite (at_task_initial w task t Hheap) in Hrun.
  set (tr := trace w) in *.
  set (t1 := UpdateStatus (time_Now E (length tr)) TaskStatusProcessing t).
  destruct (taskRepo w !! ID t) as [q|] eqn:Hrepo.
  2: { rewrite (ProcessTask_unknown_at E task (heap w) Hlt t _ _ Hrepo) in Hrun.
       injection Hrun as <- <-. cbn [trace at_task] in Hev.
       rewrite drop_all in Hev. apply elem_of_nil in Hev. contradiction. }
  assert (Hknown : is_Some (taskRepo w !! ID t)) by (exists q; exact Hrepo).
  destruct (persistent_Update E (length tr) t1) as [e0|] eqn:Hupdate.
  { rewrite (ProcessTask_update_rejected_at E task (heap w) Hlt t _ _ e0
               Hknown Hupdate) in Hrun.
    injection Hrun as <- <-. cbn [trace at_task] in Hev.
    rewrite drop_app_length in Hev.
    apply list_elem_of_singleton in Hev. discriminate. }
  set (tr1 := (tr ++ [EvPersistUpdate t1 None])%list).
  set (dir := filepath_Join E [downloadDir; ID t]).
  destruct (os_MkdirAll E (length tr1) dir) as [e1|] eqn:Hmkdir.
  - rewrite (ProcessTask_mkdir_failed_at E task (heap w) Hlt t _ _ e1
               Hknown Hupdate Hmkdir) in Hrun.
    injection Hrun as <- <-. cbn [trace at_task] in Hev |- *.
    fold t1 tr1 dir in Hev |- *. unfold tr1 in Hev |- *.
    rewrite <- !app_assoc, drop_app_length in Hev |- *.
    cbn [app] in Hev |- *.
    apply elem_of_cons in Hev as [Hev | Hev]; [discriminate |].
    apply elem_of_cons in Hev as [Hev | Hev].
    2: { apply list_elem_of_singleton in Hev. discriminate. }
    injection Hev as -> ->.
    eexists t, _. split; [reflexivity |].
    split; [apply heap_at_task; exact Hlt |].
    repeat split.
  - rewrite (ProcessTask_mkdir_ok_at E task (heap w) Hlt t _ _
               Hknown Hupdate Hmkdir) in Hrun.
    fold t1 tr1 dir in Hrun.
    pose proof (ProcessTask_files_no_mkdir E task
                  (at_task task (heap w) t1 (<[ID t := task]> (taskRepo w))
                     (tr1 ++ [EvMkdirAll dir None]))) as (evs & Htrace & Hnone).
    rewrite Hrun in Htrace. cbn [snd trace at_task] in Htrace.
    rewrite Htrace in Hev. unfold tr1 in Hev.
    rewrite <- !app_assoc, drop_app_length in Hev. cbn [app] in Hev.
    apply elem_of_cons in Hev as [Hev | Hev]; [discriminate |].
    apply elem_of_cons in Hev as [Hev | Hev]; [discriminate |].
    rewrite Forall_forall in Hnone. destruct (Hnone _ Hev).
Qed.

(** Such a run exists: when the first update is accepted and the
    directory cannot be created, the failure is on the trace. *)
Lemma ProcessTask_failed_mkdir_happens
    (E : Env) (w : World) (task : loc) (t : Task) (e : string) :
  let t1 := UpdateStatus (time_Now E (length (trace w))) TaskStatusProcessing t in
  let dir := filepath_Join E [downloadDir; ID t] in
  heap w !! task = Some t ->
  is_Some (taskRepo w !! ID t) ->
  persistent_Update E (length (trace w)) t1 = None ->
  os_MkdirAll E (S (length (trace w))) dir = Some e ->
  EvMkdirAll dir (Some e) ∈ new_events w (snd (ProcessTask E task w)).
Proof.
  intros t1 dir Hheap Hknown Hupdate Hmkdir.
  pose proof (lookup_lt_Some _ _ _ Hheap) as Hlt.
  assert (Hmkdir' : os_MkdirAll E (length (trace w ++ [EvPersistUpdate t1 None])) dir
                    = Some e).
  { rewrite length_app. cbn [length]. rewrite Nat.add_1_r. exact Hmkdir. }
  pose proof (ProcessTask_mkdir_failed_at E task (heap w) Hlt t _ _ e
                Hknown Hupdate Hmkdir') as Hrun.
  rewrite <- (at_task_initial w task t Hheap) in Hrun.
  rewrite Hrun. unfold new_events. cbn [snd trace at_task].
  rewrite <- !app_assoc, drop_app_length.
  apply list_elem_of_further, list_elem_of_here.
Qed.

(** ** The worker pool *)

Section worker_pool.

Import infrastructure.

Lemma AddTask_not_running (choice : nat) (taskID : string) (wp : WorkerPool) :
  running wp = false ->
  AddTask choice taskID wp = (wp, Some "пул воркеров не запущен").
Proof. intros Hrun. unfold AddTask. rewrite Hrun. reflexivity. Qed.

Lemma AddTask_live_room (choice : nat) (taskID : string) (wp : WorkerPool) :
  running wp = true -> cancelled wp = false -> ~ saturated wp ->
  AddTask choice taskID wp = (enqueued taskID wp, None).
Proof.
  intros Hrun Hlive Hroom. unfold AddTask, ready_cases, saturated in *.
  rewrite Hrun, Hlive. cbn [negb].
  destruct (Nat.ltb_spec (length (taskQueue wp)) taskQueue_cap) as [_ | Hfull]; [| lia].
  cbn [app length]. rewrite Nat.mod_1_r. cbn. unfold enqueued.
  rewrite Hrun, Hlive. reflexivity.
Qed.

Lemma AddTask_live_full (choice : nat) (taskID : string) (wp : WorkerPool) :
  running wp = true -> cancelled wp = false -> saturated wp ->
  AddTask choice taskID wp = (wp, Some "очередь задач переполнена").
Proof.
  intros Hrun Hlive Hfull. unfold AddTask, ready_cases, saturated in *.
  rewrite Hrun, Hlive. cbn [negb].
  destruct (Nat.ltb_spec (length (taskQueue wp)) taskQueue_cap) as [Hroom | _]; [lia |].
  cbn [app length]. rewrite lookup_nil. reflexivity.
Qed.

Lemma AddTask_cancelled_full (choice : nat) (taskID : string) (wp : WorkerPool) :
  running wp = true -> cancelled wp = true -> saturated wp ->
  AddTask choice taskID wp = (wp, Some "пул воркеров завершает работу").
Proof.
  intros Hrun Hdone Hfull. unfold AddTask, ready_cases, saturated in *.
  rewrite Hrun, Hdone. cbn [negb].
  destruct (Nat.ltb_spec (length (taskQueue wp)) taskQueue_cap) as [Hroom | _]; [lia |].
  cbn [app length]. rewrite Nat.mod_1_r. reflexivity.
Qed.

Lemma AddTask_cancelled_room (choice : nat) (taskID : string) (wp : WorkerPool) :
  running wp = true -> cancelled wp = true -> ~ saturated wp ->
  AddTask choice taskID wp
  = if (choice `mod` 2 =? 0)%nat then (enqueued taskID wp, None)
    else (wp, Some "пул воркеров завершает работу").
Proof.
  intros Hrun Hdone Hroom. unfold AddTask, ready_cases, saturated in *.
  rewrite Hrun, Hdone. cbn [negb].
  destruct (Nat.ltb_spec (length (taskQueue wp)) taskQueue_cap) as [_ | Hfull]; [| lia].
  cbn [app length].
  pose proof (Nat.mod_upper_bound choice 2 ltac:(lia)) as Hlt.
  destruct (choice `mod` 2)%nat as [|[|n]]; [| reflexivity | lia].
  cbn. unfold enqueued. rewrite Hrun, Hdone. reflexivity.
Qed.

(** A pool that has only been created and started has a live context. *)
Lemma Start_NewWorkerPool_live (n : Z) :
  running (Start (NewWorkerPool n)) = true
  /\ cancelled (Start (NewWorkerPool n)) = false.
Proof. split; reflexivity. Qed.

End worker_pool.

(** The body of [AddTask] on every pool.  On a pool that
    is not running it fails with the not-running error.  On a running
    pool whose context is live it fails with the queue-full error exactly
    when the queue holds its hundred jobs, and otherwise enqueues the
    task identifier and returns [nil].  On a running pool whose context
    has been cancelled (a pool started again after [Stop]) it fails with
    the shutting-down error when the queue is full, and with room in the
    queue it either enqueues or fails with that error, as the [select]
    picks. *)
Lemma AddTask_body_outcomes
    (choice : nat) (taskID : string) (wp : infrastructure.WorkerPool) :
  (infrastructure.running wp = false ->
   infrastructure.AddTask choice taskID wp = (wp, Some "пул воркеров не запущен"))
  /\ (infrastructure.running wp = true -> infrastructure.cancelled wp = false ->
      (snd (infrastructure.AddTask choice taskID wp) = Some "очередь задач переполнена"
       <-> saturated wp)
      /\ (saturated wp -> fst (infrastructure.AddTask choice taskID wp) = wp)
      /\ (~ saturated wp ->
          infrastructure.AddTask choice taskID wp = (enqueued taskID wp, None)))
  /\ (infrastructure.running wp = true -> infrastructure.cancelled wp = true ->
      (saturated wp ->
       infrastructure.AddTask choice taskID wp
       = (wp, Some "пул воркеров завершает работу"))
      /\ (~ saturated wp ->
          infrastructure.AddTask choice taskID wp = (enqueued taskID wp, None)
          \/ infrastructure.AddTask choice taskID wp
             = (wp, Some "пул воркеров завершает работу"))).
Proof.
  split; [apply AddTask_not_running |]. split.
  - intros Hrun Hlive.
    assert (Hdec : saturated wp \/ ~ saturated wp) by (unfold saturated; lia).
    split; [| split].
    + destruct Hdec as [Hfull | Hroom].
      * rewrite (AddTask_live_full choice taskID wp Hrun Hlive Hfull).
        split; [intros _; exact Hfull | reflexivity].
      * rewrite (AddTask_live_room choice taskID wp Hrun Hlive Hroom).
        split; [discriminate | intros Hfull; contradiction].
    + intros Hfull.
      rewrite (AddTask_live_full choice taskID wp Hrun Hlive Hfull). reflexivity.
    + apply AddTask_live_room; assumption.
  - intros Hrun Hdone. split.
    + apply AddTask_cancelled_full; assumption.
    + intros Hroom.
      rewrite (AddTask_cancelled_room choice taskID wp Hrun Hdone Hroom).
      destruct (choice `mod` 2 =? 0)%nat; [left | right]; reflexivity.
Qed.

(** [Start] does not refuse a pool that has been stopped.  Such a pool,
    which the design's lifecycle does not know, is running with a
    cancelled context: its queue is empty, yet a submission can fail with
    the shutting-down error, and once its queue is full every submission
    fails with that error. *)
Lemma AddTask_on_restarted_pool :
  (infrastructure.running restarted_pool = true
   /\ infrastructure.taskQueue restarted_pool = []
   /\ infrastructure.AddTask 1 "task-2" restarted_pool
      = (restarted_pool, Some "пул воркеров завершает работу"))
  /\ (infrastructure.running restarted_full_pool = true
      /\ length (infrastructure.taskQueue restarted_full_pool) = 100%nat
      /\ forall choice,
           infrastructure.AddTask choice "task-2" restarted_full_pool
           = (restarted_full_pool, Some "пул воркеров завершает работу")).
Proof.
  split.
  - vm_compute. repeat split.
  - split; [vm_compute; reflexivity |]. split; [vm_compute; reflexivity |].
    intros choice. apply AddTask_cancelled_full.
    + vm_compute. reflexivity.
    + vm_compute. reflexivity.
    + unfold saturated. vm_compute. apply le_n.
Qed.

(** * Further properties of the code *)

(** ** The task state machine, continued *)

Lemma completed_not_failed (files : list File) :
  all_completed files = true -> any_failed files = false.
Proof.
  induction files as [|f files IH]; [reflexivity |].
  cbn [all_completed any_failed].
  destruct (String.eqb_spec (Status f) "completed") as [Hc | Hc]; [| discriminate].
  rewrite Hc. cbn. exact IH.
Qed.

Lemma filter_completed_all (files : list File) :
  length (filter (fun f => Status f = "completed") files) = length files
  <-> Forall (fun f => Status f = "completed") files.
Proof.
  induction files as [|f files IH].
  - split; [constructor | reflexivity].
  - rewrite filter_cons. pose proof (filter_length_le_files files) as Hle.
    destruct (decide (Status f = "completed")) as [Hc | Hc]; cbn [length].
    + split.
      * intros H. constructor; [exact Hc | apply IH; lia].
      * intros H. inversion H; subst. f_equal. apply IH. assumption.
    + split; [lia |]. intros H. inversion H; subst. contradiction.
Qed.

(** The value of [GetProgress] for a task with files, when the count
    times 100 fits [int]. *)
Lemma GetProgress_quotient (t : Task) :
  Files t <> [] ->
  Z.of_nat (length (Files t)) * 100 <= max_int ->
  GetProgress t
  = (Z.of_nat (completedFileCount t) * 100) `div` Z.of_nat (length (Files t)).
Proof.
  intros Hne Hfits. unfold GetProgress, completedFileCount.
  destruct (Files t) as [|f files] eqn:Hfiles; [contradiction |].
  cbn [length Nat.eqb].
  pose proof (filter_length_le_files (f :: files)) as Hle.
  rewrite count_completed_bounds; [| lia | unfold max_int in *; cbn [length] in *; lia].
  rewrite Z.add_0_l.
  set (c := Z.of_nat (length (filter _ (f :: files)))) in *.
  assert (Hc : 0 <= c <= Z.of_nat (length (f :: files))) by (unfold c; lia).
  assert (Hw : wrap_int (c * 100) = c * 100).
  { unfold wrap_int, max_int in *. rewrite Z.mod_small by lia. lia. }
  rewrite Hw. cbn [length] in *. apply Z.quot_div_nonneg; lia.
Qed.

(** X1. [IsFailed] is true exactly when at least one file's status is
    ["failed"], whatever the other files' statuses. *)
Theorem IsFailed_iff_some_file_failed (t : Task) :
  IsFailed t = true <-> Exists (fun f => Status f = "failed") (Files t).
Proof. unfold IsFailed. apply any_failed_Exists. Qed.

(** X2. [IsCompleted] and [IsFailed] never hold together, so the order
    in which [ProcessTask] tests them does not matter. *)
Theorem IsCompleted_excludes_IsFailed (t : Task) :
  IsCompleted t && IsFailed t = false.
Proof.
  unfold IsCompleted, IsFailed.
  destruct (length (Files t) =? 0)%nat; [reflexivity |].
  destruct (all_completed (Files t)) eqn:Hc; [| reflexivity].
  rewrite (completed_not_failed _ Hc). reflexivity.
Qed.

(** X3. For a file count whose hundredfold fits [int], [GetProgress]
    lies between 0 and 100, and it is 100 exactly when [IsCompleted]
    holds. *)
Theorem GetProgress_bounds_and_full (t : Task) :
  Z.of_nat (length (Files t)) * 100 <= max_int ->
  0 <= GetProgress t <= 100
  /\ (GetProgress t = 100 <-> IsCompleted t = true).
Proof.
  intros Hfits.
  destruct (Files t) as [|f files] eqn:Hfiles.
  { unfold GetProgress, IsCompleted. rewrite Hfiles. cbn.
    split; [lia | split; discriminate]. }
  assert (Hne : Files t <> []) by (rewrite Hfiles; discriminate).
  assert (Hfits' : Z.of_nat (length (Files t)) * 100 <= max_int)
    by (rewrite Hfiles; exact Hfits).
  rewrite (GetProgress_quotient t Hne Hfits').
  unfold IsCompleted, completedFileCount. rewrite Hfiles.
  cbn [length Nat.eqb]. rewrite all_completed_Forall, <- filter_completed_all.
  pose proof (filter_length_le_files (f :: files)) as Hle.
  set (c := length (filter _ (f :: files))) in *.
  cbn [length] in *. set (n := S (length files)) in *.
  assert (Hn : 0 < Z.of_nat n) by lia.
  split.
  - split.
    + apply Z.div_pos; lia.
    + apply Z.div_le_upper_bound; lia.
  - split.
    + intros Hfull. destruct (decide (c = n)) as [Heq | Hlt]; [exact Heq |].
      exfalso.
      assert ((Z.of_nat c * 100) `div` Z.of_nat n < 100).
      { apply Z.div_lt_upper_bound; lia. }
      lia.
    + intros ->. rewrite Z.mul_comm. apply Z.div_mul. lia.
Qed.

(** A task with three files, two of them completed. *)
Lemma GetProgress_bounds_and_full_witness :
  let t := mkTask "t1" ["u1"; "u2"; "u3"] TaskStatusProcessing 0 0
             [mkFile "u1" "a" 1 "completed" EmptyString;
              mkFile "u2" EmptyString 0 "failed" "e";
              mkFile "u3" "c" 3 "completed" EmptyString] EmptyString in
  0 <= GetProgress t <= 100
  /\ (GetProgress t = 100 <-> IsCompleted t = true).
Proof.
  intros t. apply (GetProgress_bounds_and_full t). vm_compute. discriminate.
Defined.

Lemma count_completed_zero_files (n : nat) (acc : Z) :
  count_completed (replicate n zero_File) acc = acc.
Proof. induction n as [|n IH]; [reflexivity | exact IH]. Qed.

(** X4. A task fresh from [NewTask], whatever its URLs, is new, holds
    the URLs it was given and one zero-valued file record per URL, is
    neither completed nor failed, and shows progress 0. *)
Theorem NewTask_is_fresh (id : string) (now : Z) (urls : list string) :
  let t := NewTask id now urls in
  TStatus t = TaskStatusNew
  /\ URLs t = urls
  /\ length (Files t) = length urls
  /\ Forall (fun f => f = zero_File) (Files t)
  /\ IsCompleted t = false /\ IsFailed t = false /\ GetProgress t = 0.
Proof.
  cbv zeta. split; [reflexivity |]. split; [reflexivity |].
  split; [apply length_replicate |].
  split; [apply Forall_replicate; reflexivity |].
  unfold IsCompleted, IsFailed, GetProgress, NewTask. cbn [Files].
  rewrite length_replicate.
  destruct urls as [|u urls]; [repeat split |].
  cbn [length Nat.eqb]. split; [reflexivity |]. split.
  - cbn [replicate any_failed]. cbn.
    induction (length urls) as [|n IH]; [reflexivity | exact IH].
  - rewrite count_completed_zero_files. reflexivity.
Qed.

(** ** The in-memory repository *)

(** X5. Round trip of the in-memory repository: after [Create] the task
    is found under its identifier; after [Delete] of that identifier it
    is not found any more; the other entries and the task objects are
    left alone. *)
Theorem repository_Create_GetByID_Delete (w : World) (p : loc) (t : Task) :
  heap w !! p = Some t ->
  let w1 := snd (repository.Create p w) in
  let w2 := snd (repository.Delete (ID t) w1) in
  fst (repository.Create p w) = Ret None
  /\ repository.GetByID (ID t) w1 = (Ret (inr p), w1)
  /\ fst (repository.Delete (ID t) w1) = Ret None
  /\ repository.GetByID (ID t) w2 = (Ret (inl (repository.not_found (ID t))), w2)
  /\ (forall id, id <> ID t -> taskRepo w2 !! id = taskRepo w !! id)
  /\ heap w2 = heap w.
Proof.
  intros Hp.
  assert (Hcreate : repository.Create p w
                    = (Ret None, mkWorld (heap w) (<[ID t := p]> (taskRepo w)) (trace w))).
  { unfold repository.Create, bind, load. rewrite Hp. reflexivity. }
  rewrite Hcreate. cbn [fst snd].
  set (w1 := mkWorld (heap w) (<[ID t := p]> (taskRepo w)) (trace w)).
  assert (Hfound : taskRepo w1 !! ID t = Some p) by apply lookup_insert_eq.
  assert (Hdelete : repository.Delete (ID t) w1
                    = (Ret None, mkWorld (heap w) (delete (ID t) (taskRepo w1)) (trace w))).
  { unfold repository.Delete, bind, repo_lookup. rewrite Hfound. reflexivity. }
  rewrite Hdelete. cbn [fst snd].
  split; [reflexivity |]. split.
  { unfold repository.GetByID, bind, repo_lookup. rewrite Hfound. reflexivity. }
  split; [reflexivity |]. split.
  { unfold repository.GetByID, bind, repo_lookup. cbn [taskRepo].
    rewrite lookup_delete_eq. reflexivity. }
  split; [| reflexivity].
  intros id Hne. cbn [taskRepo w1].
  rewrite lookup_delete_ne, lookup_insert_ne by congruence. reflexivity.
Qed.

(** The two-file task at location 0 of its world. *)
Lemma repository_Create_GetByID_Delete_witness :
  let w1 := snd (repository.Create 0%nat two_file_World) in
  let w2 := snd (repository.Delete "task-1" w1) in
  fst (repository.Create 0%nat two_file_World) = Ret None
  /\ repository.GetByID "task-1" w1 = (Ret (inr 0%nat), w1)
  /\ fst (repository.Delete "task-1" w1) = Ret None
  /\ repository.GetByID "task-1" w2 = (Ret (inl (repository.not_found "task-1")), w2)
  /\ (forall id, id <> "task-1" -> taskRepo w2 !! id = taskRepo two_file_World !! id)
  /\ heap w2 = heap two_file_World.
Proof.
  apply (repository_Create_GetByID_Delete two_file_World 0%nat two_file_task).
  reflexivity.
Defined.

(** X6. [Update] and [Delete] refuse an identifier the repository does
    not hold, with the not-found error and without changing anything;
    [Update] of a known identifier stores the pointer and adds no key. *)
Theorem repository_Update_Delete_unknown (w : World) (p : loc) (t : Task) :
  heap w !! p = Some t ->
  (taskRepo w !! ID t = None ->
   repository.Update p w = (Ret (Some (repository.not_found (ID t))), w)
   /\ repository.Delete (ID t) w = (Ret (Some (repository.not_found (ID t))), w))
  /\ (is_Some (taskRepo w !! ID t) ->
      exists w', repository.Update p w = (Ret None, w')
                 /\ taskRepo w' !! ID t = Some p
                 /\ dom (taskRepo w') = dom (taskRepo w)
                 /\ heap w' = heap w).
Proof.
  intros Hp. split.
  - intros Hnone. split.
    + unfold repository.Update, bind, load, repo_lookup. rewrite Hp, Hnone. reflexivity.
    + unfold repository.Delete, bind, repo_lookup. rewrite Hnone. reflexivity.
  - intros [q Hq]. eexists. split.
    + unfold repository.Update, bind, load, repo_lookup, repo_insert.
      rewrite Hp, Hq. reflexivity.
    + cbn [taskRepo heap]. split; [apply lookup_insert_eq |].
      split; [| reflexivity].
      rewrite dom_insert_L.
      assert (Hdom : ID t ∈ dom (taskRepo w)) by (apply elem_of_dom; exists q; exact Hq).
      apply subseteq_union_1_L, singleton_subseteq_l, Hdom.
Qed.

(** The two-file task as an object the repository does not know, where
    [Update] and [Delete] refuse it, and in the world that holds it,
    where [Update] stores it. *)
Lemma repository_Update_Delete_unknown_witness :
  (repository.Update 0%nat unregistered_World
   = (Ret (Some (repository.not_found "task-1")), unregistered_World)
   /\ repository.Delete "task-1" unregistered_World
      = (Ret (Some (repository.not_found "task-1")), unregistered_World))
  /\ (exists w', repository.Update 0%nat two_file_World = (Ret None, w')
                 /\ taskRepo w' !! "task-1" = Some 0%nat
                 /\ dom (taskRepo w') = dom (taskRepo two_file_World)
                 /\ heap w' = heap two_file_World).
Proof.
  split.
  - apply (proj1 (repository_Update_Delete_unknown unregistered_World 0%nat
                    two_file_task eq_refl)).
    reflexivity.
  - apply (proj2 (repository_Update_Delete_unknown two_file_World 0%nat
                    two_file_task eq_refl)).
    vm_compute. eexists. reflexivity.
Defined.

(** The loop of [GetPendingTasks] over entries whose pointers are all
    valid. *)
Lemma GetPendingTasks_loop_valid (w : World) (entries : list (string * loc)) :
  Forall (fun e => is_Some (heap w !! e.2)) entries ->
  exists l,
    GetPendingTasks_loop entries w = (Ret l, w)
    /\ forall p, p ∈ l <->
         exists id t, (id, p) ∈ entries /\ heap w !! p = Some t
                      /\ is_pending t = true.
Proof.
  induction 1 as [|[id q] entries [t Ht] _ (l & Hrun & Hl)].
  - exists []. split; [reflexivity |]. intros p. split.
    + intros H. apply elem_of_nil in H. contradiction.
    + intros (id & t & H & _). apply elem_of_nil in H. contradiction.
  - cbn [snd] in Ht. cbn [GetPendingTasks_loop].
    exists (if is_pending t then q :: l else l). split.
    + unfold bind at 1. unfold load. rewrite Ht.
      unfold bind. rewrite Hrun. reflexivity.
    + intros p. split.
      * intros Hin.
        assert (Hcases : (p = q /\ is_pending t = true) \/ p ∈ l).
        { destruct (is_pending t); [| right; exact Hin].
          apply elem_of_cons in Hin as [-> | Hin]; [left; auto | right; exact Hin]. }
        destruct Hcases as [[-> Hpending] | Hin'].
        -- exists id, t. split; [apply list_elem_of_here | auto].
        -- apply Hl in Hin' as (id' & t' & Hin' & Hrest).
           exists id', t'. split; [apply list_elem_of_further; exact Hin' | exact Hrest].
      * intros (id' & t' & Hin & Ht' & Hpending).
        apply elem_of_cons in Hin as [Heq | Hin].
        -- injection Heq as -> ->. replace t with t' by congruence.
           rewrite Hpending. apply list_elem_of_here.
        -- assert (p ∈ l) by (apply Hl; eauto).
           destruct (is_pending t); [apply list_elem_of_further |]; assumption.
Qed.

(** X7. [GetPendingTasks], in whatever order the map is iterated,
    returns exactly the stored tasks whose status is new or processing,
    and changes nothing. *)
Theorem GetPendingTasks_exactly_pending (w : World) (entries : list (string * loc)) :
  entries ≡ₚ map_to_list (taskRepo w) ->
  (forall id p, taskRepo w !! id = Some p -> is_Some (heap w !! p)) ->
  exists l,
    GetPendingTasks_loop entries w = (Ret l, w)
    /\ forall p, p ∈ l <->
         exists id t, taskRepo w !! id = Some p /\ heap w !! p = Some t
                      /\ is_pending t = true.
Proof.
  intros Hperm Hvalid.
  assert (Hin : forall id p, (id, p) ∈ entries <-> taskRepo w !! id = Some p).
  { intros id p. rewrite Hperm. apply elem_of_map_to_list. }
  destruct (GetPendingTasks_loop_valid w entries) as (l & Hrun & Hl).
  { apply Forall_forall. intros [id p] He. apply (Hvalid id p), Hin, He. }
  exists l. split; [exact Hrun |].
  intros p. rewrite Hl. split.
  - intros (id & t & Hentry & Hrest). exists id, t.
    split; [apply Hin; exact Hentry | exact Hrest].
  - intros (id & t & Hentry & Hrest). exists id, t.
    split; [apply Hin; exact Hentry | exact Hrest].
Qed.

(** The world of the two-file task: the task is new, so it is pending. *)
Lemma GetPendingTasks_exactly_pending_witness :
  exists l,
    GetPendingTasks_loop (map_to_list (taskRepo two_file_World)) two_file_World
    = (Ret l, two_file_World)
    /\ forall p, p ∈ l <->
         exists id t, taskRepo two_file_World !! id = Some p
                      /\ heap two_file_World !! p = Some t
                      /\ is_pending t = true.
Proof.
  apply (GetPendingTasks_exactly_pending two_file_World).
  - reflexivity.
  - intros id p Hp.
    assert (Hid : p = 0%nat).
    { destruct (decide (id = "task-1")) as [-> | Hne].
      - vm_compute in Hp. congruence.
      - unfold two_file_World in Hp. vm_compute taskRepo in Hp.
        change (({["task-1" := 0%nat]} : gmap string loc) !! id = Some p) in Hp.
        rewrite lookup_singleton_ne in Hp by congruence. discriminate. }
    subst p. eexists. reflexivity.
Defined.

(** ** Creating tasks *)

Lemma has_empty_url_elem (urls : list string) :
  has_empty_url urls = true <-> EmptyString ∈ urls.
Proof.
  induction urls as [|url urls IH]; cbn [has_empty_url].
  - split; [discriminate | intros H; apply elem_of_nil in H; contradiction].
  - destruct url as [|c url]; cbn [GoStrings.nonempty].
    + split; [intros _; apply list_elem_of_here | reflexivity].
    + rewrite IH. split.
      * intros H. apply list_elem_of_further. exact H.
      * intros H. apply elem_of_cons in H as [H | H]; [discriminate | exact H].
Qed.

Lemma with_Files_same (t : Task) : with_Files (Files t) t = t.
Proof. destruct t; reflexivity. Qed.

Section creation.

Variable E : Env.
Variables (p : loc) (h0 : list Task).
Hypothesis Hp : (p < length h0)%nat.

(** The loop of [CreateTask] that fills in the file records from index
    [i] on. *)
Lemma CreateTask_init_at (urls : list string) :
  forall i t r tr,
    (i + length urls)%nat = length (Files t) ->
    CreateTask_init p i urls (at_task p h0 t r tr)
    = (Ret tt,
       at_task p h0
         (with_Files (take i (Files t) ++ map pending_file urls) t) r tr).
Proof.
  induction urls as [|url urls IH]; intros i t r tr Hlen; cbn [CreateTask_init].
  - cbn [length] in Hlen. cbn [map]. rewrite app_nil_r, take_ge by lia.
    rewrite with_Files_same. reflexivity.
  - cbn [length] in Hlen.
    destruct (lookup_lt_is_Some_2 (Files t) i ltac:(lia)) as [f Hf].
    rewrite (bind_Ret _ _ _ _ _ (load_at p h0 Hp _ _ _)).
    assert (Hfz : Files t !! Z.to_nat (Z.of_nat i) = Some f)
      by (rewrite Nat2Z.id; exact Hf).
    rewrite (file_at_Some p h0 Hp _ _ _ (Nat2Z.is_nonneg i) Hfz).
    rewrite (bind_Ret (ret f) _ _ _ _ eq_refl).
    rewrite (bind_Ret _ _ _ _ _ (modify_at p h0 Hp _ _ _ _)).
    set (t1 := set_file i (fun _ => mkFile url EmptyString 0 "pending" EmptyString) t).
    assert (Hfiles1 : Files t1
                      = alter (fun _ => pending_file url) i (Files t)) by reflexivity.
    rewrite (IH (S i) t1 r tr) by (rewrite Hfiles1, length_alter; lia).
    f_equal. f_equal.
    assert (Htake : take (S i) (Files t1) = (take i (Files t) ++ [pending_file url])%list).
    { rewrite (take_S_r _ _ (pending_file url)).
      - rewrite Hfiles1, take_alter_ge by lia. reflexivity.
      - rewrite Hfiles1, list_lookup_alter_eq, Hf. reflexivity. }
    rewrite Htake, <- app_assoc. reflexivity.
Qed.

End creation.

(** [CreateTask] on valid URLs: the task object is put on the heap and
    stored in the in-memory repository before the durable repository is
    asked; its answer decides what is returned. *)
Lemma CreateTask_run (E : Env) (urls : list string) (w : World) :
  urls <> [] -> EmptyString ∉ urls ->
  let id := uuid_New E (length (trace w)) in
  let t := created_task id (time_Now E (length (trace w))) urls in
  let res := persistent_Create E (length (trace w)) t in
  CreateTask E urls w
  = (Ret (match res with
          | Some e => inl ("не удалось сохранить задачу: " +:+ e)
          | None => inr (length (heap w))
          end),
     mkWorld (heap w ++ [t]) (<[id := length (heap w)]> (taskRepo w))
       (trace w ++ [EvPersistCreate t res])).
Proof.
  intros Hne Hnonempty id t res. unfold CreateTask.
  assert (Hlen0 : (length urls =? 0)%nat = false).
  { destruct urls; [contradiction | reflexivity]. }
  rewrite Hlen0.
  assert (Hvalid : has_empty_url urls = false).
  { destruct (has_empty_url urls) eqn:Hempty; [| reflexivity].
    apply has_empty_url_elem in Hempty. contradiction. }
  rewrite Hvalid.
  rewrite (bind_Ret _ _ _ _ _ (call_NewTask_run E urls w)).
  set (q := length (heap w)).
  set (t0 := NewTask (uuid_New E (length (trace w))) (time_Now E (length (trace w))) urls).
  set (h0 := (heap w ++ [t0])%list).
  assert (Hq : (q < length h0)%nat).
  { unfold h0, q. rewrite length_app. cbn [length]. lia. }
  assert (Hh0 : h0 !! q = Some t0) by (apply list_lookup_middle; reflexivity).
  assert (Hstart : mkWorld h0 (taskRepo w) (trace w)
                   = at_task q h0 t0 (taskRepo w) (trace w)).
  { unfold at_task. rewrite list_insert_id by exact Hh0. reflexivity. }
  rewrite Hstart.
  rewrite (bind_Ret _ _ _ _ _
             (CreateTask_init_at q h0 Hq urls 0%nat t0 _ _
                ltac:(unfold t0, NewTask; cbn [Files]; rewrite length_replicate; reflexivity))).
  assert (Ht : with_Files (take 0 (Files t0) ++ map pending_file urls) t0 = t).
  { reflexivity. }
  rewrite Ht.
  unfold repository.Create.
  rewrite (bind_Ret _ _ _ (at_task q h0 t (<[ID t := q]> (taskRepo w)) (trace w)) None).
  2: { rewrite (bind_Ret _ _ _ _ _ (load_at q h0 Hq _ _ _)).
       rewrite (bind_Ret _ _ _ _ _ (repo_insert_at q h0 _ _ _ _ _)). reflexivity. }
  unfold persistentRepo_Create.
  rewrite (bind_Ret _ _ _
             (at_task q h0 t (<[ID t := q]> (taskRepo w))
                (trace w ++ [EvPersistCreate t res])) res).
  2: { rewrite (bind_Ret _ _ _ _ _ (load_at q h0 Hq _ _ _)).
       rewrite (bind_Ret _ _ _ _ _ (ask_at q h0 _ _ _ _)).
       rewrite (bind_Ret _ _ _ _ _ (emit_at q h0 _ _ _ _)). reflexivity. }
  assert (Hworld : at_task q h0 t (<[ID t := q]> (taskRepo w))
                     (trace w ++ [EvPersistCreate t res])
                   = mkWorld (heap w ++ [t]) (<[id := q]> (taskRepo w))
                       (trace w ++ [EvPersistCreate t res])).
  { unfold at_task, h0. f_equal.
    apply list_eq. intros j. destruct (decide (j = q)) as [-> | Hj].
    - rewrite list_lookup_insert_eq by exact Hq.
      symmetry. apply list_lookup_middle. reflexivity.
    - rewrite list_lookup_insert_ne by congruence.
      destruct (decide (j < q)%nat) as [Hlt | Hge].
      + rewrite !lookup_app_l by exact Hlt. reflexivity.
      + rewrite !lookup_ge_None_2; [reflexivity | |];
          rewrite length_app; cbn [length]; unfold q in *; lia. }
  rewrite Hworld. destruct res; reflexivity.
Qed.

(** X8. [CreateTask] rejects an empty list of URLs and a list with an
    empty URL, each with its own error, before it creates anything: the
    world is left as it was. *)
Theorem CreateTask_validation (E : Env) (urls : list string) (w : World) :
  (urls = [] ->
   CreateTask E urls w = (Ret (inl "не предоставлены URL"), w))
  /\ (urls <> [] -> EmptyString ∈ urls ->
      CreateTask E urls w = (Ret (inl "предоставлен пустой URL"), w))
  /\ (urls <> [] -> EmptyString ∉ urls ->
      length (heap (snd (CreateTask E urls w))) = S (length (heap w))).
Proof.
  split; [intros ->; reflexivity |]. split.
  - intros Hne Hempty. unfold CreateTask.
    destruct urls as [|u urls]; [contradiction |]. cbn [length Nat.eqb].
    apply has_empty_url_elem in Hempty. rewrite Hempty. reflexivity.
  - intros Hne Hvalid. rewrite (CreateTask_run E urls w Hne Hvalid).
    cbn [snd heap]. rewrite length_app. cbn [length]. lia.
Qed.

(** X9. A successful [CreateTask]: when the URLs are valid and the
    durable repository accepts the task, the task returned is new, has
    the given URLs and one pending file record per URL carrying that URL,
    shows progress 0, and is stored in the in-memory repository under its
    identifier, where [GetTask] finds it. *)
Theorem CreateTask_success (E : Env) (urls : list string) (w : World) :
  urls <> [] -> EmptyString ∉ urls ->
  (forall t, persistent_Create E (length (trace w)) t = None) ->
  exists task w' t,
    CreateTask E urls w = (Ret (inr task), w')
    /\ heap w' !! task = Some t
    /\ TStatus t = TaskStatusNew
    /\ URLs t = urls
    /\ Files t = map pending_file urls
    /\ GetProgress t = 0
    /\ taskRepo w' !! ID t = Some task
    /\ GetTask (ID t) w' = (Ret (inr task), w')
    /\ (forall q t0, heap w !! q = Some t0 -> heap w' !! q = Some t0).
Proof.
  intros Hne Hvalid Haccepted.
  pose proof (CreateTask_run E urls w Hne Hvalid) as Hrun. cbv zeta in Hrun.
  rewrite Haccepted in Hrun.
  eexists _, _, _. split; [exact Hrun |].
  cbn [heap taskRepo].
  split; [apply list_lookup_middle; reflexivity |].
  split; [reflexivity |]. split; [reflexivity |]. split; [reflexivity |].
  split.
  { unfold GetProgress, created_task. cbn [Files].
    destruct (length (map pending_file urls) =? 0)%nat; [reflexivity |].
    assert (Hcount : forall l acc,
              count_completed (map pending_file l) acc = acc).
    { induction l as [|u l IH]; intros acc; [reflexivity | apply IH]. }
    rewrite Hcount. reflexivity. }
  split; [apply lookup_insert_eq |].
  split.
  { unfold GetTask, repository.GetByID, bind, repo_lookup. cbn [taskRepo created_task ID].
    rewrite lookup_insert_eq. reflexivity. }
  intros q t0 Hq. apply lookup_app_l_Some. exact Hq.
Qed.

(** Creating the two-file task in the empty world. *)
Lemma CreateTask_success_witness :
  exists task w' t,
    CreateTask (example_Env None response_200)
      ["https://x/unreachable"; "https://x/b.pdf"] empty_World = (Ret (inr task), w')
    /\ heap w' !! task = Some t
    /\ TStatus t = TaskStatusNew
    /\ URLs t = ["https://x/unreachable"; "https://x/b.pdf"]
    /\ Files t = map pending_file ["https://x/unreachable"; "https://x/b.pdf"]
    /\ GetProgress t = 0
    /\ taskRepo w' !! ID t = Some task
    /\ GetTask (ID t) w' = (Ret (inr task), w')
    /\ (forall q t0, heap empty_World !! q = Some t0 -> heap w' !! q = Some t0).
Proof.
  apply (CreateTask_success (example_Env None response_200)
           ["https://x/unreachable"; "https://x/b.pdf"] empty_World).
  - discriminate.
  - intros H. repeat (apply elem_of_cons in H as [H | H]; [discriminate |]).
    apply elem_of_nil in H. exact H.
  - intros t. reflexivity.
Defined.

(** X10. When the durable repository refuses the new task, [CreateTask]
    returns the wrapped error, not the task; yet the task stays on the
    heap and in the in-memory repository, new and therefore pending. *)
Theorem CreateTask_persist_failure (E : Env) (urls : list string) (w : World) (e : string) :
  urls <> [] -> EmptyString ∉ urls ->
  (forall t, persistent_Create E (length (trace w)) t = Some e) ->
  exists w' t,
    CreateTask E urls w = (Ret (inl ("не удалось сохранить задачу: " +:+ e)), w')
    /\ heap w' !! length (heap w) = Some t
    /\ taskRepo w' !! ID t = Some (length (heap w))
    /\ URLs t = urls
    /\ TStatus t = TaskStatusNew
    /\ is_pending t = true.
Proof.
  intros Hne Hvalid Hrefused.
  pose proof (CreateTask_run E urls w Hne Hvalid) as Hrun. cbv zeta in Hrun.
  rewrite Hrefused in Hrun.
  eexists _, _. split; [exact Hrun |]. cbn [heap taskRepo].
  split; [apply list_lookup_middle; reflexivity |].
  split; [apply lookup_insert_eq |].
  repeat split.
Qed.

(** Creating a task while the disk is full. *)
Lemma CreateTask_persist_failure_witness :
  exists w' t,
    CreateTask (refusing_Env "disk full") ["https://x/a.jpg"] empty_World
    = (Ret (inl ("не удалось сохранить задачу: " +:+ "disk full")), w')
    /\ heap w' !! length (heap empty_World) = Some t
    /\ taskRepo w' !! ID t = Some (length (heap empty_World))
    /\ URLs t = ["https://x/a.jpg"]
    /\ TStatus t = TaskStatusNew
    /\ is_pending t = true.
Proof.
  apply (CreateTask_persist_failure (refusing_Env "disk full")
           ["https://x/a.jpg"] empty_World "disk full").
  - discriminate.
  - intros H. apply elem_of_cons in H as [H | H]; [discriminate |].
    apply elem_of_nil in H. exact H.
  - intros t. reflexivity.
Defined.

(** ** Fetching one file, continued *)

Lemma same_but_file_refl (i : Z) (t : Task) : same_but_file i t t.
Proof. unfold same_but_file. repeat split. Qed.

Lemma same_but_file_set_file (i : Z) (G : File -> File) (t : Task) :
  0 <= i -> same_but_file i t (set_file (Z.to_nat i) G t).
Proof.
  intros Hi. unfold same_but_file, set_file. cbn. repeat split.
  - apply length_alter.
  - intros j Hj. apply list_lookup_alter_ne. lia.
Qed.

(** [DownloadFile] for a task identifier the repository does not hold. *)
Lemma DownloadFile_unknown_run (E : Env) (url taskID : string) (i : Z) (w : World) :
  taskRepo w !! taskID = None ->
  let err := "не удалось получить задачу: " +:+ repository.not_found taskID in
  DownloadFile E url taskID i w
  = (Ret (Some err),
     mkWorld (heap w) (taskRepo w)
       (trace w ++ [EvDownloadFile url taskID i (Some err)])).
Proof.
  intros Hnone err.
  unfold DownloadFile, DownloadFile_body, repository.GetByID, bind, repo_lookup.
  rewrite Hnone. reflexivity.
Qed.

(** [DownloadFile] for an identifier stored with a pointer to nothing. *)
Lemma DownloadFile_dangling_run (E : Env) (url taskID : string) (i : Z)
    (w : World) (p : loc) :
  taskRepo w !! taskID = Some p -> heap w !! p = None ->
  snd (DownloadFile E url taskID i w) = w.
Proof.
  intros Hsome Hnone.
  unfold DownloadFile, DownloadFile_body, repository.GetByID, bind, repo_lookup, load.
  rewrite Hsome. cbn. rewrite Hnone. reflexivity.
Qed.

(** X11. Whatever it returns, [DownloadFile] leaves the repository as it
    is and changes at most one file record: the one at [fileIndex] of the
    task stored under [taskID].  Every other file record, every other
    task, and the status, URLs, error message and time stamps of that
    task are untouched. *)
Theorem DownloadFile_touches_one_file
    (E : Env) (url taskID : string) (i : Z) (w : World) :
  let w' := snd (DownloadFile E url taskID i w) in
  taskRepo w' = taskRepo w
  /\ length (heap w') = length (heap w)
  /\ forall q t,
       heap w !! q = Some t ->
       exists t', heap w' !! q = Some t'
                  /\ same_but_file i t t'
                  /\ (taskRepo w !! taskID <> Some q -> t' = t).
Proof.
  intros w'.
  assert (Hsame : forall w0, heap w0 = heap w -> taskRepo w0 = taskRepo w ->
            taskRepo w0 = taskRepo w /\ length (heap w0) = length (heap w)
            /\ forall q t, heap w !! q = Some t ->
                 exists t', heap w0 !! q = Some t' /\ same_but_file i t t'
                            /\ (taskRepo w !! taskID <> Some q -> t' = t)).
  { intros w0 Hh Hr. rewrite Hh. split; [exact Hr |]. split; [reflexivity |].
    intros q t Hq. exists t. split; [exact Hq |].
    split; [apply same_but_file_refl | reflexivity]. }
  destruct (taskRepo w !! taskID) as [p|] eqn:Hrepo.
  2: { apply Hsame; subst w';
       rewrite (DownloadFile_unknown_run E url taskID i w Hrepo); reflexivity. }
  destruct (heap w !! p) as [t0|] eqn:Hheap.
  2: { apply Hsame; subst w';
       rewrite (DownloadFile_dangling_run E url taskID i w p Hrepo Hheap);
       reflexivity. }
  pose proof (lookup_lt_Some _ _ _ Hheap) as Hlt.
  assert (Hcases : i < 0 \/ Z.of_nat (length (Files t0)) <= i
                   \/ exists f, 0 <= i /\ Files t0 !! Z.to_nat i = Some f).
  { destruct (Z.ltb_spec i 0) as [Hneg | Hpos]; [left; exact Hneg | right].
    destruct (Z.leb_spec (Z.of_nat (length (Files t0))) i) as [Hge | Hlt'];
      [left; exact Hge | right].
    destruct (lookup_lt_is_Some_2 (Files t0) (Z.to_nat i) ltac:(lia)) as [f Hf].
    exists f. auto. }
  destruct Hcases as [Hneg | [Hge | (f & Hpos & Hf)]].
  - pose proof (DownloadFile_negative_at E p (heap w) Hlt url taskID i t0
                  (taskRepo w) (trace w) Hrepo Hneg) as Hrun.
    rewrite <- (at_task_initial w p t0 Hheap) in Hrun.
    apply Hsame; subst w'; rewrite Hrun; reflexivity.
  - pose proof (DownloadFile_beyond_at E p (heap w) Hlt url taskID i t0
                  (taskRepo w) (trace w) Hrepo Hge) as Hrun.
    rewrite <- (at_task_initial w p t0 Hheap) in Hrun.
    apply Hsame; subst w'; rewrite Hrun; [| reflexivity].
    cbn [snd]. unfold at_task. cbn [heap]. apply list_insert_id. exact Hheap.
  - destruct (DownloadFile_at E p (heap w) Hlt url taskID i t0 (taskRepo w) (trace w) f
                Hrepo Hpos Hf) as (res & G & Hrun & _).
    rewrite <- (at_task_initial w p t0 Hheap) in Hrun.
    subst w'. rewrite Hrun. cbn [snd]. unfold at_task. cbn [heap taskRepo].
    split; [reflexivity |]. split; [apply length_insert |].
    intros q t Hq. destruct (decide (q = p)) as [-> | Hne].
    + replace t with t0 by congruence.
      exists (set_file (Z.to_nat i) G t0).
      split; [apply list_lookup_insert_eq; exact Hlt |].
      split; [apply same_but_file_set_file; exact Hpos |].
      intros Hother. contradiction.
    + exists t. rewrite list_lookup_insert_ne by congruence.
      split; [exact Hq |]. split; [apply same_but_file_refl | reflexivity].
Qed.

(** X12. [DownloadFile] for a task identifier the repository does not
    hold returns the wrapped not-found error and touches no task object
    and no repository entry. *)
Theorem DownloadFile_unknown_task
    (E : Env) (url taskID : string) (i : Z) (w : World) :
  taskRepo w !! taskID = None ->
  fst (DownloadFile E url taskID i w)
  = Ret (Some ("не удалось получить задачу: " +:+ repository.not_found taskID))
  /\ heap (snd (DownloadFile E url taskID i w)) = heap w
  /\ taskRepo (snd (DownloadFile E url taskID i w)) = taskRepo w.
Proof.
  intros Hnone. rewrite (DownloadFile_unknown_run E url taskID i w Hnone).
  repeat split.
Qed.

(** A download for a task nobody created. *)
Lemma DownloadFile_unknown_task_witness :
  fst (DownloadFile (example_Env None response_200) "https://x/a.jpg" "task-9" 0
         two_file_World)
  = Ret (Some ("не удалось получить задачу: " +:+ repository.not_found "task-9"))
  /\ heap (snd (DownloadFile (example_Env None response_200) "https://x/a.jpg"
                  "task-9" 0 two_file_World)) = heap two_file_World
  /\ taskRepo (snd (DownloadFile (example_Env None response_200) "https://x/a.jpg"
                      "task-9" 0 two_file_World)) = taskRepo two_file_World.
Proof.
  apply (DownloadFile_unknown_task (example_Env None response_200)
           "https://x/a.jpg" "task-9" 0 two_file_World).
  vm_compute. reflexivity.
Defined.

(** X13. [DownloadFile] with an index at or beyond the end of the file
    list returns the out-of-range error naming the index, and touches no
    task object and no repository entry. *)
Theorem DownloadFile_index_too_large
    (E : Env) (w : World) (url taskID : string) (i : Z) (task : loc) (t : Task) :
  taskRepo w !! taskID = Some task ->
  heap w !! task = Some t ->
  Z.of_nat (length (Files t)) <= i ->
  fst (DownloadFile E url taskID i w)
  = Ret (Some ("неверный индекс файла: " +:+ GoStrings.fmt_d i))
  /\ heap (snd (DownloadFile E url taskID i w)) = heap w
  /\ taskRepo (snd (DownloadFile E url taskID i w)) = taskRepo w.
Proof.
  intros Hrepo Hheap Hi.
  pose proof (lookup_lt_Some _ _ _ Hheap) as Hlt.
  pose proof (DownloadFile_beyond_at E task (heap w) Hlt url taskID i t
                (taskRepo w) (trace w) Hrepo Hi) as Hrun.
  rewrite <- (at_task_initial w task t Hheap) in Hrun.
  rewrite Hrun. cbn [fst snd]. unfold at_task. cbn [heap taskRepo].
  split; [reflexivity |].
  split; [apply list_insert_id; exact Hheap | reflexivity].
Qed.

(** Index 2 on the two-file task. *)
Lemma DownloadFile_index_too_large_witness :
  fst (DownloadFile (example_Env None response_200) "https://x/b.pdf" "task-1" 2
         two_file_World)
  = Ret (Some ("неверный индекс файла: " +:+ GoStrings.fmt_d 2))
  /\ heap (snd (DownloadFile (example_Env None response_200) "https://x/b.pdf"
                  "task-1" 2 two_file_World)) = heap two_file_World
  /\ taskRepo (snd (DownloadFile (example_Env None response_200) "https://x/b.pdf"
                      "task-1" 2 two_file_World)) = taskRepo two_file_World.
Proof.
  apply (DownloadFile_index_too_large (example_Env None response_200)
           two_file_World "https://x/b.pdf" "task-1" 2 0%nat two_file_task).
  - reflexivity.
  - reflexivity.
  - vm_compute. discriminate.
Defined.

(** ** File names, continued *)

Lemma has_byte_app (c : ascii) (s1 s2 : string) :
  has_byte c (s1 +:+ s2) = has_byte c s1 || has_byte c s2.
Proof.
  induction s1 as [|d s1 IH]; [reflexivity |].
  change (String d s1 +:+ s2) with (String d (s1 +:+ s2)).
  cbn [has_byte]. rewrite IH. destruct (Ascii.eqb d c); reflexivity.
Qed.

Lemma last_segment_from_no_slash (s cur : string) :
  has_byte "/" cur = false -> has_byte "/" (last_segment_from cur s) = false.
Proof.
  revert cur. induction s as [|c s IH]; intros cur Hcur; [exact Hcur |].
  cbn [last_segment_from].
  destruct (Ascii.eqb c "/") eqn:Hc.
  - apply IH. reflexivity.
  - apply IH. rewrite has_byte_app, Hcur. cbn [has_byte orb]. rewrite Hc. reflexivity.
Qed.

Lemma string_of_uint_digits (c : ascii) (d : Decimal.uint) :
  (forall k, In k ["0"; "1"; "2"; "3"; "4"; "5"; "6"; "7"; "8"; "9"]%char -> k <> c) ->
  has_byte c (NilEmpty.string_of_uint d) = false.
Proof.
  intros Hc. induction d as [|d IH|d IH|d IH|d IH|d IH|d IH|d IH|d IH|d IH|d IH];
    [reflexivity | ..];
    cbn [NilEmpty.string_of_uint has_byte]; rewrite IH;
    match goal with
    | |- (if Ascii.eqb ?k c then _ else _) = _ =>
        destruct (Ascii.eqb_spec k c) as [Heq | _]; [| reflexivity];
        exfalso; apply (Hc k); [cbn; tauto | exact Heq]
    end.
Qed.

Lemma fmt_d_bytes (c : ascii) (z : Z) :
  (forall k, In k ["0"; "1"; "2"; "3"; "4"; "5"; "6"; "7"; "8"; "9"; "-"]%char -> k <> c) ->
  has_byte c (GoStrings.fmt_d z) = false.
Proof.
  intros Hc. unfold GoStrings.fmt_d.
  assert (Hu : forall d, has_byte c (NilZero.string_of_uint d) = false).
  { intros d.
    assert (Hd : has_byte c (NilEmpty.string_of_uint d) = false).
    { apply string_of_uint_digits. intros k Hk. apply Hc. cbn in Hk |- *. tauto. }
    destruct d; try exact Hd.
    cbn [NilZero.string_of_uint has_byte].
    destruct (Ascii.eqb_spec "0"%char c) as [Heq | _]; [| reflexivity].
    exfalso. apply (Hc "0"%char); [cbn; tauto | exact Heq]. }
  destruct (Z.to_int z) as [d | d]; cbn [NilZero.string_of_int]; [apply Hu |].
  cbn [has_byte]. rewrite Hu.
  destruct (Ascii.eqb_spec "-"%char c) as [Heq | _]; [| reflexivity].
  exfalso. apply (Hc "-"%char); [cbn; tauto | exact Heq].
Qed.

(** The name [getFileName] takes from the URL alone. *)
Lemma getFileName_no_header (unix : Z) (url : string) :
  getFileName unix url EmptyString
  = if GoStrings.nonempty (url_last_segment url)
       && negb (has_byte "?" (url_last_segment url))
    then url_last_segment url
    else "file_" +:+ GoStrings.fmt_d unix.
Proof.
  unfold getFileName. cbn [GoStrings.nonempty]. cbv zeta.
  unfold GoStrings.Split at 1.
  rewrite Split_rounds_nonempty.
  rewrite nth_pred_length_last. unfold GoStrings.Split.
  rewrite Split_rounds_last by lia.
  rewrite Contains_question_mark. reflexivity.
Qed.

(** X14. [getFileName] never returns the empty name, whatever the URL
    and the Content-Disposition header are. *)
Theorem getFileName_never_empty (unix : Z) (url contentDisposition : string) :
  GoStrings.nonempty (getFileName unix url contentDisposition) = true.
Proof.
  assert (Hurl : GoStrings.nonempty (getFileName unix url EmptyString) = true).
  { rewrite getFileName_no_header.
    destruct (GoStrings.nonempty (url_last_segment url)) eqn:Hne; [| reflexivity].
    destruct (negb (has_byte "?" (url_last_segment url))); [exact Hne | reflexivity]. }
  unfold getFileName in Hurl |- *. cbn [GoStrings.nonempty] in Hurl. cbv zeta in Hurl |- *.
  destruct (GoStrings.nonempty contentDisposition); [| exact Hurl].
  destruct (1 <? length (GoStrings.Split contentDisposition "filename="))%nat;
    [| exact Hurl].
  destruct (GoStrings.nonempty
              (GoStrings.Trim (nth 1 (GoStrings.Split contentDisposition "filename=")
                                 EmptyString) GoStrings.double_quote)) eqn:Hname;
    [exact Hname | exact Hurl].
Qed.

Lemma last_segment_after_slash (base cur segment : string) :
  has_byte "/" segment = false ->
  last_segment_from cur (base +:+ String "/" segment) = segment.
Proof.
  intros Hsegment. revert cur. induction base as [|c base IH]; intros cur.
  - change (EmptyString +:+ String "/" segment) with (String "/" segment).
    cbn [last_segment_from Ascii.eqb Bool.eqb].
    rewrite last_segment_from_Cut.
    assert (Hnone : after_marker "/" segment = None).
    { clear cur. induction segment as [|d segment IHs]; [reflexivity |].
      cbn [has_byte] in Hsegment.
      destruct (Ascii.eqb_spec d "/") as [-> | Hne]; [discriminate |].
      cbn [after_marker GoStrings.HasPrefix].
      assert (Hsym : Ascii.eqb "/" d = false) by (apply Ascii.eqb_neq; congruence).
      rewrite Hsym. apply IHs. exact Hsegment. }
    rewrite Hnone. reflexivity.
  - change (String c base +:+ String "/" segment)
      with (String c (base +:+ String "/" segment)).
    cbn [last_segment_from]. destruct (Ascii.eqb c "/"); apply IH.
Qed.

(** X15. When the response has no Content-Disposition header, the name
    [getFileName] returns holds neither a slash nor a question mark.  It
    need not name a file inside the task directory: for a URL that ends
    in [/..] the name is [..]. *)
Theorem getFileName_without_header_is_plain (unix : Z) (url : string) :
  has_byte "/" (getFileName unix url EmptyString) = false
  /\ has_byte "?" (getFileName unix url EmptyString) = false
  /\ getFileName unix (url +:+ "/..") EmptyString = "..".
Proof.
  assert (Hplain : has_byte "/" (getFileName unix url EmptyString) = false
                   /\ has_byte "?" (getFileName unix url EmptyString) = false).
  { rewrite getFileName_no_header.
    assert (Hfallback : forall c, In c ["/"; "?"]%char ->
              has_byte c ("file_" +:+ GoStrings.fmt_d unix) = false).
    { intros c Hc. rewrite has_byte_app, fmt_d_bytes.
      - destruct Hc as [<- | [<- | []]]; reflexivity.
      - intros k Hk Heq. subst k.
        destruct Hc as [<- | [<- | []]]; cbn in Hk;
          repeat (destruct Hk as [Hk | Hk]; [discriminate |]); exact Hk. }
    destruct (GoStrings.nonempty (url_last_segment url)); cbn [andb].
    2: { split; apply Hfallback; cbn; tauto. }
    destruct (has_byte "?" (url_last_segment url)) eqn:Hq; cbn [negb].
    { split; apply Hfallback; cbn; tauto. }
    split; [| exact Hq].
    apply last_segment_from_no_slash. reflexivity. }
  destruct Hplain as [Hslash Hquery].
  split; [exact Hslash |]. split; [exact Hquery |].
  rewrite getFileName_no_header. unfold url_last_segment.
  rewrite (last_segment_after_slash url EmptyString ".." eq_refl). reflexivity.
Qed.

(** ** The task processor under any answers of its environment *)

Section any_answers.

Variable E : Env.
Variables (p : loc) (h0 : list Task).
Hypothesis Hp : (p < length h0)%nat.

Ltac step :=
  cbv beta;
  first [ rewrite (bind_Ret _ _ _ _ _ (load_at p h0 Hp _ _ _))
        | rewrite (bind_Ret _ _ _ _ _ (now_at E p h0 _ _ _))
        | rewrite (bind_Ret _ _ _ _ _ (call_UpdateStatus_at E p h0 Hp _ _ _ _))
        | rewrite (bind_Ret _ _ _ _ _ (call_SetError_at E p h0 Hp _ _ _ _)) ];
  cbv beta.

(** The loop over the files, whatever the durable store answers: it
    returns, leaves the repository as it is, and asks for the files in
    index order until it is through or an update is refused. *)
Lemma ProcessTask_range_any k :
  forall i t r tr,
    r !! ID t = Some p -> (i + k)%nat = length (Files t) ->
    exists res t' evs,
      ProcessTask_range E p (seq i k) (at_task p h0 t r tr)
      = (Ret res, at_task p h0 t' r (tr ++ evs))
      /\ ID t' = ID t /\ URLs t' = URLs t /\ TStatus t' = TStatus t
      /\ length (Files t') = length (Files t)
      /\ download_calls evs `prefix_of`
           imap (fun j f => (URL f, ID t, Z.of_nat (i + j))) (drop i (Files t)).
Proof.
  induction k as [|k IH]; intros i t r tr Hrepo Hlen.
  - exists None, t, []. cbn [seq ProcessTask_range]. rewrite app_nil_r.
    repeat split. apply prefix_nil.
  - cbn [seq ProcessTask_range].
    destruct (lookup_lt_is_Some_2 (Files t) i ltac:(lia)) as [f Hf].
    step.
    assert (Hfz : Files t !! Z.to_nat (Z.of_nat i) = Some f) by (rewrite Nat2Z.id; exact Hf).
    rewrite (file_at_Some p h0 Hp _ _ _ (Nat2Z.is_nonneg i) Hfz).
    rewrite (bind_Ret _ _ _ _ _ (eq_refl : ret f _ = (Ret f, _))).
    destruct (DownloadFile_at E p h0 Hp (URL f) (ID t) (Z.of_nat i) t r tr f Hrepo
                (Nat2Z.is_nonneg i) Hfz) as (res & G & Hrun & _ & _).
    rewrite Nat2Z.id in Hrun.
    rewrite (bind_Ret _ _ _ _ _ Hrun).
    set (G' := match res with
               | Some e => with_Error e ∘ with_Status "failed" ∘ G
               | None => G
               end).
    set (t1 := set_file i G' t).
    set (tr1 := (tr ++ [EvDownloadFile (URL f) (ID t) (Z.of_nat i) res])%list).
    assert (Hmark :
      (match res with
       | Some e => fail_file p i e
       | None => ret tt
       end) (at_task p h0 (set_file i G t) r tr1) = (Ret tt, at_task p h0 t1 r tr1)).
    { unfold t1, G'. destruct res as [e|].
      - rewrite (fail_file_at p h0 Hp), !set_file_set_file. reflexivity.
      - reflexivity. }
    rewrite (bind_Ret _ _ _ _ _ Hmark).
    assert (Hknown : is_Some (r !! ID t1)) by (exists p; exact Hrepo).
    rewrite (bind_Ret _ _ _ _ _ (updateTask_at E p h0 Hp _ _ _ Hknown)).
    change (ID t1) with (ID t). rewrite (insert_id r (ID t) p Hrepo).
    assert (Hcalls : forall rest,
      rest `prefix_of`
        imap (fun j f0 => (URL f0, ID t, Z.of_nat (S i + j))) (drop (S i) (Files t1)) ->
      (URL f, ID t, Z.of_nat i) :: rest `prefix_of`
        imap (fun j f0 => (URL f0, ID t, Z.of_nat (i + j))) (drop i (Files t))).
    { intros rest Hrest. rewrite (drop_S _ _ _ Hf), imap_cons, Nat.add_0_r.
      apply prefix_cons.
      replace (drop (S i) (Files t)) with (drop (S i) (Files t1))
        by (unfold t1, set_file; cbn [Files]; apply drop_alter_lt; lia).
      erewrite imap_ext; [exact Hrest |].
      intros j x _. cbn. do 2 f_equal. lia. }
    destruct (persistent_Update E (length tr1) t1) as [e|] eqn:Hupdate.
    + exists (Some ("не удалось обновить задачу: " +:+ e)), t1,
        [EvDownloadFile (URL f) (ID t) (Z.of_nat i) res; EvPersistUpdate t1 (Some e)].
      split; [unfold tr1; rewrite <- !app_assoc; reflexivity |].
      split; [reflexivity |]. split; [reflexivity |]. split; [reflexivity |].
      split; [unfold t1, set_file; cbn [Files]; apply length_alter |].
      cbn [download_calls]. apply Hcalls, prefix_nil.
    + assert (Hlen1 : (S i + k)%nat = length (Files t1)).
      { unfold t1, set_file. cbn [Files]. rewrite length_alter. lia. }
      destruct (IH (S i) t1 r (tr1 ++ [EvPersistUpdate t1 None])%list Hrepo Hlen1)
        as (res' & t' & evs & Hloop & Hid & Hurls & Hst & Hlen' & Hpre).
      exists res', t', ([EvDownloadFile (URL f) (ID t) (Z.of_nat i) res;
                         EvPersistUpdate t1 None] ++ evs)%list.
      split; [rewrite Hloop; unfold tr1; rewrite <- !app_assoc; reflexivity |].
      split; [exact Hid |]. split; [exact Hurls |]. split; [exact Hst |].
      split; [rewrite Hlen'; unfold t1, set_file; cbn [Files]; apply length_alter |].
      cbn [app download_calls]. apply Hcalls. exact Hpre.
Qed.

(** [ProcessTask] on a live task object, whatever the file system, the
    network and the durable store answer. *)
Lemma ProcessTask_any t r tr :
  exists res t' r' evs,
    ProcessTask E p (at_task p h0 t r tr) = (Ret res, at_task p h0 t' r' (tr ++ evs))
    /\ (r' = r \/ (is_Some (r !! ID t) /\ r' = <[ID t := p]> r))
    /\ ID t' = ID t /\ URLs t' = URLs t
    /\ length (Files t') = length (Files t)
    /\ TStatus t' <> TaskStatusNew
    /\ download_calls evs `prefix_of` expected_calls (ID t) (Files t).
Proof.
  unfold ProcessTask. step.
  set (t1 := UpdateStatus (time_Now E (length tr)) TaskStatusProcessing t).
  destruct (r !! ID t) as [q|] eqn:Hrepo.
  2: { assert (Hunknown : r !! ID t1 = None) by exact Hrepo.
       rewrite (bind_Ret _ _ _ _ _ (updateTask_unknown_at E p h0 Hp _ _ _ Hunknown)).
       exists (Some ("не удалось обновить статус задачи: "
                     +:+ repository.not_found (ID t1))), t1, r, [].
       rewrite app_nil_r. split; [reflexivity |]. split; [left; reflexivity |].
       repeat split; [discriminate | apply prefix_nil]. }
  assert (Hknown1 : is_Some (r !! ID t1)) by (exists q; exact Hrepo).
  rewrite (bind_Ret _ _ _ _ _ (updateTask_at E p h0 Hp _ _ _ Hknown1)).
  change (ID t1) with (ID t).
  set (r1 := <[ID t := p]> r).
  assert (Hrepo1 : r1 !! ID t = Some p) by apply lookup_insert_eq.
  destruct (persistent_Update E (length tr) t1) as [e|] eqn:Hfirst.
  { exists (Some ("не удалось обновить статус задачи: " +:+ e)), t1, r1,
      [EvPersistUpdate t1 (Some e)].
    split; [reflexivity |]. split; [right; split; [eexists |]; reflexivity |].
    repeat split; [discriminate | apply prefix_nil]. }
  step.
  rewrite (bind_Ret _ _ _ _ _ (MkdirAll_at E p h0 _ _ _ _)).
  set (tr1 := (tr ++ [EvPersistUpdate t1 None])%list).
  set (dir := filepath_Join E [downloadDir; ID t1]).
  destruct (os_MkdirAll E (length tr1) dir) as [e|] eqn:Hmkdir.
  { step.
    set (tr2 := (tr1 ++ [EvMkdirAll dir (Some e)])%list).
    set (t2 := SetError (time_Now E (length tr2))
                 ("не удалось создать директорию для скачивания: " +:+ e) t1).
    assert (Hknown2 : is_Some (r1 !! ID t2)) by (exists p; exact Hrepo1).
    rewrite (bind_Ret _ _ _ _ _ (updateTask_at E p h0 Hp _ _ _ Hknown2)).
    change (ID t2) with (ID t). rewrite (insert_id r1 (ID t) p Hrepo1).
    exists (Some ("не удалось создать директорию для скачивания: " +:+ e)), t2, r1,
      [EvPersistUpdate t1 None; EvMkdirAll dir (Some e);
       EvPersistUpdate t2 (persistent_Update E (length tr2) t2)].
    split; [unfold tr2, tr1; rewrite <- !app_assoc; reflexivity |].
    split; [right; split; [eexists |]; reflexivity |].
    repeat split; [discriminate | apply prefix_nil]. }
  unfold ProcessTask_files. step.
  set (tr2 := (tr1 ++ [EvMkdirAll dir None])%list).
  assert (Hrepo1' : r1 !! ID t1 = Some p) by exact Hrepo1.
  destruct (ProcessTask_range_any (length (Files t1)) 0%nat t1 r1 tr2 Hrepo1' eq_refl)
    as (res & t2 & evs & Hloop & Hid & Hurls & Hst & Hlen & Hpre).
  rewrite (bind_Ret _ _ _ _ _ Hloop).
  rewrite drop_0 in Hpre.
  assert (Hpre' : download_calls
                    ([EvPersistUpdate t1 None; EvMkdirAll dir None] ++ evs)
                  `prefix_of` expected_calls (ID t) (Files t)) by exact Hpre.
  destruct res as [e|].
  { exists (Some e), t2, r1, ([EvPersistUpdate t1 None; EvMkdirAll dir None] ++ evs)%list.
    split; [unfold tr2, tr1; rewrite <- !app_assoc; reflexivity |].
    split; [right; split; [eexists |]; reflexivity |].
    split; [exact Hid |]. split; [exact Hurls |]. split; [exact Hlen |].
    split; [rewrite Hst; discriminate | exact Hpre']. }
  step.
  assert (Hfinish : forall t3 : Task,
    ID t3 = ID t -> URLs t3 = URLs t -> Files t3 = Files t2 ->
    TStatus t3 <> TaskStatusNew ->
    exists res t' r' evs',
      updateTask E p (at_task p h0 t3 r1 (tr2 ++ evs))
      = (Ret res, at_task p h0 t' r' (tr ++ evs'))
      /\ (r' = r \/ (is_Some (Some q : option loc) /\ r' = <[ID t := p]> r))
      /\ ID t' = ID t /\ URLs t' = URLs t
      /\ length (Files t') = length (Files t)
      /\ TStatus t' <> TaskStatusNew
      /\ download_calls evs' `prefix_of` expected_calls (ID t) (Files t)).
  { intros t3 Hid3 Hurls3 Hfiles3 Hst3.
    assert (Hknown3 : is_Some (r1 !! ID t3)) by (rewrite Hid3; exists p; exact Hrepo1).
    rewrite (updateTask_at E p h0 Hp _ _ _ Hknown3).
    rewrite Hid3, (insert_id r1 (ID t) p Hrepo1).
    eexists _, t3, r1,
      ([EvPersistUpdate t1 None; EvMkdirAll dir None] ++ evs ++ [_])%list.
    split; [unfold tr2, tr1; rewrite <- !app_assoc; reflexivity |].
    split; [right; split; [eexists |]; reflexivity |].
    split; [exact Hid3 |]. split; [exact Hurls3 |].
    split; [rewrite Hfiles3; exact Hlen |]. split; [exact Hst3 |].
    rewrite app_assoc, download_calls_app. cbn [download_calls].
    rewrite app_nil_r. exact Hpre'. }
  destruct (IsCompleted t2).
  - step. apply Hfinish; solve [assumption | reflexivity | discriminate].
  - destruct (IsFailed t2).
    + step. apply Hfinish; solve [assumption | reflexivity | discriminate].
    + rewrite (bind_Ret _ _ _ _ _ (eq_refl : ret tt _ = (Ret tt, _))).
      apply Hfinish; try solve [assumption | reflexivity].
      rewrite Hst. discriminate.
Qed.

End any_answers.

(** X16. For a task the in-memory repository holds, when the durable
    store and the file system accept everything, [ProcessTask] leaves the
    task with a status that agrees with its file records: completed
    exactly when [IsCompleted] holds, failed exactly when [IsFailed]
    holds, and still processing exactly when the task has no files. *)
Theorem ProcessTask_status_agrees_with_files
    (E : Env) (w : World) (task : loc) (t : Task) :
  heap w !! task = Some t ->
  is_Some (taskRepo w !! ID t) ->
  (forall n t', persistent_Update E n t' = None) ->
  (forall n path, os_MkdirAll E n path = None) ->
  exists w' t',
    ProcessTask E task w = (Ret None, w')
    /\ heap w' !! task = Some t'
    /\ (TStatus t' = TaskStatusCompleted <-> IsCompleted t' = true)
    /\ (TStatus t' = TaskStatusFailed <-> IsFailed t' = true)
    /\ (TStatus t' = TaskStatusProcessing <-> Files t = []).
Proof.
  intros Hheap Hknown Hpersist Hmkdir.
  destruct (ProcessTask_run E w task t Hheap Hknown Hpersist Hmkdir)
    as (w' & t' & Hrun & Hheap' & Hlen & _ & Hout & Hst & _).
  exists w', t'. split; [exact Hrun |]. split; [exact Hheap' |].
  destruct (outcomes_checks _ _ Hout) as [Hc Hf].
  unfold IsCompleted, IsFailed. rewrite Hst, Hc, Hf.
  assert (Hempty : Files t = [] <-> length (Files t') = 0%nat).
  { rewrite Hlen. split; [intros ->; reflexivity | apply nil_length_inv]. }
  rewrite Hempty.
  destruct Hout as [|res f results files Hres Hrest]; cbn [length Nat.eqb final_status].
  - repeat split; solve [discriminate | reflexivity].
  - destruct (forallb succeeded (res :: results)); cbn [negb];
      repeat split; solve [discriminate | reflexivity].
Qed.

(** The two-file task: one download fails, so the task ends failed. *)
Lemma ProcessTask_status_agrees_with_files_witness :
  exists w' t',
    ProcessTask (example_Env None response_200) 0%nat two_file_World = (Ret None, w')
    /\ heap w' !! 0%nat = Some t'
    /\ (TStatus t' = TaskStatusCompleted <-> IsCompleted t' = true)
    /\ (TStatus t' = TaskStatusFailed <-> IsFailed t' = true)
    /\ (TStatus t' = TaskStatusProcessing <-> Files two_file_task = []).
Proof.
  refine (ProcessTask_status_agrees_with_files (example_Env None response_200)
            two_file_World 0%nat two_file_task _ _ _ _).
  - vm_compute. reflexivity.
  - vm_compute. eexists. reflexivity.
  - intros n t'. reflexivity.
  - intros n path. reflexivity.
Defined.

(** X17. When the first update of [ProcessTask] is refused, because the
    in-memory repository does not know the task or because the durable
    store returns an error, [ProcessTask] returns that error wrapped,
    creates no directory and downloads nothing, and leaves the task
    object in status processing. *)
Theorem ProcessTask_first_update_refused
    (E : Env) (w : World) (task : loc) (t : Task) (e : string) :
  heap w !! task = Some t ->
  (taskRepo w !! ID t = None /\ e = repository.not_found (ID t))
  \/ (is_Some (taskRepo w !! ID t)
      /\ persistent_Update E (length (trace w))
           (UpdateStatus (time_Now E (length (trace w))) TaskStatusProcessing t)
         = Some e) ->
  exists w',
    ProcessTask E task w
    = (Ret (Some ("не удалось обновить статус задачи: " +:+ e)), w')
    /\ heap w' !! task
       = Some (UpdateStatus (time_Now E (length (trace w))) TaskStatusProcessing t)
    /\ download_calls (new_events w w') = []
    /\ Forall not_mkdir (new_events w w').
Proof.
  intros Hheap Hrefused.
  pose proof (lookup_lt_Some _ _ _ Hheap) as Hlt.
  destruct Hrefused as [[Hunknown ->] | [Hknown Hstore]].
  - pose proof (ProcessTask_unknown_at E task (heap w) Hlt t (taskRepo w) (trace w)
                  Hunknown) as Hrun.
    rewrite <- (at_task_initial w task t Hheap) in Hrun.
    eexists. split; [exact Hrun |].
    split; [apply heap_at_task; exact Hlt |].
    unfold new_events. cbn [trace at_task]. rewrite drop_all.
    split; [reflexivity | constructor].
  - pose proof (ProcessTask_update_rejected_at E task (heap w) Hlt t (taskRepo w)
                  (trace w) e Hknown Hstore) as Hrun.
    rewrite <- (at_task_initial w task t Hheap) in Hrun.
    eexists. split; [exact Hrun |].
    split; [apply heap_at_task; exact Hlt |].
    unfold new_events. cbn [trace at_task]. rewrite drop_app_length.
    split; [reflexivity |]. repeat constructor.
Qed.

(** The two-file task when the durable store is out of space. *)
Lemma ProcessTask_first_update_refused_witness :
  exists w',
    ProcessTask (refusing_Env "disk full") 0%nat two_file_World
    = (Ret (Some ("не удалось обновить статус задачи: " +:+ "disk full")), w')
    /\ heap w' !! 0%nat
       = Some (UpdateStatus
                 (time_Now (refusing_Env "disk full") (length (trace two_file_World)))
                 TaskStatusProcessing two_file_task)
    /\ download_calls (new_events two_file_World w') = []
    /\ Forall not_mkdir (new_events two_file_World w').
Proof.
  refine (ProcessTask_first_update_refused (refusing_Env "disk full")
            two_file_World 0%nat two_file_task "disk full" _ _).
  - vm_compute. reflexivity.
  - right. split; [vm_compute; eexists; reflexivity | reflexivity].
Defined.

(** X18. [ProcessTask] on a live task object always returns: no answer of
    the file system, the network or the durable store makes it panic.  It
    creates no task object, leaves every other task object untouched, and
    changes nothing in the repository except that the task's own
    identifier, if the repository knows it, now points to this object. *)
Theorem ProcessTask_returns_and_frames
    (E : Env) (w : World) (task : loc) (t : Task) :
  heap w !! task = Some t ->
  exists res w' t',
    ProcessTask E task w = (Ret res, w')
    /\ heap w' !! task = Some t'
    /\ ID t' = ID t /\ URLs t' = URLs t
    /\ length (Files t') = length (Files t)
    /\ length (heap w') = length (heap w)
    /\ (forall q, q <> task -> heap w' !! q = heap w !! q)
    /\ (forall id, id <> ID t -> taskRepo w' !! id = taskRepo w !! id)
    /\ (taskRepo w' !! ID t = taskRepo w !! ID t
        \/ (is_Some (taskRepo w !! ID t) /\ taskRepo w' !! ID t = Some task)).
Proof.
  intros Hheap.
  pose proof (lookup_lt_Some _ _ _ Hheap) as Hlt.
  destruct (ProcessTask_any E task (heap w) Hlt t (taskRepo w) (trace w))
    as (res & t' & r' & evs & Hrun & Hrepo & Hid & Hurls & Hlen & _ & _).
  rewrite <- (at_task_initial w task t Hheap) in Hrun.
  eexists res, _, t'. split; [exact Hrun |].
  split; [apply heap_at_task; exact Hlt |].
  split; [exact Hid |]. split; [exact Hurls |]. split; [exact Hlen |].
  unfold at_task. cbn [heap taskRepo].
  split; [apply length_insert |].
  split; [intros q Hq; apply list_lookup_insert_ne; congruence |].
  destruct Hrepo as [-> | [Hknown ->]].
  - split; [reflexivity | left; reflexivity].
  - split; [intros id Hne; apply lookup_insert_ne; congruence |].
    right. split; [exact Hknown | apply lookup_insert_eq].
Qed.

(** The two-file task when the durable store refuses every write. *)
Lemma ProcessTask_returns_and_frames_witness :
  exists res w' t',
    ProcessTask (refusing_Env "disk full") 0%nat two_file_World = (Ret res, w')
    /\ heap w' !! 0%nat = Some t'
    /\ ID t' = ID two_file_task /\ URLs t' = URLs two_file_task
    /\ length (Files t') = length (Files two_file_task)
    /\ length (heap w') = length (heap two_file_World)
    /\ (forall q, q <> 0%nat -> heap w' !! q = heap two_file_World !! q)
    /\ (forall id, id <> ID two_file_task ->
          taskRepo w' !! id = taskRepo two_file_World !! id)
    /\ (taskRepo w' !! ID two_file_task = taskRepo two_file_World !! ID two_file_task
        \/ (is_Some (taskRepo two_file_World !! ID two_file_task)
            /\ taskRepo w' !! ID two_file_task = Some 0%nat)).
Proof.
  refine (ProcessTask_returns_and_frames (refusing_Env "disk full")
            two_file_World 0%nat two_file_task _).
  vm_compute. reflexivity.
Defined.

(** X19. Whatever fails, the downloads [ProcessTask] asks for are an
    initial part of the list one-per-file in index order: it never skips
    a file, repeats one or asks for a URL the task does not hold.  The
    task it leaves is never in status new, and the events before the call
    are kept. *)
Theorem ProcessTask_downloads_in_order
    (E : Env) (w : World) (task : loc) (t : Task) :
  heap w !! task = Some t ->
  exists res w' t',
    ProcessTask E task w = (Ret res, w')
    /\ heap w' !! task = Some t'
    /\ TStatus t' <> TaskStatusNew
    /\ download_calls (new_events w w') `prefix_of` expected_calls (ID t) (Files t)
    /\ trace w `prefix_of` trace w'.
Proof.
  intros Hheap.
  pose proof (lookup_lt_Some _ _ _ Hheap) as Hlt.
  destruct (ProcessTask_any E task (heap w) Hlt t (taskRepo w) (trace w))
    as (res & t' & r' & evs & Hrun & _ & _ & _ & _ & Hst & Hpre).
  rewrite <- (at_task_initial w task t Hheap) in Hrun.
  eexists res, _, t'. split; [exact Hrun |].
  split; [apply heap_at_task; exact Hlt |].
  split; [exact Hst |].
  unfold new_events. cbn [trace at_task]. rewrite drop_app_length.
  split; [exact Hpre | apply prefix_app_r; reflexivity].
Qed.

(** The two-file task when the directory cannot be created. *)
Lemma ProcessTask_downloads_in_order_witness :
  exists res w' t',
    ProcessTask (example_Env (Some "read-only file system") response_200) 0%nat
      two_file_World = (Ret res, w')
    /\ heap w' !! 0%nat = Some t'
    /\ TStatus t' <> TaskStatusNew
    /\ download_calls (new_events two_file_World w')
       `prefix_of` expected_calls (ID two_file_task) (Files two_file_task)
    /\ trace two_file_World `prefix_of` trace w'.
Proof.
  refine (ProcessTask_downloads_in_order
            (example_Env (Some "read-only file system") response_200)
            two_file_World 0%nat two_file_task _).
  vm_compute. reflexivity.
Defined.

(** ** The worker pool, continued *)

(** X20. [findAvailableWorker] claims the first worker that is not busy:
    it returns that worker's position, marks that worker busy and leaves
    every other worker as it is.  It returns nothing, and changes
    nothing, exactly when every worker is busy. *)
Theorem findAvailableWorker_claims_first_idle (ws : list infrastructure.Worker) :
  match infrastructure.findAvailableWorker ws with
  | (Some k, ws') =>
      exists worker,
        ws !! k = Some worker
        /\ infrastructure.busy worker = false
        /\ Forall (fun w0 => infrastructure.busy w0 = true) (take k ws)
        /\ ws' = <[k := infrastructure.mkWorker (infrastructure.id worker)
                          (infrastructure.jobQueue worker) true]> ws
  | (None, ws') =>
      ws' = ws /\ Forall (fun w0 => infrastructure.busy w0 = true) ws
  end.
Proof.
  induction ws as [|worker rest IH]; cbn [infrastructure.findAvailableWorker].
  - split; [reflexivity | constructor].
  - destruct (infrastructure.busy worker) eqn:Hbusy; cbn [negb].
    + destruct (infrastructure.findAvailableWorker rest) as [[k|] rest'].
      * destruct IH as (found & Hk & Hidle & Hbefore & ->).
        exists found. split; [exact Hk |]. split; [exact Hidle |].
        split; [| reflexivity].
        cbn [take]. constructor; assumption.
      * destruct IH as [-> Hall]. split; [reflexivity |].
        constructor; assumption.
    + exists worker. split; [reflexivity |]. split; [exact Hbusy |].
      split; [constructor | reflexivity].
Qed.

(** ** The worker's job *)

Lemma processJob_loop_no_match (E : Env) (taskID : string) (w : World)
    (tasks : list loc) :
  Forall (fun task => exists t, heap w !! task = Some t /\ ID t <> taskID) tasks ->
  processJob_loop E taskID tasks w = (Ret tt, w).
Proof.
  induction 1 as [|task rest (t & Ht & Hne) _ IH]; [reflexivity |].
  cbn [processJob_loop]. unfold bind at 1. unfold load. rewrite Ht.
  destruct (String.eqb_spec (ID t) taskID) as [Heq | _]; [contradiction | exact IH].
Qed.

Lemma processJob_loop_match (E : Env) (taskID : string) (w : World)
    (tasks : list loc) (p : loc) (t : Task) :
  heap w !! p = Some t -> ID t = taskID -> p ∈ tasks ->
  Forall (fun task => exists t0, heap w !! task = Some t0
                                 /\ (ID t0 = taskID -> task = p)) tasks ->
  processJob_loop E taskID tasks w = (ProcessTask E p ;;; ret tt) w.
Proof.
  intros Hp Hid Hin Hall. induction Hall as [|task rest (t0 & Ht0 & Honly) _ IH].
  - apply elem_of_nil in Hin. contradiction.
  - cbn [processJob_loop]. unfold bind at 1. unfold load. rewrite Ht0.
    destruct (String.eqb_spec (ID t0) taskID) as [Heq | Hne].
    + rewrite (Honly Heq). reflexivity.
    + apply elem_of_cons in Hin as [-> | Hin].
      * exfalso. apply Hne. replace t0 with t by congruence. exact Hid.
      * apply IH. exact Hin.
Qed.

(** X21. A job whose task is not pending any more (it is completed or
    failed, or the repository does not hold it) is dropped:
    [processJob] returns without processing anything and changes
    nothing. *)
Theorem processJob_drops_job_without_pending_task
    (E : Env) (w : World) (entries : list (string * loc))
    (job : infrastructure.TaskJob) :
  entries ≡ₚ map_to_list (taskRepo w) ->
  no_dangling w ->
  (forall id task t,
     taskRepo w !! id = Some task -> heap w !! task = Some t ->
     is_pending t = true -> ID t <> infrastructure.TaskID job) ->
  processJob E entries job w = (Ret tt, w).
Proof.
  intros Hperm Hvalid Hnone.
  assert (Hin : forall id p, (id, p) ∈ entries <-> taskRepo w !! id = Some p).
  { intros id p. rewrite Hperm. apply elem_of_map_to_list. }
  destruct (GetPendingTasks_loop_valid w entries) as (l & Hrun & Hl).
  { apply Forall_forall. intros [id p] He. apply (Hvalid id p), Hin, He. }
  unfold processJob. rewrite (bind_Ret _ _ _ _ _ Hrun).
  apply processJob_loop_no_match, Forall_forall. intros p Hp.
  apply Hl in Hp as (id & t & Hentry & Ht & Hpending).
  exists t. split; [exact Ht |].
  apply (Hnone id p t); [apply Hin; exact Hentry | exact Ht | exact Hpending].
Qed.

(** X22. A job whose task is pending, in status new or already in status
    processing, makes [processJob] run [ProcessTask] on that task, and on
    no other. *)
Theorem processJob_processes_pending_task
    (E : Env) (w : World) (entries : list (string * loc))
    (job : infrastructure.TaskJob) (p : loc) (t : Task) :
  entries ≡ₚ map_to_list (taskRepo w) ->
  no_dangling w ->
  keyed_by_ID w ->
  taskRepo w !! infrastructure.TaskID job = Some p ->
  heap w !! p = Some t ->
  is_pending t = true ->
  processJob E entries job w = (ProcessTask E p ;;; ret tt) w.
Proof.
  intros Hperm Hvalid Hkeys Hrepo Hheap Hpending.
  assert (Hin : forall id q, (id, q) ∈ entries <-> taskRepo w !! id = Some q).
  { intros id q. rewrite Hperm. apply elem_of_map_to_list. }
  destruct (GetPendingTasks_loop_valid w entries) as (l & Hrun & Hl).
  { apply Forall_forall. intros [id q] He. apply (Hvalid id q), Hin, He. }
  unfold processJob. rewrite (bind_Ret _ _ _ _ _ Hrun).
  apply (processJob_loop_match E _ w l p t Hheap).
  - apply (Hkeys _ _ _ Hrepo Hheap).
  - apply Hl. exists (infrastructure.TaskID job), t.
    split; [apply Hin; exact Hrepo | auto].
  - apply Forall_forall. intros q Hq.
    apply Hl in Hq as (id & tq & Hentry & Htq & _).
    exists tq. split; [exact Htq |]. intros Hid.
    apply Hin in Hentry.
    rewrite <- (Hkeys _ _ _ Hentry Htq), Hid in Hentry. congruence.
Qed.

Lemma one_task_World_lookup (id : string) (task : loc) :
  taskRepo one_task_World !! id = Some task -> id = "task-1" /\ task = 0%nat.
Proof.
  unfold one_task_World. cbn [taskRepo]. intros H.
  apply lookup_singleton_Some in H as [<- <-]. split; reflexivity.
Qed.

Lemma one_task_World_no_dangling : no_dangling one_task_World.
Proof.
  intros id task H. apply one_task_World_lookup in H as [-> ->].
  eexists. reflexivity.
Qed.

Lemma one_task_World_keyed_by_ID : keyed_by_ID one_task_World.
Proof.
  intros id task t H Ht. apply one_task_World_lookup in H as [-> ->].
  injection Ht as <-. reflexivity.
Qed.

(** A job for a task nobody created. *)
Lemma processJob_drops_job_without_pending_task_witness :
  processJob (example_Env None response_200)
    (map_to_list (taskRepo one_task_World)) (infrastructure.mkTaskJob "task-7")
    one_task_World
  = (Ret tt, one_task_World).
Proof.
  apply (processJob_drops_job_without_pending_task (example_Env None response_200)
           one_task_World (map_to_list (taskRepo one_task_World))
           (infrastructure.mkTaskJob "task-7")).
  - reflexivity.
  - exact one_task_World_no_dangling.
  - intros id task t H Ht _. apply one_task_World_lookup in H as [-> ->].
    injection Ht as <-. discriminate.
Defined.

(** The job for the two-file task. *)
Lemma processJob_processes_pending_task_witness :
  processJob (example_Env None response_200)
    (map_to_list (taskRepo one_task_World)) (infrastructure.mkTaskJob "task-1")
    one_task_World
  = (ProcessTask (example_Env None response_200) 0%nat ;;; ret tt) one_task_World.
Proof.
  apply (processJob_processes_pending_task (example_Env None response_200)
           one_task_World (map_to_list (taskRepo one_task_World))
           (infrastructure.mkTaskJob "task-1") 0%nat two_file_task).
  - reflexivity.
  - exact one_task_World_no_dangling.
  - exact one_task_World_keyed_by_ID.
  - reflexivity.
  - reflexivity.
  - reflexivity.
Defined.

(** ** The task processor of [main] *)

Lemma main_submit_live (w : World) (tasks : list loc) :
  Forall (fun task => is_Some (heap w !! task)) tasks ->
  forall (choices : list nat) (wp : infrastructure.WorkerPool),
    infrastructure.running wp = true ->
    infrastructure.cancelled wp = false ->
    exists wp',
      main_submit tasks choices wp w = (Ret wp', w)
      /\ infrastructure.taskQueue wp'
         = (infrastructure.taskQueue wp
            ++ take (infrastructure.taskQueue_cap
                     - length (infrastructure.taskQueue wp))
                 (new_jobs w tasks))%list
      /\ infrastructure.workers wp' = infrastructure.workers wp
      /\ infrastructure.workerCount wp' = infrastructure.workerCount wp
      /\ infrastructure.running wp' = true
      /\ infrastructure.cancelled wp' = false.
Proof.
  induction 1 as [|task rest [t Ht] _ IH]; intros choices wp Hrun Hlive.
  - exists wp. change (new_jobs w []) with (@nil infrastructure.TaskJob).
    cbn [main_submit]. rewrite take_nil, app_nil_r.
    repeat split; assumption.
  - cbn [main_submit]. unfold bind at 1. unfold load. rewrite Ht.
    assert (Hskip : TStatus t <> TaskStatusNew ->
                    new_jobs w (task :: rest) = new_jobs w rest).
    { intros Hst. unfold new_jobs. cbn [omap list_omap]. rewrite Ht.
      destruct (TStatus t); [contradiction | reflexivity ..]. }
    destruct (TStatus t) eqn:Hst;
      try (rewrite Hskip by discriminate; apply IH; assumption).
    assert (Hjobs : new_jobs w (task :: rest)
                    = infrastructure.mkTaskJob (ID t) :: new_jobs w rest).
    { unfold new_jobs. cbn [omap list_omap]. rewrite Ht, Hst. reflexivity. }
    rewrite Hjobs.
    assert (Hdec : saturated wp \/ ~ saturated wp) by (unfold saturated; lia).
    destruct Hdec as [Hfull | Hroom].
    + rewrite (AddTask_live_full (hd O choices) (ID t) wp Hrun Hlive Hfull).
      cbn [fst].
      destruct (IH (tl choices) wp Hrun Hlive) as (wp' & Hloop & Hq & Hrest).
      exists wp'. split; [exact Hloop |]. split; [| exact Hrest].
      rewrite Hq. unfold saturated in Hfull.
      replace (infrastructure.taskQueue_cap - length (infrastructure.taskQueue wp))%nat
        with 0%nat by lia.
      reflexivity.
    + rewrite (AddTask_live_room (hd O choices) (ID t) wp Hrun Hlive Hroom).
      cbn [fst].
      destruct (IH (tl choices) (enqueued (ID t) wp) Hrun Hlive)
        as (wp' & Hloop & Hq & Hrest).
      exists wp'. split; [exact Hloop |]. split; [| exact Hrest].
      rewrite Hq. unfold enqueued, saturated in *.
      cbn [infrastructure.taskQueue]. rewrite length_app. cbn [length].
      replace (infrastructure.taskQueue_cap - length (infrastructure.taskQueue wp))%nat
        with (S (infrastructure.taskQueue_cap
                 - (length (infrastructure.taskQueue wp) + 1)))%nat by lia.
      cbn [take]. rewrite <- app_assoc. reflexivity.
Qed.

Lemma main_scan_live (w : World) (entries : list (string * loc))
    (choices : list nat) (wp : infrastructure.WorkerPool) :
  entries ≡ₚ map_to_list (taskRepo w) ->
  no_dangling w ->
  infrastructure.running wp = true ->
  infrastructure.cancelled wp = false ->
  exists tasks wp',
    GetPendingTasks_loop entries w = (Ret tasks, w)
    /\ main_scan entries choices wp w = (Ret wp', w)
    /\ infrastructure.taskQueue wp'
       = (infrastructure.taskQueue wp
          ++ take (infrastructure.taskQueue_cap
                   - length (infrastructure.taskQueue wp))
               (new_jobs w tasks))%list
    /\ infrastructure.workers wp' = infrastructure.workers wp
    /\ infrastructure.workerCount wp' = infrastructure.workerCount wp
    /\ infrastructure.running wp' = true
    /\ infrastructure.cancelled wp' = false.
Proof.
  intros Hperm Hvalid Hrun Hlive.
  assert (Hin : forall id p, (id, p) ∈ entries <-> taskRepo w !! id = Some p).
  { intros id p. rewrite Hperm. apply elem_of_map_to_list. }
  destruct (GetPendingTasks_loop_valid w entries) as (l & Hpending & Hl).
  { apply Forall_forall. intros [id p] He. apply (Hvalid id p), Hin, He. }
  destruct (main_submit_live w l) with (choices := choices) (wp := wp)
    as (wp' & Hloop & Hrest); try assumption.
  { apply Forall_forall. intros p Hp.
    apply Hl in Hp as (id & t & _ & Ht & _). exists t. exact Ht. }
  exists l, wp'. split; [exact Hpending |].
  split; [| exact Hrest].
  unfold main_scan. rewrite (bind_Ret _ _ _ _ _ Hpending). exact Hloop.
Qed.

(** X23. One round of the task processor of [main] on a running pool
    appends to the queue a job for each pending task in status new, in
    the order [GetPendingTasks] listed them, until the queue holds 100
    jobs; the tasks that do not fit are left out, tasks in status
    processing are never queued, and no task is touched. *)
Theorem main_scan_enqueues_new_tasks
    (w : World) (entries : list (string * loc)) (choices : list nat)
    (wp : infrastructure.WorkerPool) :
  entries ≡ₚ map_to_list (taskRepo w) ->
  no_dangling w ->
  infrastructure.running wp = true ->
  infrastructure.cancelled wp = false ->
  exists tasks wp',
    GetPendingTasks_loop entries w = (Ret tasks, w)
    /\ main_scan entries choices wp w = (Ret wp', w)
    /\ infrastructure.taskQueue wp'
       = (infrastructure.taskQueue wp
          ++ take (infrastructure.taskQueue_cap
                   - length (infrastructure.taskQueue wp))
               (new_jobs w tasks))%list
    /\ infrastructure.workers wp' = infrastructure.workers wp.
Proof.
  intros Hperm Hvalid Hrun Hlive.
  destruct (main_scan_live w entries choices wp Hperm Hvalid Hrun Hlive)
    as (tasks & wp' & Hpending & Hscan & Hq & Hworkers & _).
  exists tasks, wp'. auto.
Qed.

(** One round over the world of the two-file task, on a pool of three
    workers. *)
Lemma main_scan_enqueues_new_tasks_witness :
  exists tasks wp',
    GetPendingTasks_loop (map_to_list (taskRepo one_task_World)) one_task_World
    = (Ret tasks, one_task_World)
    /\ main_scan (map_to_list (taskRepo one_task_World)) []
         (infrastructure.Start (infrastructure.NewWorkerPool 3)) one_task_World
       = (Ret wp', one_task_World)
    /\ infrastructure.taskQueue wp'
       = (infrastructure.taskQueue
            (infrastructure.Start (infrastructure.NewWorkerPool 3))
          ++ take (infrastructure.taskQueue_cap
                   - length (infrastructure.taskQueue
                               (infrastructure.Start (infrastructure.NewWorkerPool 3))))
               (new_jobs one_task_World tasks))%list
    /\ infrastructure.workers wp'
       = infrastructure.workers (infrastructure.Start (infrastructure.NewWorkerPool 3)).
Proof.
  apply (main_scan_enqueues_new_tasks one_task_World
           (map_to_list (taskRepo one_task_World)) []
           (infrastructure.Start (infrastructure.NewWorkerPool 3))).
  - reflexivity.
  - exact one_task_World_no_dangling.
  - reflexivity.
  - reflexivity.
Defined.

(** X24. A task that is still in status new when the next round of the
    task processor runs is queued a second time: two rounds in a row
    append every new task's job twice, cut off where the queue holds 100
    jobs. *)
Theorem main_scan_twice_duplicates_jobs
    (w : World) (entries : list (string * loc)) (choices1 choices2 : list nat)
    (wp : infrastructure.WorkerPool) :
  entries ≡ₚ map_to_list (taskRepo w) ->
  no_dangling w ->
  infrastructure.running wp = true ->
  infrastructure.cancelled wp = false ->
  exists tasks wp1 wp2,
    GetPendingTasks_loop entries w = (Ret tasks, w)
    /\ main_scan entries choices1 wp w = (Ret wp1, w)
    /\ main_scan entries choices2 wp1 w = (Ret wp2, w)
    /\ infrastructure.taskQueue wp2
       = (infrastructure.taskQueue wp
          ++ take (infrastructure.taskQueue_cap
                   - length (infrastructure.taskQueue wp))
               (new_jobs w tasks ++ new_jobs w tasks))%list.
Proof.
  intros Hperm Hvalid Hrun Hlive.
  destruct (main_scan_live w entries choices1 wp Hperm Hvalid Hrun Hlive)
    as (tasks & wp1 & Hpending & Hscan1 & Hq1 & _ & _ & Hrun1 & Hlive1).
  destruct (main_scan_live w entries choices2 wp1 Hperm Hvalid Hrun1 Hlive1)
    as (tasks' & wp2 & Hpending' & Hscan2 & Hq2 & _).
  assert (tasks' = tasks) by congruence. subst tasks'.
  exists tasks, wp1, wp2. split; [exact Hpending |].
  split; [exact Hscan1 |]. split; [exact Hscan2 |].
  rewrite Hq2, Hq1, take_app, length_app, length_take, <- app_assoc.
  do 3 f_equal. lia.
Qed.

(** Two rounds over the world of the two-file task. *)
Lemma main_scan_twice_duplicates_jobs_witness :
  exists tasks wp1 wp2,
    GetPendingTasks_loop (map_to_list (taskRepo one_task_World)) one_task_World
    = (Ret tasks, one_task_World)
    /\ main_scan (map_to_list (taskRepo one_task_World)) []
         (infrastructure.Start (infrastructure.NewWorkerPool 3)) one_task_World
       = (Ret wp1, one_task_World)
    /\ main_scan (map_to_list (taskRepo one_task_World)) [] wp1 one_task_World
       = (Ret wp2, one_task_World)
    /\ infrastructure.taskQueue wp2
       = (infrastructure.taskQueue
            (infrastructure.Start (infrastructure.NewWorkerPool 3))
          ++ take (infrastructure.taskQueue_cap
                   - length (infrastructure.taskQueue
                               (infrastructure.Start (infrastructure.NewWorkerPool 3))))
               (new_jobs one_task_World tasks ++ new_jobs one_task_World tasks))%list.
Proof.
  apply (main_scan_twice_duplicates_jobs one_task_World
           (map_to_list (taskRepo one_task_World)) [] []
           (infrastructure.Start (infrastructure.NewWorkerPool 3))).
  - reflexivity.
  - exact one_task_World_no_dangling.
  - reflexivity.
  - reflexivity.
Defined.

(** ** The shape of the repository in every reachable world *)

Lemma keeps_identity_refl (w : World) : keeps_identity w w.
Proof. split; [reflexivity |]. intros q t Hq. exists t. auto. Qed.

Lemma keeps_identity_trans (w1 w2 w3 : World) :
  keeps_identity w1 w2 -> keeps_identity w2 w3 -> keeps_identity w1 w3.
Proof.
  intros [Hr12 H12] [Hr23 H23]. split; [congruence |].
  intros q t Hq. destruct (H12 q t Hq) as (t2 & Hq2 & Hid2).
  destruct (H23 q t2 Hq2) as (t3 & Hq3 & Hid3).
  exists t3. split; [exact Hq3 | congruence].
Qed.

Lemma keeps_identity_modify (w : World) (q : loc) (t : Task) (f : Task -> Task) :
  heap w !! q = Some t -> keeps_shape f ->
  keeps_identity w (mkWorld (<[q := f t]> (heap w)) (taskRepo w) (trace w)).
Proof.
  intros Hq Hf. split; [reflexivity |]. cbn [heap].
  intros q' t' Hq'. destruct (decide (q' = q)) as [-> | Hne].
  - exists (f t). split.
    + apply list_lookup_insert_eq. apply lookup_lt_Some in Hq. exact Hq.
    + replace t' with t by congruence. apply Hf.
  - exists t'. rewrite list_lookup_insert_ne by congruence. auto.
Qed.

Lemma keeps_identity_alloc (w : World) (t : Task) :
  keeps_identity w (mkWorld (heap w ++ [t]) (taskRepo w) (trace w)).
Proof.
  split; [reflexivity |]. cbn [heap]. intros q t' Hq. exists t'.
  split; [| reflexivity].
  rewrite lookup_app_l by (apply lookup_lt_Some in Hq; exact Hq). exact Hq.
Qed.

Lemma keeps_identity_emit (w : World) (ev : Event) :
  keeps_identity w (mkWorld (heap w) (taskRepo w) (trace w ++ [ev])).
Proof. split; [reflexivity |]. intros q t Hq. exists t. auto. Qed.

(** A step that keeps the old entries of the repository, or stores
    keys that name live objects by their identifier, keeps the
    repository well keyed. *)
Lemma keyed_step (w w' : World) :
  (forall q t, heap w !! q = Some t ->
     exists t', heap w' !! q = Some t' /\ ID t' = ID t) ->
  (forall id q, taskRepo w' !! id = Some q ->
     taskRepo w !! id = Some q
     \/ exists t', heap w' !! q = Some t' /\ ID t' = id) ->
  keyed_by_ID w /\ no_dangling w -> keyed_by_ID w' /\ no_dangling w'.
Proof.
  intros Hheap Hrepo [Hkeys Hlive].
  assert (Hboth : forall id q, taskRepo w' !! id = Some q ->
            exists t', heap w' !! q = Some t' /\ ID t' = id).
  { intros id q Hq. destruct (Hrepo id q Hq) as [Hold | Hnew]; [| exact Hnew].
    destruct (Hlive id q Hold) as [t Ht].
    destruct (Hheap q t Ht) as (t' & Ht' & Hid).
    exists t'. split; [exact Ht' |]. rewrite Hid. apply (Hkeys id q t Hold Ht). }
  split.
  - intros id q t Hq Ht. destruct (Hboth id q Hq) as (t' & Ht' & Hid). congruence.
  - intros id q Hq. destruct (Hboth id q Hq) as (t' & Ht' & _). eexists. exact Ht'.
Qed.

Lemma keyed_keeps_identity (w w' : World) :
  keeps_identity w w' ->
  keyed_by_ID w /\ no_dangling w -> keyed_by_ID w' /\ no_dangling w'.
Proof.
  intros [Hrepo Hheap]. apply keyed_step; [exact Hheap |].
  intros id q Hq. left. rewrite <- Hrepo. exact Hq.
Qed.

Lemma keyed_ProcessTask (E : Env) (task : loc) (w : World) :
  keyed_by_ID w /\ no_dangling w ->
  keyed_by_ID (snd (ProcessTask E task w)) /\ no_dangling (snd (ProcessTask E task w)).
Proof.
  destruct (heap w !! task) as [t|] eqn:Hheap.
  2: { rewrite (ProcessTask_nil_pointer E w task Hheap). auto. }
  pose proof (lookup_lt_Some _ _ _ Hheap) as Hlt.
  destruct (ProcessTask_any E task (heap w) Hlt t (taskRepo w) (trace w))
    as (res & t' & r' & evs & Hrun & Hrepo & Hid & _).
  rewrite <- (at_task_initial w task t Hheap) in Hrun. rewrite Hrun. cbn [snd].
  assert (Hobjects : forall q t0, heap w !! q = Some t0 ->
            exists t1, <[task := t']> (heap w) !! q = Some t1 /\ ID t1 = ID t0).
  { intros q t0 Hq. destruct (decide (q = task)) as [-> | Hne].
    - exists t'. split; [apply list_lookup_insert_eq; exact Hlt |].
      replace t0 with t by congruence. exact Hid.
    - exists t0. rewrite list_lookup_insert_ne by congruence. auto. }
  apply keyed_step; unfold at_task; cbn [heap taskRepo]; [exact Hobjects |].
  intros id q Hq. destruct Hrepo as [-> | [_ ->]]; [left; exact Hq |].
  destruct (decide (id = ID t)) as [-> | Hne].
  - rewrite lookup_insert_eq in Hq. injection Hq as <-.
    right. exists t'. split; [apply list_lookup_insert_eq; exact Hlt | exact Hid].
  - rewrite lookup_insert_ne in Hq by congruence. left. exact Hq.
Qed.

Lemma keyed_CreateTask (E : Env) (urls : list string) (w : World) :
  keyed_by_ID w /\ no_dangling w ->
  keyed_by_ID (snd (CreateTask E urls w)) /\ no_dangling (snd (CreateTask E urls w)).
Proof.
  destruct (decide (urls = [])) as [-> | Hne]; [auto |].
  destruct (decide (EmptyString ∈ urls)) as [Hempty | Hvalid].
  { unfold CreateTask. destruct urls as [|u urls]; [contradiction |].
    cbn [length Nat.eqb]. apply has_empty_url_elem in Hempty. rewrite Hempty. auto. }
  rewrite (CreateTask_run E urls w Hne Hvalid). cbn [snd].
  apply keyed_step; cbn [heap taskRepo].
  - intros q t Hq. exists t. split; [| reflexivity].
    rewrite lookup_app_l by (apply lookup_lt_Some in Hq; exact Hq). exact Hq.
  - intros id q Hq.
    destruct (decide (id = uuid_New E (length (trace w)))) as [-> | Hother].
    + rewrite lookup_insert_eq in Hq. injection Hq as <-.
      right. eexists. split; [apply list_lookup_middle; reflexivity | reflexivity].
    + rewrite lookup_insert_ne in Hq by congruence. left. exact Hq.
Qed.

Lemma keyed_run_op (E : Env) (op : core_op) (w : World) :
  keyed_by_ID w /\ no_dangling w ->
  keyed_by_ID (run_op E op w) /\ no_dangling (run_op E op w).
Proof.
  pose proof keeps_identity_refl as Hrefl.
  pose proof keeps_identity_trans as Htrans.
  pose proof keeps_identity_modify as Hmodify.
  destruct op; cbn [run_op].
  - apply keyed_keeps_identity.
    apply (respects_call_NewTask E keeps_identity); try assumption.
    intros w0 t _. apply keeps_identity_alloc.
  - apply keyed_CreateTask.
  - apply keyed_ProcessTask.
  - apply keyed_keeps_identity.
    apply (respects_DownloadFile E keeps_identity (fun _ => True)); try assumption.
    + intros w0 ev _. apply keeps_identity_emit.
    + intros; exact I.
  - apply keyed_keeps_identity.
    apply (respects_call_UpdateStatus E keeps_identity); assumption.
  - apply keyed_keeps_identity.
    apply (respects_call_SetError E keeps_identity); assumption.
Qed.

(** X25. In every world the operations can reach, each key of the
    in-memory repository is the identifier of the task object it points
    to, and each stored pointer points to a task object: no operation
    stores a task under a foreign key or leaves a dangling pointer. *)
Theorem repository_keys_are_task_IDs (E : Env) (w : World) :
  reachable E w -> keyed_by_ID w /\ no_dangling w.
Proof.
  induction 1 as [| op w _ IH].
  - split.
    + intros id q t Hq. cbn in Hq. rewrite lookup_empty in Hq. discriminate.
    + intros id q Hq. cbn in Hq. rewrite lookup_empty in Hq. discriminate.
  - apply keyed_run_op. exact IH.
Qed.

(** The world after creating the two-file task and processing it. *)
Lemma repository_keys_are_task_IDs_witness :
  keyed_by_ID
    (run_op (example_Env None response_200) (OpProcessTask 0%nat)
       (run_op (example_Env None response_200)
          (OpCreateTask ["https://x/unreachable"; "https://x/b.pdf"]) empty_World))
  /\ no_dangling
       (run_op (example_Env None response_200) (OpProcessTask 0%nat)
          (run_op (example_Env None response_200)
             (OpCreateTask ["https://x/unreachable"; "https://x/b.pdf"]) empty_World)).
Proof.
  apply (repository_keys_are_task_IDs (example_Env None response_200)).
  apply reachable_step, reachable_step, reachable_empty.
Defined.

(** ** The task handler *)

Lemma Contains_cons (c : ascii) (s sub : string) :
  GoStrings.Contains (String c s) sub
  = GoStrings.HasPrefix (String c s) sub || GoStrings.Contains s sub.
Proof.
  unfold GoStrings.Contains. cbn [GoStrings.Cut].
  destruct (GoStrings.HasPrefix (String c s) sub); [reflexivity |].
  destruct (GoStrings.Cut s sub) as [[? ?]|]; reflexivity.
Qed.

(** A text that lacks the first byte of [sub] can be dropped from the
    front without changing whether [sub] occurs. *)
Lemma Contains_skip (a s : string) (d : ascii) (sub : string) :
  has_byte d a = false ->
  GoStrings.Contains (a +:+ s) (String d sub) = GoStrings.Contains s (String d sub).
Proof.
  induction a as [|c a IH]; intros Ha; [reflexivity |].
  change (String c a +:+ s) with (String c (a +:+ s)).
  cbn [has_byte] in Ha.
  destruct (Ascii.eqb_spec c d) as [-> | Hne]; [discriminate |].
  rewrite Contains_cons. cbn [GoStrings.HasPrefix].
  assert (Hdc : Ascii.eqb d c = false) by (apply Ascii.eqb_neq; congruence).
  rewrite Hdc. apply IH. exact Ha.
Qed.

Lemma HasPrefix_before (b sub s : string) :
  never_straddles b sub = true ->
  GoStrings.HasPrefix (s +:+ b) sub = GoStrings.HasPrefix s sub.
Proof.
  revert sub. induction s as [|c s IH]; intros sub Hclean.
  - change (EmptyString +:+ b) with b.
    destruct sub as [|d sub]; [destruct b; reflexivity |].
    cbn [never_straddles] in Hclean. apply andb_prop in Hclean as [Hb _].
    apply negb_true_iff in Hb. rewrite Hb. reflexivity.
  - change (String c s +:+ b) with (String c (s +:+ b)).
    destruct sub as [|d sub]; [reflexivity |].
    cbn [never_straddles] in Hclean. apply andb_prop in Hclean as [_ Hrest].
    cbn [GoStrings.HasPrefix]. rewrite (IH sub Hrest). reflexivity.
Qed.

(** A text in which [sub] neither occurs nor can end can be dropped
    from the back without changing whether [sub] occurs. *)
Lemma Contains_before (b s : string) (d : ascii) (sub : string) :
  never_straddles b (String d sub) = true ->
  GoStrings.Contains b (String d sub) = false ->
  GoStrings.Contains (s +:+ b) (String d sub) = GoStrings.Contains s (String d sub).
Proof.
  intros Hclean Hb. induction s as [|c s IH].
  - change (EmptyString +:+ b) with b. rewrite Hb. reflexivity.
  - pose proof (HasPrefix_before b (String d sub) (String c s) Hclean) as Hhead.
    change (String c s +:+ b) with (String c (s +:+ b)) in Hhead |- *.
    rewrite !Contains_cons, IH, Hhead. reflexivity.
Qed.

Lemma has_byte_slash_cons (c : ascii) (s : string) :
  has_byte "/" (String c s) = false ->
  Ascii.eqb c "/" = false /\ Ascii.eqb "/" c = false /\ has_byte "/" s = false.
Proof.
  cbn [has_byte]. destruct (Ascii.eqb_spec c "/") as [-> | Hne]; [discriminate |].
  intros H. repeat split; [| exact H]. apply Ascii.eqb_neq. congruence.
Qed.

Lemma TrimRight_clean (s : string) :
  has_byte "/" s = false -> GoStrings.TrimRight s "/" = s.
Proof.
  induction s as [|c s IH]; [reflexivity |].
  intros H. apply has_byte_slash_cons in H as (Hc & _ & Hs).
  cbn [GoStrings.TrimRight]. rewrite (IH Hs).
  destruct s; [| reflexivity].
  cbn [GoStrings.in_cutset]. rewrite Hc. reflexivity.
Qed.

Lemma TrimRight_app (a s : string) :
  GoStrings.nonempty (GoStrings.TrimRight s "/") = true ->
  GoStrings.TrimRight (a +:+ s) "/" = a +:+ GoStrings.TrimRight s "/".
Proof.
  intros Hs. induction a as [|c a IH]; [reflexivity |].
  change (String c a +:+ s) with (String c (a +:+ s)).
  change (String c a +:+ GoStrings.TrimRight s "/")
    with (String c (a +:+ GoStrings.TrimRight s "/")).
  cbn [GoStrings.TrimRight]. rewrite IH.
  destruct (a +:+ GoStrings.TrimRight s "/") eqn:Hrest; [| reflexivity].
  destruct a; [| discriminate].
  change (EmptyString +:+ GoStrings.TrimRight s "/")
    with (GoStrings.TrimRight s "/") in Hrest.
  rewrite Hrest in Hs. discriminate.
Qed.

Lemma Cut_slash_absent (s : string) :
  has_byte "/" s = false -> GoStrings.Cut s "/" = None.
Proof.
  induction s as [|c s IH]; [reflexivity |].
  intros H. apply has_byte_slash_cons in H as (_ & Hc & Hs).
  cbn [GoStrings.Cut GoStrings.HasPrefix]. rewrite Hc, (IH Hs). reflexivity.
Qed.

Lemma Cut_slash_first (a b : string) :
  has_byte "/" a = false ->
  GoStrings.Cut (a +:+ String "/" b) "/" = Some (a, b).
Proof.
  induction a as [|c a IH]; [intros _; destruct b; reflexivity |].
  intros H. apply has_byte_slash_cons in H as (_ & Hc & Ha).
  change (String c a +:+ String "/" b) with (String c (a +:+ String "/" b)).
  cbn [GoStrings.Cut GoStrings.HasPrefix]. rewrite Hc, (IH Ha). reflexivity.
Qed.

(** X26. [extractTaskID] gives back the identifier of the two task
    routes: for every non-empty identifier without a slash, the paths
    [/tasks/{id}] and [/tasks/{id}/status] both yield that identifier. *)
Theorem extractTaskID_round_trip (id : string) :
  GoStrings.nonempty id = true ->
  has_byte "/" id = false ->
  TaskHandler.extractTaskID ("/tasks/" +:+ id) = id
  /\ TaskHandler.extractTaskID ("/tasks/" +:+ id +:+ "/status") = id.
Proof.
  intros Hne Hclean. unfold TaskHandler.extractTaskID, GoStrings.Trim. split.
  - change (GoStrings.TrimLeft ("/tasks/" +:+ id) "/") with ("tasks/" +:+ id).
    rewrite TrimRight_app by (rewrite TrimRight_clean; assumption).
    rewrite (TrimRight_clean id Hclean).
    unfold GoStrings.Split.
    change (String.length ("tasks/" +:+ id))
      with (S (S (S (S (S (S (String.length id))))))).
    cbn [GoStrings.Split_rounds].
    change ("tasks/" +:+ id) with ("tasks" +:+ String "/" id).
    rewrite (Cut_slash_first "tasks" id eq_refl).
    cbn [GoStrings.Split_rounds].
    rewrite (Cut_slash_absent id Hclean). reflexivity.
  - change (GoStrings.TrimLeft ("/tasks/" +:+ id +:+ "/status") "/")
      with ("tasks/" +:+ id +:+ "/status").
    assert (Htail : GoStrings.TrimRight (id +:+ "/status") "/" = id +:+ "/status").
    { rewrite TrimRight_app by reflexivity. reflexivity. }
    rewrite TrimRight_app by (rewrite Htail; destruct id; reflexivity).
    rewrite Htail.
    unfold GoStrings.Split.
    change (String.length ("tasks/" +:+ id +:+ "/status"))
      with (S (S (S (S (S (S (String.length (id +:+ "/status")))))))).
    cbn [GoStrings.Split_rounds].
    change ("tasks/" +:+ id +:+ "/status")
      with ("tasks" +:+ String "/" (id +:+ "/status")).
    rewrite (Cut_slash_first "tasks" (id +:+ "/status") eq_refl).
    destruct (String.length (id +:+ "/status")) as [|k] eqn:Hk.
    { destruct id; discriminate. }
    cbn [GoStrings.Split_rounds].
    rewrite (Cut_slash_first id "status" Hclean). reflexivity.
Qed.

(** The identifier of a task, as a UUID prints. *)
Lemma extractTaskID_round_trip_witness :
  TaskHandler.extractTaskID ("/tasks/" +:+ "6ba7b810-9dad-11d1-80b4-00c04fd430c8")
  = "6ba7b810-9dad-11d1-80b4-00c04fd430c8"
  /\ TaskHandler.extractTaskID
       ("/tasks/" +:+ "6ba7b810-9dad-11d1-80b4-00c04fd430c8" +:+ "/status")
     = "6ba7b810-9dad-11d1-80b4-00c04fd430c8".
Proof.
  apply (extractTaskID_round_trip "6ba7b810-9dad-11d1-80b4-00c04fd430c8").
  - reflexivity.
  - reflexivity.
Defined.

(** X27. A GET for a task answers 200 with the task when the repository
    holds the identifier.  When it does not, the answer is 500 and not
    404: the handler looks for the text [not found] in an error whose
    text is Russian, so 404 is sent only if the identifier itself
    contains [not found]. *)
Theorem TaskHandler_GetTask_replies (path : string) (w : World) :
  let id := TaskHandler.extractTaskID path in
  GoStrings.nonempty id = true ->
  TaskHandler.GetTask "GET" path w
  = (Ret match taskRepo w !! id with
         | Some task => TaskHandler.reply_Task 200 task
         | None =>
             if GoStrings.Contains id "not found"
             then TaskHandler.reply_Error "Задача не найдена" 404
             else TaskHandler.reply_Error
                    ("Не удалось получить задачу: "
                     +:+ "не удалось получить задачу: "
                     +:+ repository.not_found id) 500
         end, w).
Proof.
  intros id Hne. unfold TaskHandler.GetTask.
  change (negb ("GET" =? "GET")%string) with false. cbv iota. fold id.
  rewrite Hne. cbn [negb].
  unfold GetTask, repository.GetByID, bind, repo_lookup.
  destruct (taskRepo w !! id) as [task|]; [reflexivity |].
  cbn [ret].
  assert (Htext : GoStrings.Contains
                    ("не удалось получить задачу: " +:+ repository.not_found id)
                    "not found"
                  = GoStrings.Contains id "not found").
  { unfold repository.not_found.
    rewrite Contains_skip by reflexivity.
    rewrite Contains_skip by reflexivity.
    apply Contains_before; reflexivity. }
  rewrite Htext.
  destruct (GoStrings.Contains id "not found"); reflexivity.
Qed.

(** A GET for a task nobody created. *)
Lemma TaskHandler_GetTask_replies_witness :
  TaskHandler.GetTask "GET" "/tasks/6ba7b810-9dad-11d1-80b4-00c04fd430c8" empty_World
  = (Ret match taskRepo empty_World
               !! TaskHandler.extractTaskID "/tasks/6ba7b810-9dad-11d1-80b4-00c04fd430c8"
         with
         | Some task => TaskHandler.reply_Task 200 task
         | None =>
             if GoStrings.Contains
                  (TaskHandler.extractTaskID "/tasks/6ba7b810-9dad-11d1-80b4-00c04fd430c8")
                  "not found"
             then TaskHandler.reply_Error "Задача не найдена" 404
             else TaskHandler.reply_Error
                    ("Не удалось получить задачу: "
                     +:+ "не удалось получить задачу: "
                     +:+ repository.not_found
                           (TaskHandler.extractTaskID
                              "/tasks/6ba7b810-9dad-11d1-80b4-00c04fd430c8")) 500
         end, empty_World).
Proof.
  apply (TaskHandler_GetTask_replies "/tasks/6ba7b810-9dad-11d1-80b4-00c04fd430c8"
           empty_World).
  reflexivity.
Defined.

(** X28. The status code of a POST that creates a task: 400 exactly when
    the body does not decode or holds no URL; 201 exactly when every URL
    is non-empty and the durable store accepts the task; 500 in every
    other case, so also for a list that holds an empty URL. *)
Theorem TaskHandler_CreateTask_codes
    (E : Env) (decoded : option (list string)) (w : World) :
  exists r w',
    TaskHandler.CreateTask E "POST" decoded w = (Ret r, w')
    /\ (TaskHandler.code_of r = 400 <-> decoded = None \/ decoded = Some [])
    /\ (TaskHandler.code_of r = 201 <->
        exists urls,
          decoded = Some urls /\ urls <> [] /\ (EmptyString ∉ urls)
          /\ persistent_Create E (length (trace w))
               (created_task (uuid_New E (length (trace w)))
                  (time_Now E (length (trace w))) urls) = None)
    /\ (TaskHandler.code_of r = 400 \/ TaskHandler.code_of r = 201
        \/ TaskHandler.code_of r = 500).
Proof.
  unfold TaskHandler.CreateTask.
  change (negb ("POST" =? "POST")%string) with false. cbv iota.
  destruct decoded as [urls|].
  2: { eexists _, w. split; [reflexivity |]. cbn [TaskHandler.code_of].
       split; [split; [auto | reflexivity] |].
       split; [| auto].
       split; [discriminate | intros (urls & Hd & _); discriminate]. }
  destruct urls as [|u urls].
  { eexists _, w. split; [reflexivity |]. cbn [TaskHandler.code_of].
    split; [split; [auto | reflexivity] |].
    split; [| auto].
    split; [discriminate | intros (urls & Hd & Hne & _); congruence]. }
  change (length (u :: urls) =? 0)%nat with false. cbv iota.
  assert (Hne : u :: urls <> []) by discriminate.
  assert (Hnot400 : ~ (Some (u :: urls) = None \/ Some (u :: urls) = Some []))
    by (intros [H | H]; discriminate).
  destruct (decide (EmptyString ∈ u :: urls)) as [Hempty | Hvalid].
  - assert (Hrun : CreateTask E (u :: urls) w
                   = (Ret (inl "предоставлен пустой URL"), w)).
    { unfold CreateTask. cbn [length Nat.eqb].
      apply has_empty_url_elem in Hempty. rewrite Hempty. reflexivity. }
    rewrite (bind_Ret _ _ _ _ _ Hrun).
    eexists _, w. split; [reflexivity |]. cbn [TaskHandler.code_of].
    split; [split; [discriminate | intros H; contradiction] |].
    split; [| auto].
    split; [discriminate |].
    intros (urls' & Hd & _ & Hvalid & _). injection Hd as <-. contradiction.
  - rewrite (bind_Ret _ _ _ _ _ (CreateTask_run E (u :: urls) w Hne Hvalid)).
    destruct (persistent_Create E (length (trace w))
                (created_task (uuid_New E (length (trace w)))
                   (time_Now E (length (trace w))) (u :: urls))) as [e|] eqn:Hstore.
    + eexists _, _. split; [reflexivity |]. cbn [TaskHandler.code_of].
      split; [split; [discriminate | intros H; contradiction] |].
      split; [| auto].
      split; [discriminate |].
      intros (urls' & Hd & _ & _ & Hnone). injection Hd as <-. congruence.
    + eexists _, _. split; [reflexivity |]. cbn [TaskHandler.code_of].
      split; [split; [discriminate | intros H; contradiction] |].
      split; [| auto].
      split; [intros _ | reflexivity].
      exists (u :: urls). auto.
Qed.

(** ** Start-up *)

Lemma Create_run (w : World) (task : loc) (t : Task) :
  heap w !! task = Some t ->
  repository.Create task w
  = (Ret None, mkWorld (heap w) (<[ID t := task]> (taskRepo w)) (trace w)).
Proof.
  intros Ht. unfold repository.Create, bind, load. rewrite Ht. reflexivity.
Qed.

(** The loop of [syncRepositories]: the repository it leaves holds, for
    every identifier some listed task carries, one of the listed tasks
    that carry it, and is as before for every other identifier. *)
Lemma syncRepositories_loop_run (tasks : list loc) :
  forall w : World,
    Forall (fun task => is_Some (heap w !! task)) tasks ->
    exists r',
      syncRepositories_loop tasks w = (Ret tt, mkWorld (heap w) r' (trace w))
      /\ (forall id, Exists (names w id) tasks ->
            exists q, r' !! id = Some q /\ q ∈ tasks /\ names w id q)
      /\ (forall id, ~ Exists (names w id) tasks -> r' !! id = taskRepo w !! id).
Proof.
  induction tasks as [|task rest IH]; intros w Hlive.
  - exists (taskRepo w). split; [destruct w; reflexivity |].
    split; [intros id H; inversion H | reflexivity].
  - apply Forall_cons in Hlive as [[t Ht] Hrest].
    cbn [syncRepositories_loop].
    rewrite (bind_Ret _ _ _ _ _ (Create_run w task t Ht)).
    set (w1 := mkWorld (heap w) (<[ID t := task]> (taskRepo w)) (trace w)).
    destruct (IH w1 Hrest) as (r' & Hrun & Hnamed & Hother).
    exists r'. split; [exact Hrun |].
    assert (Htask : names w (ID t) task) by (unfold names; rewrite Ht; reflexivity).
    split.
    + intros id Hid.
      assert (Hdec : forall q, Decision (names w id q))
        by (intros q; unfold names; apply _).
      destruct (decide (Exists (names w id) rest)) as [Hin | Hout].
      * destruct (Hnamed id Hin) as (q & Hq & Hmem & Hname).
        exists q. split; [exact Hq |].
        split; [apply list_elem_of_further; exact Hmem | exact Hname].
      * apply Exists_cons in Hid as [Hhere | Hlater]; [| contradiction].
        assert (id = ID t) as -> by (unfold names in Hhere, Htask; congruence).
        exists task. rewrite (Hother (ID t) Hout).
        split; [apply lookup_insert_eq |].
        split; [apply list_elem_of_here | exact Htask].
    + intros id Hout.
      assert (Hrest' : ~ Exists (names w id) rest).
      { intros H. apply Hout. apply Exists_cons. right. exact H. }
      rewrite (Hother id Hrest'). cbn [taskRepo w1].
      apply lookup_insert_ne. intros <-.
      apply Hout. apply Exists_cons. left. exact Htask.
Qed.

(** With a nil pointer among the tasks the loop panics. *)
Lemma syncRepositories_loop_nil (tasks : list loc) :
  forall w : World,
    Exists (fun task => heap w !! task = None) tasks ->
    exists msg w', syncRepositories_loop tasks w = (Panic msg, w').
Proof.
  induction tasks as [|task rest IH]; intros w Hnil; [inversion Hnil |].
  cbn [syncRepositories_loop].
  destruct (heap w !! task) as [t|] eqn:Ht.
  - rewrite (bind_Ret _ _ _ _ _ (Create_run w task t Ht)).
    apply IH. apply Exists_cons in Hnil as [Hhere | Hlater]; [congruence | exact Hlater].
  - eexists _, _. apply bind_Panic.
    unfold repository.Create. apply bind_Panic.
    unfold load. rewrite Ht. reflexivity.
Qed.

(** X29. [syncRepositories] returns the error of the file repository's
    [GetAll], changing nothing, when that call fails.  Otherwise, when
    every task pointer it was given is non-nil, it returns [nil] and
    touches no task object; after it every task read from the file can be
    found in the in-memory repository under its own identifier (for an
    identifier two of them share, one of the two is found), every other
    key is as before, and every key still is the identifier of the task
    it points to.  With a nil pointer among the tasks it panics. *)
Theorem syncRepositories_indexes_by_ID (w : World) (all : string + list loc) :
  keyed_by_ID w /\ no_dangling w ->
  match all with
  | inl err => syncRepositories all w = (Ret (Some err), w)
  | inr tasks =>
      (Forall (fun task => is_Some (heap w !! task)) tasks ->
       exists w',
         syncRepositories all w = (Ret None, w')
         /\ heap w' = heap w
         /\ (forall task t, task ∈ tasks -> heap w !! task = Some t ->
               exists q tq, taskRepo w' !! ID t = Some q
                            /\ q ∈ tasks
                            /\ heap w' !! q = Some tq /\ ID tq = ID t)
         /\ (forall id, ~ Exists (names w id) tasks ->
               taskRepo w' !! id = taskRepo w !! id)
         /\ keyed_by_ID w' /\ no_dangling w')
      /\ (Exists (fun task => heap w !! task = None) tasks ->
          exists msg w', syncRepositories all w = (Panic msg, w'))
  end.
Proof.
  intros Hkeyed. destruct all as [err | tasks]; [reflexivity |]. split.
  2: { intros Hnil. destruct (syncRepositories_loop_nil tasks w Hnil) as (msg & w' & Hrun).
       exists msg, w'. cbn [syncRepositories]. apply bind_Panic. exact Hrun. }
  intros Hlive.
  destruct (syncRepositories_loop_run tasks w Hlive) as (r' & Hrun & Hnamed & Hother).
  exists (mkWorld (heap w) r' (trace w)).
  split.
  { cbn [syncRepositories]. rewrite (bind_Ret _ _ _ _ _ Hrun). reflexivity. }
  split; [reflexivity |].
  assert (Hfound : forall id q, r' !! id = Some q ->
            taskRepo w !! id = Some q
            \/ exists t', heap w !! q = Some t' /\ ID t' = id).
  { intros id q Hq.
    assert (Hdec : forall q0, Decision (names w id q0))
      by (intros q0; unfold names; apply _).
    destruct (decide (Exists (names w id) tasks)) as [Hin | Hout].
    - destruct (Hnamed id Hin) as (q' & Hq' & _ & Hname).
      replace q' with q in Hname by congruence.
      right. unfold names in Hname.
      destruct (heap w !! q) as [t'|]; [| discriminate].
      exists t'. split; [reflexivity |]. cbn in Hname. congruence.
    - left. rewrite <- (Hother id Hout). exact Hq. }
  split.
  { intros task t Htask Ht.
    assert (Hin : Exists (names w (ID t)) tasks).
    { apply Exists_exists. exists task. split; [exact Htask |].
      unfold names. rewrite Ht. reflexivity. }
    destruct (Hnamed (ID t) Hin) as (q & Hq & Hmem & Hname).
    unfold names in Hname. cbn [heap].
    destruct (heap w !! q) as [tq|] eqn:Htq; [| discriminate].
    exists q, tq. cbn in Hname. injection Hname as Hname.
    split; [exact Hq |]. split; [exact Hmem |]. split; [exact Htq | exact Hname]. }
  split; [exact Hother |].
  apply (keyed_step w); [| exact Hfound | exact Hkeyed].
  intros q t Hq. exists t. auto.
Qed.

Lemma empty_repository_keyed (heap0 : list Task) (tr : list Event) :
  keyed_by_ID (mkWorld heap0 ∅ tr) /\ no_dangling (mkWorld heap0 ∅ tr).
Proof.
  split.
  - intros id q t Hq. cbn in Hq. rewrite lookup_empty in Hq. discriminate.
  - intros id q Hq. cbn in Hq. rewrite lookup_empty in Hq. discriminate.
Qed.

(** Start-up into an empty in-memory repository: a file repository that
    cannot list its tasks, one that lists the two-file task, and one that
    lists a nil pointer. *)
Lemma syncRepositories_indexes_by_ID_witness :
  syncRepositories (inl "read error") unregistered_World
  = (Ret (Some "read error"), unregistered_World)
  /\ (exists w',
        syncRepositories (inr [0%nat]) unregistered_World = (Ret None, w')
        /\ heap w' = heap unregistered_World
        /\ (forall task t, task ∈ [0%nat] ->
              heap unregistered_World !! task = Some t ->
              exists q tq, taskRepo w' !! ID t = Some q
                           /\ q ∈ [0%nat]
                           /\ heap w' !! q = Some tq /\ ID tq = ID t)
        /\ (forall id, ~ Exists (names unregistered_World id) [0%nat] ->
              taskRepo w' !! id = taskRepo unregistered_World !! id)
        /\ keyed_by_ID w' /\ no_dangling w')
  /\ (exists msg w',
        syncRepositories (inr [5%nat]) unregistered_World = (Panic msg, w')).
Proof.
  split; [| split].
  - apply (syncRepositories_indexes_by_ID unregistered_World (inl "read error")).
    apply empty_repository_keyed.
  - apply (proj1 (syncRepositories_indexes_by_ID unregistered_World (inr [0%nat])
                    (empty_repository_keyed _ _))).
    repeat constructor. eexists. reflexivity.
  - apply (proj2 (syncRepositories_indexes_by_ID unregistered_World (inr [5%nat])
                    (empty_repository_keyed _ _))).
    repeat constructor.
Defined.

(** ** The filename of a header *)

Lemma parameters_from_plain (quoted : bool) (a cur rest : string) :
  has_byte "034" a = false ->
  quoted = true \/ has_byte ";" a = false ->
  parameters_from quoted cur (a +:+ rest) = parameters_from quoted (cur +:+ a) rest.
Proof.
  revert cur. induction a as [|c a IH]; intros cur Hquote Hsemi.
  - rewrite string_app_nil_r. reflexivity.
  - change (String c a +:+ rest) with (String c (a +:+ rest)).
    cbn [has_byte] in Hquote.
    destruct (Ascii.eqb c "034") eqn:Hc; [discriminate |].
    cbn [parameters_from]. rewrite Hc.
    assert (Hstep : Ascii.eqb c ";" && negb quoted = false).
    { destruct Hsemi as [-> | Hsemi]; [apply andb_false_r |].
      cbn [has_byte] in Hsemi.
      destruct (Ascii.eqb c ";"); [discriminate | reflexivity]. }
    rewrite Hstep, IH.
    + rewrite string_app_assoc. reflexivity.
    + exact Hquote.
    + destruct Hsemi as [-> | Hsemi]; [left; reflexivity | right].
      cbn [has_byte] in Hsemi. destruct (Ascii.eqb c ";"); [discriminate | exact Hsemi].
Qed.

Lemma up_to_quote_app (name rest : string) :
  has_byte "034" name = false ->
  up_to_quote (name +:+ String "034" rest) = name.
Proof.
  induction name as [|c name IH]; intros Hname.
  - reflexivity.
  - change (String c name +:+ String "034" rest)
      with (String c (name +:+ String "034" rest)).
    cbn [has_byte] in Hname. cbn [up_to_quote].
    destruct (Ascii.eqb c "034"); [discriminate |].
    rewrite (IH Hname). reflexivity.
Qed.

(** The filename parameter of a header [attachment; filename="name"]
    with anything after the closing quote. *)
Lemma header_filename_quoted (name post : string) :
  GoStrings.nonempty name = true ->
  has_byte "034" name = false ->
  post = EmptyString \/ (exists more, post = String ";" more) ->
  header_filename
    ("attachment; filename=" +:+ GoStrings.double_quote +:+ name
       +:+ GoStrings.double_quote +:+ post)
  = Some name.
Proof.
  intros Hne Hname Hpost. unfold header_filename, parameters.
  set (piece := " filename=" +:+ GoStrings.double_quote +:+ name
                  +:+ GoStrings.double_quote).
  assert (Hparams : exists tail,
    parameters_from false EmptyString
      ("attachment; filename=" +:+ GoStrings.double_quote +:+ name
         +:+ GoStrings.double_quote +:+ post)
    = "attachment" :: piece :: tail).
  { change (parameters_from false EmptyString
              ("attachment; filename=" +:+ GoStrings.double_quote +:+ name
                 +:+ GoStrings.double_quote +:+ post))
      with ("attachment"
            :: parameters_from true (" filename=" +:+ GoStrings.double_quote)
                 (name +:+ String "034" post)).
    rewrite (parameters_from_plain true name _ _ Hname (or_introl eq_refl)).
    cbn [parameters_from Ascii.eqb Bool.eqb negb].
    assert (Hpiece : ((" filename=" +:+ GoStrings.double_quote) +:+ name)
                       +:+ String "034" EmptyString = piece).
    { unfold piece. rewrite !string_app_assoc. reflexivity. }
    rewrite Hpiece.
    destruct Hpost as [-> | [more ->]].
    - exists []. reflexivity.
    - eexists. cbn [parameters_from Ascii.eqb Bool.eqb negb andb]. reflexivity. }
  destruct Hparams as [tail ->].
  cbn [filename_parameter].
  change (after_prefix "filename=" (skip_blanks "attachment")) with (@None string).
  change (after_prefix "filename=" (skip_blanks piece))
    with (Some (String "034" (name +:+ String "034" EmptyString))).
  cbn [parameter_value Ascii.eqb Bool.eqb].
  rewrite (up_to_quote_app name EmptyString Hname), Hne. reflexivity.
Qed.

(** The filename parameter of some headers. *)
Example header_filename_examples :
  header_filename "attachment; filename=report.pdf" = Some "report.pdf"
  /\ header_filename "attachment; filename=a.txt; size=3" = Some "a.txt"
  /\ header_filename
       ("attachment; filename=" +:+ GoStrings.double_quote +:+ "a;b.txt"
          +:+ GoStrings.double_quote +:+ "; size=3") = Some "a;b.txt"
  /\ header_filename "inline" = None
  /\ header_filename "attachment; size=3" = None
  /\ header_filename EmptyString = None.
Proof. repeat split. Qed.

(** [strings.TrimRight] and [strings.TrimLeft] with a one-byte cutset. *)
Lemma TrimRight_without (c : ascii) (s : string) :
  has_byte c s = false -> GoStrings.TrimRight s (String c EmptyString) = s.
Proof.
  induction s as [|d s IH]; [reflexivity |].
  cbn [has_byte]. destruct (Ascii.eqb d c) eqn:Hd; [discriminate |].
  intros Hs. cbn [GoStrings.TrimRight]. rewrite (IH Hs).
  destruct s; [| reflexivity].
  cbn [GoStrings.in_cutset]. rewrite Hd. reflexivity.
Qed.

Lemma TrimRight_append (cutset a s : string) :
  GoStrings.nonempty (GoStrings.TrimRight s cutset) = true ->
  GoStrings.TrimRight (a +:+ s) cutset = a +:+ GoStrings.TrimRight s cutset.
Proof.
  intros Hs. induction a as [|c a IH]; [reflexivity |].
  change (String c a +:+ s) with (String c (a +:+ s)).
  change (String c a +:+ GoStrings.TrimRight s cutset)
    with (String c (a +:+ GoStrings.TrimRight s cutset)).
  cbn [GoStrings.TrimRight]. rewrite IH.
  destruct (a +:+ GoStrings.TrimRight s cutset) eqn:Hrest; [| reflexivity].
  destruct a; [| discriminate].
  change (EmptyString +:+ GoStrings.TrimRight s cutset)
    with (GoStrings.TrimRight s cutset) in Hrest.
  rewrite Hrest in Hs. discriminate.
Qed.

Lemma TrimRight_closing_quote (name : string) :
  GoStrings.nonempty name = true ->
  has_byte "034" name = false ->
  GoStrings.TrimRight (name +:+ GoStrings.double_quote) GoStrings.double_quote = name.
Proof.
  induction name as [|c name IH]; [discriminate |].
  intros _. cbn [has_byte]. destruct (Ascii.eqb c "034") eqn:Hc; [discriminate |].
  intros Hname.
  change (String c name +:+ GoStrings.double_quote)
    with (String c (name +:+ GoStrings.double_quote)).
  cbn [GoStrings.TrimRight].
  destruct name as [|d name].
  - change (GoStrings.TrimRight (EmptyString +:+ GoStrings.double_quote)
              GoStrings.double_quote) with EmptyString.
    unfold GoStrings.double_quote. cbn [GoStrings.in_cutset]. rewrite Hc. reflexivity.
  - rewrite (IH eq_refl Hname). reflexivity.
Qed.

Lemma TrimLeft_opening_quote (name rest : string) :
  GoStrings.nonempty name = true ->
  has_byte "034" name = false ->
  GoStrings.TrimLeft (GoStrings.double_quote +:+ name +:+ rest) GoStrings.double_quote
  = name +:+ rest.
Proof.
  destruct name as [|c name]; [discriminate |].
  intros _. cbn [has_byte]. destruct (Ascii.eqb c "034") eqn:Hc; [discriminate |].
  intros _.
  change (GoStrings.double_quote +:+ String c name +:+ rest)
    with (String "034" (String c (name +:+ rest))).
  unfold GoStrings.double_quote.
  cbn [GoStrings.TrimLeft GoStrings.in_cutset Ascii.eqb Bool.eqb]. rewrite Hc.
  reflexivity.
Qed.

Lemma after_marker_Contains (s sub : string) :
  GoStrings.Contains s sub = false -> after_marker sub s = None.
Proof.
  unfold GoStrings.Contains. rewrite Cut_markers.
  destruct (after_marker sub s); [discriminate | reflexivity].
Qed.

(** What the code reads from a header [attachment; filename="name"]
    followed by [tail], when no further [filename=] follows. *)
Lemma marker_text_quoted (name tail : string) :
  GoStrings.nonempty name = true ->
  has_byte "034" name = false ->
  GoStrings.Contains (name +:+ GoStrings.double_quote +:+ tail) "filename=" = false ->
  marker_text
    ("attachment; filename=" +:+ GoStrings.double_quote +:+ name
       +:+ GoStrings.double_quote +:+ tail)
  = let text := GoStrings.TrimRight (name +:+ GoStrings.double_quote +:+ tail)
                  GoStrings.double_quote in
    if GoStrings.nonempty text then Some text else None.
Proof.
  intros Hne Hname Hrest. unfold marker_text.
  change (after_marker "filename="
            ("attachment; filename=" +:+ GoStrings.double_quote +:+ name
               +:+ GoStrings.double_quote +:+ tail))
    with (Some (GoStrings.double_quote +:+ name +:+ GoStrings.double_quote +:+ tail)).
  cbv iota beta.
  assert (Habsent : after_marker "filename="
                      (GoStrings.double_quote +:+ name
                         +:+ GoStrings.double_quote +:+ tail) = None).
  { apply after_marker_Contains.
    change (GoStrings.double_quote +:+ name +:+ GoStrings.double_quote +:+ tail)
      with (String "034" (name +:+ GoStrings.double_quote +:+ tail)).
    rewrite Contains_cons, Hrest. reflexivity. }
  rewrite (before_marker_absent _ _ Habsent).
  unfold GoStrings.Trim. rewrite (TrimLeft_opening_quote name _ Hne Hname).
  reflexivity.
Qed.

Lemma append_longer (s rest : string) (c : ascii) : s +:+ String c rest <> s.
Proof.
  induction s as [|d s IH]; [discriminate |].
  change (String d s +:+ String c rest) with (String d (s +:+ String c rest)).
  intros H. injection H as H. exact (IH H).
Qed.

(** Without a header [getFileName] follows the rule of the design
    document. *)
Lemma getFileName_rule_without_header (unix : Z) (url : string) :
  getFileName unix url EmptyString = filename_rule unix url EmptyString.
Proof. rewrite getFileName_by_marker. reflexivity. Qed.

(** With a quoted filename as the header's last parameter [getFileName]
    follows the rule too: it returns the header's filename. *)
Lemma getFileName_rule_filename_last (unix : Z) (url name : string) :
  GoStrings.nonempty name = true ->
  has_byte "034" name = false ->
  GoStrings.Contains (name +:+ GoStrings.double_quote) "filename=" = false ->
  header_filename
    ("attachment; filename=" +:+ GoStrings.double_quote +:+ name
       +:+ GoStrings.double_quote) = Some name
  /\ getFileName unix url
       ("attachment; filename=" +:+ GoStrings.double_quote +:+ name
          +:+ GoStrings.double_quote) = name.
Proof.
  intros Hne Hname Hrest.
  pose proof (header_filename_quoted name EmptyString Hne Hname (or_introl eq_refl))
    as Hheader.
  pose proof (marker_text_quoted name EmptyString Hne Hname) as Hcode.
  rewrite !string_app_nil_r in Hheader, Hcode.
  split; [exact Hheader |].
  rewrite getFileName_by_marker, (Hcode Hrest). cbv zeta.
  rewrite (TrimRight_closing_quote name Hne Hname), Hne. reflexivity.
Qed.

(** A header value without an equals sign has no parameter, so it
    carries no filename; the code finds no [filename=] in it either. *)
Lemma HasPrefix_needs_byte (c : ascii) (prefix s : string) :
  has_byte c prefix = true -> has_byte c s = false ->
  GoStrings.HasPrefix s prefix = false.
Proof.
  revert s. induction prefix as [|d prefix IH]; intros s Hprefix Hs; [discriminate |].
  destruct s as [|e s]; [reflexivity |].
  cbn [GoStrings.HasPrefix]. cbn [has_byte] in Hprefix, Hs.
  destruct (Ascii.eqb_spec d e) as [<- | Hne]; [| reflexivity].
  destruct (Ascii.eqb d c); [discriminate |].
  apply IH; assumption.
Qed.

Lemma after_marker_needs_byte (c : ascii) (marker s : string) :
  has_byte c marker = true -> has_byte c s = false -> after_marker marker s = None.
Proof.
  intros Hmarker. induction s as [|d s IH]; intros Hs.
  - cbn [after_marker]. rewrite (HasPrefix_needs_byte c marker _ Hmarker Hs). reflexivity.
  - cbn [after_marker]. rewrite (HasPrefix_needs_byte c marker _ Hmarker Hs).
    apply IH. cbn [has_byte] in Hs. destruct (Ascii.eqb d c); [discriminate | exact Hs].
Qed.

Lemma after_prefix_needs_byte (c : ascii) (prefix s : string) :
  has_byte c prefix = true -> has_byte c s = false -> after_prefix prefix s = None.
Proof.
  revert s. induction prefix as [|d prefix IH]; intros s Hprefix Hs; [discriminate |].
  destruct s as [|e s]; [reflexivity |].
  cbn [after_prefix]. cbn [has_byte] in Hprefix, Hs.
  destruct (Ascii.eqb_spec d e) as [<- | Hne]; [| reflexivity].
  destruct (Ascii.eqb d c); [discriminate |].
  apply IH; assumption.
Qed.

Lemma skip_blanks_bytes (c : ascii) (s : string) :
  has_byte c s = false -> has_byte c (skip_blanks s) = false.
Proof.
  induction s as [|d s IH]; [reflexivity |].
  intros Hs. cbn [skip_blanks]. destruct (Ascii.eqb d " "); [| exact Hs].
  apply IH. cbn [has_byte] in Hs. destruct (Ascii.eqb d c); [discriminate | exact Hs].
Qed.

Lemma parameters_from_bytes (c : ascii) (s : string) :
  forall (quoted : bool) (cur : string),
    has_byte c cur = false -> has_byte c s = false ->
    Forall (fun param => has_byte c param = false) (parameters_from quoted cur s).
Proof.
  induction s as [|d s IH]; intros quoted cur Hcur Hs.
  - repeat constructor. exact Hcur.
  - cbn [has_byte] in Hs. destruct (Ascii.eqb d c) eqn:Hd; [discriminate |].
    assert (Hgrown : has_byte c (cur +:+ String d EmptyString) = false).
    { rewrite has_byte_app, Hcur. cbn [has_byte orb]. rewrite Hd. reflexivity. }
    cbn [parameters_from].
    destruct (Ascii.eqb d "034"); [apply IH; assumption |].
    destruct (Ascii.eqb d ";" && negb quoted).
    + constructor; [exact Hcur | apply IH; [reflexivity | exact Hs]].
    + apply IH; assumption.
Qed.

Lemma filename_parameter_needs_equals (params : list string) :
  Forall (fun param => has_byte "=" param = false) params ->
  filename_parameter params = None.
Proof.
  induction 1 as [|param rest Hparam _ IH]; [reflexivity |].
  cbn [filename_parameter].
  rewrite (after_prefix_needs_byte "=" "filename=" _ eq_refl
             (skip_blanks_bytes "=" param Hparam)).
  exact IH.
Qed.

(** With a header that has a disposition type and no parameter
    [getFileName] follows the rule: the name comes from the URL. *)
Lemma getFileName_rule_header_without_parameter (unix : Z) (url header : string) :
  has_byte "=" header = false ->
  header_filename header = None
  /\ getFileName unix url header = filename_rule unix url header.
Proof.
  intros Hplain.
  assert (Hheader : header_filename header = None).
  { unfold header_filename, parameters.
    rewrite (filename_parameter_needs_equals _
               (parameters_from_bytes "=" header false EmptyString eq_refl Hplain)).
    reflexivity. }
  split; [exact Hheader |].
  rewrite getFileName_by_marker. unfold filename_rule, marker_text.
  rewrite Hheader, (after_marker_needs_byte "=" "filename=" header eq_refl Hplain).
  reflexivity.
Qed.

(** C9 at its failing inputs.  For a header whose quoted
    filename is followed by a further parameter, as in
    [attachment; filename="a.txt"; size=3], the header's filename is the
    text between the quotes, and that is what the rule of the design
    document names; [getFileName] returns that text together with the
    closing quote, the semicolon and the parameter that follows. *)
Theorem getFileName_header_with_further_parameter
    (unix : Z) (url name more : string) :
  GoStrings.nonempty name = true ->
  has_byte "034" name = false ->
  has_byte "034" more = false ->
  GoStrings.Contains (name +:+ GoStrings.double_quote +:+ "; " +:+ more) "filename="
  = false ->
  let header := "attachment; filename=" +:+ GoStrings.double_quote +:+ name
                  +:+ GoStrings.double_quote +:+ "; " +:+ more in
  header_filename header = Some name
  /\ filename_rule unix url header = name
  /\ getFileName unix url header = name +:+ GoStrings.double_quote +:+ "; " +:+ more
  /\ getFileName unix url header <> filename_rule unix url header.
Proof.
  intros Hne Hname Hmore Hrest header.
  assert (Hheader : header_filename header = Some name).
  { apply (header_filename_quoted name ("; " +:+ more) Hne Hname).
    right. exists (String " " more). reflexivity. }
  assert (Hrule : filename_rule unix url header = name).
  { unfold filename_rule. rewrite Hheader. reflexivity. }
  assert (Htail : GoStrings.TrimRight (GoStrings.double_quote +:+ "; " +:+ more)
                    GoStrings.double_quote
                  = GoStrings.double_quote +:+ "; " +:+ more).
  { change (GoStrings.double_quote +:+ "; " +:+ more)
      with (String "034" (String ";" (String " " more))).
    unfold GoStrings.double_quote. cbn [GoStrings.TrimRight].
    rewrite (TrimRight_without "034" more Hmore).
    destruct more; reflexivity. }
  assert (Hcode : getFileName unix url header
                  = name +:+ GoStrings.double_quote +:+ "; " +:+ more).
  { rewrite getFileName_by_marker. unfold header.
    rewrite (marker_text_quoted name ("; " +:+ more) Hne Hname Hrest). cbv zeta.
    rewrite TrimRight_append by (rewrite Htail; reflexivity).
    rewrite Htail.
    destruct name as [|c name]; [discriminate | reflexivity]. }
  split; [exact Hheader |]. split; [exact Hrule |]. split; [exact Hcode |].
  rewrite Hcode, Hrule. apply append_longer.
Qed.

(** The header [attachment; filename="a.txt"; size=3]. *)
Lemma getFileName_header_with_further_parameter_witness :
  header_filename
    ("attachment; filename=" +:+ GoStrings.double_quote +:+ "a.txt"
       +:+ GoStrings.double_quote +:+ "; " +:+ "size=3") = Some "a.txt"
  /\ filename_rule 1700000000 "https://x/a.jpg"
       ("attachment; filename=" +:+ GoStrings.double_quote +:+ "a.txt"
          +:+ GoStrings.double_quote +:+ "; " +:+ "size=3") = "a.txt"
  /\ getFileName 1700000000 "https://x/a.jpg"
       ("attachment; filename=" +:+ GoStrings.double_quote +:+ "a.txt"
          +:+ GoStrings.double_quote +:+ "; " +:+ "size=3")
     = "a.txt" +:+ GoStrings.double_quote +:+ "; " +:+ "size=3"
  /\ getFileName 1700000000 "https://x/a.jpg"
       ("attachment; filename=" +:+ GoStrings.double_quote +:+ "a.txt"
          +:+ GoStrings.double_quote +:+ "; " +:+ "size=3")
     <> filename_rule 1700000000 "https://x/a.jpg"
          ("attachment; filename=" +:+ GoStrings.double_quote +:+ "a.txt"
             +:+ GoStrings.double_quote +:+ "; " +:+ "size=3").
Proof.
  apply (getFileName_header_with_further_parameter 1700000000 "https://x/a.jpg"
           "a.txt" "size=3"); reflexivity.
Defined.


(** ** A download directory that cannot be created *)

Lemma HasPrefix_append (prefix s : string) :
  GoStrings.HasPrefix (prefix +:+ s) prefix = true.
Proof.
  induction prefix as [|c prefix IH]; [destruct s; reflexivity |].
  change (String c prefix +:+ s) with (String c (prefix +:+ s)).
  cbn [GoStrings.HasPrefix]. rewrite Ascii.eqb_refl. exact IH.
Qed.

(** C8, as the code has it.  For a task whose download directory cannot
    be created, [ProcessTask] returns an error, downloads nothing and
    leaves every file record as it was.  Once its first status update
    has been accepted (the in-memory repository knows the task and the
    durable repository takes the update) it tries to create the
    directory, returns the directory error and leaves the task failed
    with that error as its error message.  When the first update is
    refused it returns the update error before it tries to create the
    directory, and the task stays in status processing with its error
    message untouched. *)
Theorem ProcessTask_directory_cannot_be_created
    (E : Env) (w : World) (task : loc) (t : Task) (e : string) :
  heap w !! task = Some t ->
  (forall n, os_MkdirAll E n (filepath_Join E [downloadDir; ID t]) = Some e) ->
  exists res w' t',
    ProcessTask E task w = (Ret (Some res), w')
    /\ heap w' !! task = Some t'
    /\ Files t' = Files t
    /\ download_calls (new_events w w') = []
    /\ (is_Some (taskRepo w !! ID t)
        /\ persistent_Update E (length (trace w))
             (UpdateStatus (time_Now E (length (trace w))) TaskStatusProcessing t)
           = None ->
        res = "не удалось создать директорию для скачивания: " +:+ e
        /\ TStatus t' = TaskStatusFailed
        /\ TError t' = "не удалось создать директорию для скачивания: " +:+ e
        /\ EvMkdirAll (filepath_Join E [downloadDir; ID t]) (Some e)
             ∈ new_events w w')
    /\ (taskRepo w !! ID t = None
        \/ is_Some (persistent_Update E (length (trace w))
                      (UpdateStatus (time_Now E (length (trace w)))
                         TaskStatusProcessing t)) ->
        GoStrings.HasPrefix res "не удалось обновить статус задачи: " = true
        /\ TStatus t' = TaskStatusProcessing
        /\ TError t' = TError t
        /\ Forall not_mkdir (new_events w w')).
Proof.
  intros Hheap Hmkdir.
  pose proof (lookup_lt_Some _ _ _ Hheap) as Hlt.
  set (t1 := UpdateStatus (time_Now E (length (trace w))) TaskStatusProcessing t).
  unfold new_events.
  destruct (taskRepo w !! ID t) as [q|] eqn:Hrepo.
  2: { pose proof (ProcessTask_unknown_at E task (heap w) Hlt t (taskRepo w) (trace w)
                     Hrepo) as Hrun.
       rewrite <- (at_task_initial w task t Hheap) in Hrun.
       eexists _, _, _. split; [exact Hrun |].
       split; [apply heap_at_task; exact Hlt |].
       cbn [trace at_task]. rewrite drop_all.
       split; [reflexivity |]. split; [reflexivity |]. split.
       - intros [[q Hq] _]. discriminate.
       - intros _. repeat split. constructor. }
  assert (Hknown : is_Some (taskRepo w !! ID t)) by (exists q; exact Hrepo).
  rewrite <- Hrepo.
  destruct (persistent_Update E (length (trace w)) t1) as [e0|] eqn:Hupdate.
  { pose proof (ProcessTask_update_rejected_at E task (heap w) Hlt t (taskRepo w)
                  (trace w) e0 Hknown Hupdate) as Hrun.
    rewrite <- (at_task_initial w task t Hheap) in Hrun.
    eexists _, _, _. split; [exact Hrun |].
    split; [apply heap_at_task; exact Hlt |].
    cbn [trace at_task]. rewrite drop_app_length.
    split; [reflexivity |]. split; [reflexivity |]. split.
    - intros [_ Hnone]. discriminate.
    - intros _. split; [apply HasPrefix_append |]. repeat split.
      repeat constructor. }
  assert (Hmkdir' : os_MkdirAll E (length (trace w ++ [EvPersistUpdate t1 None]))
                      (filepath_Join E [downloadDir; ID t]) = Some e) by apply Hmkdir.
  pose proof (ProcessTask_mkdir_failed_at E task (heap w) Hlt t (taskRepo w) (trace w) e
                Hknown Hupdate Hmkdir') as Hrun.
  rewrite <- (at_task_initial w task t Hheap) in Hrun.
  eexists _, _, _. split; [exact Hrun |].
  split; [apply heap_at_task; exact Hlt |].
  cbn [trace at_task]. rewrite <- !app_assoc, drop_app_length.
  split; [reflexivity |]. split; [reflexivity |]. split.
  - intros _. repeat split.
    apply list_elem_of_further, list_elem_of_here.
  - intros [Hnone | [e0 He0]]; [rewrite Hrepo in Hnone |]; discriminate.
Qed.

(** The two-file task in an environment where the directory cannot be
    created and everything else works. *)
Lemma ProcessTask_directory_cannot_be_created_witness :
  exists w' t',
    ProcessTask (example_Env (Some "permission denied") response_200) 0%nat
      two_file_World
    = (Ret (Some ("не удалось создать директорию для скачивания: "
                  +:+ "permission denied")), w')
    /\ heap w' !! 0%nat = Some t'
    /\ Files t' = Files two_file_task
    /\ download_calls (new_events two_file_World w') = []
    /\ TStatus t' = TaskStatusFailed
    /\ TError t' = "не удалось создать директорию для скачивания: "
                   +:+ "permission denied"
    /\ EvMkdirAll "./downloads/task-1" (Some "permission denied")
         ∈ new_events two_file_World w'.
Proof.
  destruct (ProcessTask_directory_cannot_be_created
              (example_Env (Some "permission denied") response_200)
              two_file_World 0%nat two_file_task "permission denied")
    as (res & w' & t' & Hrun & Hheap & Hfiles & Hcalls & Haccepted & _).
  - reflexivity.
  - intros n. reflexivity.
  - destruct Haccepted as (-> & Hstatus & Herror & Hevent).
    + split; [vm_compute; eexists; reflexivity | reflexivity].
    + exists w', t'. repeat split; assumption.
Defined.

(** C8 as stated fails when the first update is refused.  The directory
    of the two-file task cannot be created, and the durable repository
    refuses the first update: [ProcessTask] returns the update error and
    the task is left in status processing, without an error message. *)
Lemma ProcessTask_directory_failure_counterexample :
  (forall n path, os_MkdirAll (sealed_Env "read-only file system") n path
                  = Some "read-only file system")
  /\ exists w' t',
       ProcessTask (sealed_Env "read-only file system") 0%nat two_file_World
       = (Ret (Some ("не удалось обновить статус задачи: "
                     +:+ "read-only file system")), w')
       /\ heap w' !! 0%nat = Some t'
       /\ TStatus t' = TaskStatusProcessing
       /\ TError t' = EmptyString
       /\ download_calls (new_events two_file_World w') = []
       /\ Forall not_mkdir (new_events two_file_World w').
Proof.
  split; [reflexivity |].
  eexists _, _. split; [vm_compute; reflexivity |].
  split; [reflexivity |]. split; [reflexivity |]. split; [reflexivity |].
  split; [reflexivity |]. vm_compute. repeat constructor.
Qed.

(** ** Submitting while the pool stops *)

Section pool_lock.

Import infrastructure.

Lemma AddTask_keeps_flags (choice : nat) (taskID : string) (wp : WorkerPool) :
  running (fst (AddTask choice taskID wp)) = running wp
  /\ cancelled (fst (AddTask choice taskID wp)) = cancelled wp.
Proof.
  unfold AddTask. destruct (running wp) eqn:Hrun; cbn [negb fst];
    [| split; [exact Hrun | reflexivity]].
  destruct (ready_cases wp !! (choice `mod` length (ready_cases wp))%nat) as [[|]|];
    cbn [fst running cancelled]; split; solve [exact Hrun | reflexivity].
Qed.

(** [Stop] is its two halves, one after the other. *)
Lemma Stop_in_two_halves (wp : WorkerPool) :
  Stop wp
  = match Stop_enter (unlocked wp) with
    | Some g => if stopping g then pool (Stop_leave g) else pool g
    | None => wp
    end.
Proof.
  unfold Stop, Stop_enter, Stop_leave, unlocked. cbn [stopping pool].
  destruct (running wp); reflexivity.
Qed.

(** In the lifecycle a pool whose lock is free and which is running has
    a live context, and while a [Stop] waits the pool is still marked
    running. *)
Lemma lifecycle_flags (g : LockedPool) :
  lifecycle g ->
  (stopping g = false -> running (pool g) = true -> cancelled (pool g) = false)
  /\ (stopping g = true -> running (pool g) = true).
Proof.
  induction 1 as [n | g g' _ IH Hlive Hcall | g g' choice taskID err _ IH Hcall
                  | g g' _ IH Hcall | g _ IH Hwait | g queue ws _ IH Hlen].
  - split; discriminate.
  - unfold Start_call in Hcall. destruct (stopping g) eqn:Hfree; [discriminate |].
    injection Hcall as <-. cbn [unlocked stopping pool].
    split; [| discriminate]. intros _ _.
    unfold Start. destruct (running (pool g)); [exact Hlive | exact Hlive].
  - unfold AddTask_call in Hcall. destruct (stopping g) eqn:Hfree; [discriminate |].
    injection Hcall as <- _. cbn [unlocked stopping pool].
    destruct (AddTask_keeps_flags choice taskID (pool g)) as [-> ->].
    split; [| discriminate]. intros _. apply IH. reflexivity.
  - unfold Stop_enter in Hcall. destruct (stopping g) eqn:Hfree; [discriminate |].
    destruct (running (pool g)) eqn:Hrun; cbn [negb] in Hcall;
      injection Hcall as <-.
    + cbn [stopping pool running cancelled]. split; [discriminate | reflexivity].
    + split; [| rewrite Hfree; discriminate].
      intros _ Hrun'. rewrite Hrun in Hrun'. discriminate.
  - cbn [Stop_leave stopping pool running]. split; discriminate.
  - cbn [dispatched stopping pool running cancelled]. exact IH.
Qed.

End pool_lock.

(** C7 at its failing input.  In every state of the lifecycle: while
    a [Stop] waits for the workers, the pool is still marked running and
    a caller of [AddTask] waits for the lock; in every other state
    [AddTask] returns at once, with the not-running error when the pool
    is not running, with the queue-full error when the pool is running
    and its queue holds its hundred jobs, and with [nil] and the task
    identifier at the end of the queue otherwise. *)
Theorem AddTask_in_lifecycle (choice : nat) (taskID : string) (g : LockedPool) :
  lifecycle g ->
  (stopping g = true ->
   infrastructure.running (pool g) = true /\ AddTask_call choice taskID g = None)
  /\ (stopping g = false ->
      (infrastructure.running (pool g) = false ->
       AddTask_call choice taskID g = Some (g, Some "пул воркеров не запущен"))
      /\ (infrastructure.running (pool g) = true -> saturated (pool g) ->
          AddTask_call choice taskID g = Some (g, Some "очередь задач переполнена"))
      /\ (infrastructure.running (pool g) = true -> ~ saturated (pool g) ->
          AddTask_call choice taskID g
          = Some (unlocked (enqueued taskID (pool g)), None))).
Proof.
  intros Hlife. destruct (lifecycle_flags g Hlife) as [Hlive Hwait].
  unfold AddTask_call. split.
  - intros Hstop. rewrite Hstop. split; [apply Hwait; exact Hstop | reflexivity].
  - intros Hfree. rewrite Hfree.
    assert (Hg : unlocked (pool g) = g) by (destruct g; cbn in Hfree |- *; rewrite Hfree; reflexivity).
    split; [| split].
    + intros Hrun. rewrite (AddTask_not_running choice taskID (pool g) Hrun).
      cbn [fst snd]. rewrite Hg. reflexivity.
    + intros Hrun Hfull.
      rewrite (AddTask_live_full choice taskID (pool g) Hrun (Hlive Hfree Hrun) Hfull).
      cbn [fst snd]. rewrite Hg. reflexivity.
    + intros Hrun Hroom.
      rewrite (AddTask_live_room choice taskID (pool g) Hrun (Hlive Hfree Hrun) Hroom).
      reflexivity.
Qed.

(** A submission to the pool of three workers: while a [Stop] waits for
    the workers the caller waits; on the started pool the job is queued;
    on the pool not yet started the submission is refused. *)
Lemma AddTask_in_lifecycle_witness :
  (infrastructure.running (pool stopping_pool) = true
   /\ AddTask_call 0 "task-2" stopping_pool = None)
  /\ AddTask_call 0 "task-2" started_pool
     = Some (unlocked (enqueued "task-2" (pool started_pool)), None)
  /\ AddTask_call 0 "task-2" (unlocked (infrastructure.NewWorkerPool 3))
     = Some (unlocked (infrastructure.NewWorkerPool 3), Some "пул воркеров не запущен").
Proof.
  assert (Hnew : lifecycle (unlocked (infrastructure.NewWorkerPool 3)))
    by apply lifecycle_New.
  assert (Hstarted : lifecycle started_pool).
  { apply (lifecycle_Start _ _ Hnew); reflexivity. }
  assert (Hstopping : lifecycle stopping_pool).
  { apply (lifecycle_Stop_enter _ _ Hstarted). reflexivity. }
  split; [| split].
  - apply (proj1 (AddTask_in_lifecycle 0 "task-2" stopping_pool Hstopping)).
    reflexivity.
  - apply (proj2 (AddTask_in_lifecycle 0 "task-2" started_pool Hstarted)).
    + reflexivity.
    + reflexivity.
    + unfold saturated, infrastructure.taskQueue_cap.
      change (length (infrastructure.taskQueue (pool started_pool))) with 0%nat.
      lia.
  - apply (proj2 (AddTask_in_lifecycle 0 "task-2"
                    (unlocked (infrastructure.NewWorkerPool 3)) Hnew)).
    + reflexivity.
    + reflexivity.
Defined.
